(** * dbc2parquet: the DBF reader and the record batch extractor

    A shallow embedding of [dbf_reader.cpp], [dbf_reader.hpp] and
    [parquet_write.cpp] and the properties of the header parser, the field
    catalog builder and the batch extractor.

    Conventions of the embedding:
    - a byte ([unsigned char]) is a [Byte.byte]; [u8] gives its value;
    - [uint16_t], [uint32_t], [int] values are [Z], with the wrap-around of
      unsigned arithmetic written out;
    - the decompressed buffer [mem_buffer] is a [list byte], a pointer into
      it is the [Z] offset from [mem_buffer.data()];
    - code that reads or writes the buffer runs in the monad [M]: the buffer
      is threaded as state, and an access outside the buffer (undefined
      behaviour in C++) or a loop that runs out of fuel has no result. *)

From stdpp Require Import base numbers list strings.
From Stdlib Require Import Strings.Byte.

Open Scope Z_scope.
Set Default Proof Using "Type".

(** ** Bytes *)

Definition u8 (b : byte) : Z := Z.of_N (Byte.to_N b).

#[global] Instance byte_inhabited : Inhabited byte := populate x00.
#[global] Instance byte_eq_dec : EqDecision byte := Byte.byte_eq_dec.

(** The bytes of a string literal, for examples. *)
Definition bytes (s : string) : list byte := String.list_byte_of_string s.

(** [isspace] of <cctype> in the "C" locale, which the program never
    changes: space, \t, \n, \v, \f, \r. *)
Definition isspace (c : byte) : bool :=
  match c with
  | x20 | x09 | x0a | x0b | x0c | x0d => true
  | _ => false
  end.

(** The set [" \t\n\r"] that [dbf_get_field_value] passes to
    [find_first_not_of] and [find_last_not_of]. *)
Definition in_trim_set (c : byte) : bool :=
  match c with
  | x20 | x09 | x0a | x0d => true
  | _ => false
  end.

Definition isdigit (c : byte) : bool :=
  (48 <=? u8 c) && (u8 c <=? 57).

(** ** The buffer monad *)

Definition M (A : Type) : Type := list byte → option (A * list byte).

Definition ret {A} (a : A) : M A := λ buf, Some (a, buf).

Definition bind {A B} (k : A → M B) (m : M A) : M B :=
  λ buf, match m buf with
         | Some (a, buf') => k a buf'
         | None => None
         end.

Definition undefined {A} : M A := λ _, None.

#[global] Instance M_ret : MRet M := @ret.
#[global] Instance M_bind : MBind M := @bind.

(** [*p] *)
Definition load (p : Z) : M byte :=
  λ buf, if decide (0 ≤ p) then
           match buf !! Z.to_nat p with
           | Some c => Some (c, buf)
           | None => None
           end
         else None.

(** [*p = c] *)
Definition store (p : Z) (c : byte) : M unit :=
  λ buf, if decide (0 ≤ p < Z.of_nat (length buf))
         then Some (tt, <[Z.to_nat p := c]> buf)
         else None.

(** The [n] bytes at [p], as [std::string(p, n)] or a [string_view] reads
    them. *)
Definition load_range (p : Z) (n : Z) : M (list byte) :=
  λ buf, if decide (0 ≤ p ∧ 0 ≤ n ∧ p + n ≤ Z.of_nat (length buf))
         then Some (take (Z.to_nat n) (drop (Z.to_nat p) buf), buf)
         else None.

(** ** Integer types *)

Definition to_u16 (z : Z) : Z := z `mod` 2 ^ 16.
Definition to_u32 (z : Z) : Z := z `mod` 2 ^ 32.
Definition to_size_t (z : Z) : Z := z `mod` 2 ^ 64.
(** An [int] result, wrapped to 32 bits two's complement. *)
Definition to_int (z : Z) : Z := (z + 2 ^ 31) `mod` 2 ^ 32 - 2 ^ 31.

Definition byte_of_Z (z : Z) : byte :=
  default x00 (Byte.of_N (Z.to_N (z `mod` 256))).

(** The value of an unsigned integer object whose bytes in memory are
    [bs], and the bytes of an [n]-byte object of value [z], on a
    little-endian host. *)
Definition object_value (bs : list byte) : Z :=
  foldr (λ b acc, u8 b + 256 * acc) 0 bs.

Fixpoint object_bytes (n : nat) (z : Z) : list byte :=
  match n with
  | O => []
  | S n' => byte_of_Z z :: object_bytes n' (z `div` 256)
  end.

(** ** dbf_reader.hpp *)

(** [struct DB_HEADER]; [sizeof(DB_HEADER)] is 32. *)
Record DB_HEADER := mkDB_HEADER {
  version : byte;
  last_update : list byte;
  records : Z;
  header_length : Z;
  record_length : Z;
  reserved01 : list byte;
  transaction : byte;
  encryption : byte;
  reserved02 : list byte;
  mdx : byte;
  language : byte;
  reserved03 : list byte
}.

(** [struct DB_FIELD]; [sizeof(DB_FIELD)] is 32. Its last member, [mdx] in
    the source, is [field_mdx] here. *)
Record DB_FIELD := mkDB_FIELD {
  field_name : list byte;
  field_type : byte;
  field_address : Z;
  field_length : byte;
  field_decimals : byte;
  reserved1 : list byte;
  field_offset : Z;
  reserved2 : list byte;
  field_mdx : byte
}.

Definition sizeof_DB_HEADER : Z := 32.
Definition sizeof_DB_FIELD : Z := 32.

(** [struct DBF]: a null [unique_ptr] is [None]. *)
Record DBF := mkDBF {
  mem_buffer : list byte;
  header : option DB_HEADER;
  fields : option (list DB_FIELD);
  columns : Z;
  cur_record : Z;
  encoding : string
}.

(** The bytes [b !! i .. b !! (i + n - 1)]. *)
Definition slice (i n : nat) (b : list byte) : list byte := take n (drop i b).

(** [memcpy] of 32 bytes into a [DB_HEADER] object. *)
Definition DB_HEADER_of_bytes (b : list byte) : DB_HEADER :=
  {| version := b !!! 0%nat;
     last_update := slice 1 3 b;
     records := object_value (slice 4 4 b);
     header_length := object_value (slice 8 2 b);
     record_length := object_value (slice 10 2 b);
     reserved01 := slice 12 2 b;
     transaction := b !!! 14%nat;
     encryption := b !!! 15%nat;
     reserved02 := slice 16 12 b;
     mdx := b !!! 28%nat;
     language := b !!! 29%nat;
     reserved03 := slice 30 2 b |}.

(** [memcpy] of 32 bytes into a [DB_FIELD] object. *)
Definition DB_FIELD_of_bytes (b : list byte) : DB_FIELD :=
  {| field_name := slice 0 11 b;
     field_type := b !!! 11%nat;
     field_address := object_value (slice 12 4 b);
     field_length := b !!! 16%nat;
     field_decimals := b !!! 17%nat;
     reserved1 := slice 18 2 b;
     field_offset := object_value (slice 20 4 b);
     reserved2 := slice 24 7 b;
     field_mdx := b !!! 31%nat |}.

(** [memcpy] of [n] objects of 32 bytes each. *)
Fixpoint DB_FIELD_array_of_bytes (n : nat) (b : list byte) : list DB_FIELD :=
  match n with
  | O => []
  | S n' => DB_FIELD_of_bytes (take 32 b) :: DB_FIELD_array_of_bytes n' (drop 32 b)
  end.

Definition set_header_length (v : Z) (h : DB_HEADER) : DB_HEADER :=
  mkDB_HEADER (version h) (last_update h) (records h) v (record_length h)
    (reserved01 h) (transaction h) (encryption h) (reserved02 h) (mdx h)
    (language h) (reserved03 h).

Definition set_records (v : Z) (h : DB_HEADER) : DB_HEADER :=
  mkDB_HEADER (version h) (last_update h) v (header_length h) (record_length h)
    (reserved01 h) (transaction h) (encryption h) (reserved02 h) (mdx h)
    (language h) (reserved03 h).

Definition set_field_offset (v : Z) (f : DB_FIELD) : DB_FIELD :=
  mkDB_FIELD (field_name f) (field_type f) (field_address f) (field_length f)
    (field_decimals f) (reserved1 f) v (reserved2 f) (field_mdx f).

(** ** dbf_reader.cpp *)

Definition rotate2b (var : Z) : Z :=
  let ptmp := object_bytes 2 var in
  to_u16 (Z.shiftl (u8 (ptmp !!! 1%nat)) 8 + u8 (ptmp !!! 0%nat)).

Definition rotate4b (var : Z) : Z :=
  let ptmp := object_bytes 4 var in
  to_u32 (Z.shiftl (u8 (ptmp !!! 3%nat)) 24 +
          Z.shiftl (u8 (ptmp !!! 2%nat)) 16 +
          Z.shiftl (u8 (ptmp !!! 1%nat)) 8 +
          u8 (ptmp !!! 0%nat)).

(** [None]: the null [header] is dereferenced. The arithmetic is in
    [size_t], the result is converted to [unsigned int]. *)
Definition dbf_NumCols (dbf : DBF) : option Z :=
  h ← header dbf;
  Some (if decide (header_length h > sizeof_DB_HEADER)
        then to_u32 (to_size_t (header_length h - sizeof_DB_HEADER - 1) `div` sizeof_DB_FIELD)
        else 0).

Definition dbf_NumRows (dbf : DBF) : option Z :=
  h ← header dbf;
  Some (if decide (records h > 0) then records h else 0).

(** Returns the [int] result and the updated [dbf]. *)
Definition dbf_ReadHeaderInfo (dbf : DBF) : Z * DBF :=
  if decide (Z.of_nat (length (mem_buffer dbf)) < sizeof_DB_HEADER) then (-1, dbf)
  else
    let header_ptr := DB_HEADER_of_bytes (take 32 (mem_buffer dbf)) in
    let header_ptr := set_header_length (rotate2b (header_length header_ptr)) header_ptr in
    let header_ptr := set_records (rotate4b (records header_ptr)) header_ptr in
    let enc :=
      match language header_ptr with
      | x01 => "CP437"
      | x02 => "CP850"
      | x03 => "CP852"
      | x65 => "CP1252"
      | _ => "CP850"
      end%string in
    (0, mkDBF (mem_buffer dbf) (Some header_ptr) (fields dbf) (columns dbf)
          (cur_record dbf) enc).

(** The loop of [dbf_ReadFieldInfo], [n] iterations from index [i]:
    [field_ptr[i].field_offset = offset; offset += field_ptr[i].field_length]. *)
Fixpoint assign_offsets (n : nat) (i : nat) (offset : Z) (field_ptr : list DB_FIELD)
  : list DB_FIELD :=
  match n with
  | O => field_ptr
  | S n' =>
      match field_ptr !! i with
      | Some f =>
          assign_offsets n' (S i) (to_int (offset + u8 (field_length f)))
            (<[i := set_field_offset (to_u32 offset) f]> field_ptr)
      | None => field_ptr
      end
  end.

(** [None]: the null [header] is dereferenced, or [memcpy] reads past the
    end of the buffer. *)
Definition dbf_ReadFieldInfo (dbf : DBF) : option (Z * DBF) :=
  if decide (Z.of_nat (length (mem_buffer dbf)) < sizeof_DB_HEADER) then Some (-1, dbf)
  else
    col ← dbf_NumCols dbf;
    if decide (col = 0) then Some (-1, dbf)
    else if decide (sizeof_DB_HEADER + col * sizeof_DB_FIELD ≤ Z.of_nat (length (mem_buffer dbf)))
    then
      let field_ptr := DB_FIELD_array_of_bytes (Z.to_nat col) (drop 32 (mem_buffer dbf)) in
      let field_ptr := assign_offsets (Z.to_nat col) 0 1 field_ptr in
      Some (0, mkDBF (mem_buffer dbf) (header dbf) (Some field_ptr) col
                 (cur_record dbf) (encoding dbf))
    else None.

(** [std::string::npos] *)
Definition npos : Z := 2 ^ 64 - 1.

Fixpoint find_first_not_of_from (set : byte → bool) (s : list byte) (i : Z) : Z :=
  match s with
  | [] => npos
  | c :: s' => if set c then find_first_not_of_from set s' (i + 1) else i
  end.

Definition find_first_not_of (set : byte → bool) (s : list byte) : Z :=
  find_first_not_of_from set s 0.

(** Searches backwards from the last character. *)
Fixpoint find_last_not_of_rev (set : byte → bool) (r : list byte) (i : Z) : Z :=
  match r with
  | [] => npos
  | c :: r' => if set c then find_last_not_of_rev set r' (i - 1) else i
  end.

Definition find_last_not_of (set : byte → bool) (s : list byte) : Z :=
  find_last_not_of_rev set (reverse s) (Z.of_nat (length s) - 1).

(** [s.erase(pos, n)]; [None]: [std::out_of_range] is thrown. *)
Definition erase (pos n : Z) (s : list byte) : option (list byte) :=
  if decide (pos > Z.of_nat (length s)) then None
  else
    let count := Z.min n (Z.of_nat (length s) - pos) in
    Some (take (Z.to_nat pos) s ++ drop (Z.to_nat (pos + count)) s).

(** [None]: a null pointer is dereferenced, the field index is outside
    the catalog, the field is outside the buffer, or [erase] throws. *)
Definition dbf_get_field_value (dbf : DBF) (col row : Z) : option (list byte) :=
  h ← header dbf;
  fs ← fields dbf;
  let record_offset := to_size_t (to_int (header_length h + to_int (row * record_length h))) in
  guard (0 ≤ col);;
  f ← fs !! Z.to_nat col;
  let field_offset := field_offset f in
  let field_ptr := record_offset + field_offset in
  let field_len := u8 (field_length f) in
  '(value, _) ← load_range field_ptr field_len (mem_buffer dbf);
  value ← erase 0 (find_first_not_of in_trim_set value) value;
  value ← erase (to_size_t (find_last_not_of in_trim_set value + 1)) npos value;
  Some value.

(** *** Reading the file *)

(** A [FILE*] opened for reading: the bytes of the file, the position, and
    whether the stream can seek. *)
Record FILE := mkFILE {
  content : list byte;
  position : Z;
  seekable : bool
}.

(** [fseek(input, off, SEEK_SET)]: the result and the stream. *)
Definition fseek (input : FILE) (off : Z) : Z * FILE :=
  if seekable input && bool_decide (0 ≤ off)
  then (0, mkFILE (content input) off true)
  else (-1, input).

(** [fread(buf, size, n, input)]: the number of complete items read, the
    bytes read, and the stream. *)
Definition fread (size n : Z) (input : FILE) : Z * list byte * FILE :=
  let avail := drop (Z.to_nat (position input)) (content input) in
  let items := if decide (size = 0) then 0
               else Z.min n (Z.of_nat (length avail) `div` size) in
  let got := take (Z.to_nat (Z.min (size * n) (Z.of_nat (length avail)))) avail in
  (items, got,
   mkFILE (content input) (position input + Z.of_nat (length got)) (seekable input)).

Definition dbf_ReadHeaderSize (input : FILE) : Z * FILE :=
  let '(r, input) := fseek input 8 in
  if decide (r ≠ 0) then (1, input)
  else
    let '(n, rawHeader, input) := fread 2 1 input in
    if decide (n ≠ 1) then (1, input)
    else (to_u16 (u8 (rawHeader !!! 0%nat) + Z.shiftl (u8 (rawHeader !!! 1%nat)) 8), input).

(** ** Library functions used by parquet_write.cpp *)

Fixpoint dropwhile (p : byte → bool) (s : list byte) : list byte :=
  match s with
  | [] => []
  | c :: s' => if p c then dropwhile p s' else s
  end.

Fixpoint takewhile (p : byte → bool) (s : list byte) : list byte :=
  match s with
  | [] => []
  | c :: s' => if p c then c :: takewhile p s' else []
  end.

Definition nonzero (c : byte) : bool := negb (bool_decide (c = x00)).

(** The C string at [p]: the bytes before the first NUL. [None]: there is
    no NUL before the end of the buffer. *)
Definition load_cstr (p : Z) : M (list byte) :=
  λ buf, if decide (0 ≤ p) then
           let rest := drop (Z.to_nat p) buf in
           if decide (x00 ∈ rest) then Some (takewhile nonzero rest, buf) else None
         else None.

Definition decimal_value (ds : list byte) : Z :=
  foldl (λ acc c, 10 * acc + (u8 c - 48)) 0 ds.

(** [std::errc], [std::from_chars_result]; [ptr] is the offset from
    [first]. *)
Inductive errc := errc_ok | invalid_argument | result_out_of_range.

#[global] Instance errc_eq_dec : EqDecision errc.
Proof. solve_decision. Defined.

Record from_chars_result := mk_from_chars_result { ptr : Z; ec : errc }.

(** [std::from_chars(first, last, value)] of <charconv> for a signed
    integer type of range [lo..hi], base 10: an optional minus sign and the
    longest run of digits; no leading white space, no plus sign. [s] is
    the text [first, last), [value] the content of the variable before the
    call; the result holds its content after the call. *)
Definition from_chars_int (lo hi : Z) (s : list byte) (value : Z)
  : from_chars_result * Z :=
  let '(neg, body) := match s with
                      | x2d :: s' => (true, s')
                      | _ => (false, s)
                      end in
  let ds := takewhile isdigit body in
  if decide (ds = []) then (mk_from_chars_result 0 invalid_argument, value)
  else
    let v := if neg : bool then - decimal_value ds else decimal_value ds in
    let p := (if neg : bool then 1 else 0) + Z.of_nat (length ds) in
    if decide (lo ≤ v ≤ hi) then (mk_from_chars_result p errc_ok, v)
    else (mk_from_chars_result p result_out_of_range, value).

Definition INT32_MIN : Z := - 2 ^ 31.
Definition INT32_MAX : Z := 2 ^ 31 - 1.
Definition INT64_MIN : Z := - 2 ^ 63.
Definition INT64_MAX : Z := 2 ^ 63 - 1.

(** *** fast_float::from_chars

    The header libs/fast_float/fast_float.h is not among the sources. This
    is what the library documents: the text must start with a number in
    the form that C++17 [std::from_chars] takes for
    [chars_format::general], the default; no white space is skipped and a
    plus sign is not accepted; the number ends where the form ends, and
    what follows it is no error; the value is the [double] nearest to the
    number. *)

(** The number that a text starts with: [Decimal neg w q] is [w] times 10
    to the power [q], negated if [neg]. *)
Inductive float_literal :=
| Decimal (negative : bool) (digits : Z) (exponent : Z)
| Infinity (negative : bool)
| NaN (negative : bool).

(** Letters are compared without regard to case. *)
Definition lower (c : byte) : byte :=
  if decide (65 ≤ u8 c ≤ 90) then byte_of_Z (u8 c + 32) else c.

Fixpoint starts_with_nocase (word s : list byte) : bool :=
  match word, s with
  | [], _ => true
  | _ :: _, [] => false
  | a :: word', b :: s' => bool_decide (a = lower b) && starts_with_nocase word' s'
  end.

(** The exponent part at the start of [s]: [e] or [E], an optional sign
    and at least one digit. Where no digit follows there is no exponent
    part, and the number has ended before the [e]. *)
Definition exponent_part (s : list byte) : Z :=
  match s with
  | c :: s1 =>
      if decide (c = "e"%byte ∨ c = "E"%byte) then
        let '(neg, s2) := match s1 with
                          | x2d :: r => (true, r)
                          | x2b :: r => (false, r)
                          | _ => (false, s1)
                          end in
        let ds := takewhile isdigit s2 in
        if neg : bool then - decimal_value ds else decimal_value ds
      else 0
  | [] => 0
  end.

(** The number at the start of [s]: an optional minus sign, then digits
    with at most one decimal point in or around them and at least one
    digit, and an exponent part if there is one; or, after the optional
    minus sign, [nan] or [inf] in any case. [None]: [s] does not start
    with a number. *)
Definition parse_float (s : list byte) : option float_literal :=
  let '(neg, body) := match s with
                      | x2d :: s' => (true, s')
                      | _ => (false, s)
                      end in
  let whole := takewhile isdigit body in
  let rest := dropwhile isdigit body in
  let '(fraction, rest) := match rest with
                           | x2e :: r => (takewhile isdigit r, dropwhile isdigit r)
                           | _ => ([], rest)
                           end in
  if decide (whole = [] ∧ fraction = []) then
    if starts_with_nocase (bytes "nan") body then Some (NaN neg)
    else if starts_with_nocase (bytes "inf") body then Some (Infinity neg)
    else None
  else Some (Decimal neg (decimal_value (whole ++ fraction))
               (exponent_part rest - Z.of_nat (length fraction))).

(** What the library documents of [from_chars], a function that stands for
    [fast_float::from_chars] on [double]: a text that does not start with
    a number is an invalid argument; otherwise the value is [nearest] of
    the number, the double nearest to it, unless the number is
    [out_of_range], too large or too small for a double, which the
    versions of the library report for different numbers. *)
Definition fast_float_contract {double : Type} (nearest : float_literal → double)
    (out_of_range : float_literal → bool)
    (from_chars : list byte → double → from_chars_result * double) : Prop :=
  ∀ s value,
    match parse_float s with
    | None => ec (fst (from_chars s value)) = invalid_argument
    | Some number =>
        if out_of_range number then ec (fst (from_chars s value)) = result_out_of_range
        else ec (fst (from_chars s value)) = errc_ok
             ∧ snd (from_chars s value) = nearest number
    end.

(** One [%Nd] conversion of [sscanf], N = [width]: white space is
    skipped, then at most [width] characters are read, an optional sign and
    digits. [None]: no digit was read. Otherwise the value and the rest of
    the input. *)
Definition scan_d (width : nat) (s : list byte) : option (Z * list byte) :=
  let s := dropwhile isspace s in
  let '(neg, w, s) := match s with
                      | x2d :: s' => (true, pred width, s')
                      | x2b :: s' => (false, pred width, s')
                      | _ => (false, width, s)
                      end in
  let ds := takewhile isdigit (take w s) in
  if decide (ds = []) then None
  else Some (if neg : bool then - decimal_value ds else decimal_value ds,
             drop (length ds) s).

(** [sscanf(s, "%4d%2d%2d", &year, &month, &day)]: the return value and
    the values assigned, in order. *)
Definition sscanf_4d2d2d (s : list byte) : Z * list Z :=
  match scan_d 4 s with
  | None => (if decide (dropwhile isspace s = []) then -1 else 0, [])
  | Some (year, s1) =>
      match scan_d 2 s1 with
      | None => (1, [year])
      | Some (month, s2) =>
          match scan_d 2 s2 with
          | None => (2, [year; month])
          | Some (day, _) => (3, [year; month; day])
          end
      end
  end.

(** [struct tm] of <ctime>. *)
Record tm := mk_tm {
  tm_sec : Z; tm_min : Z; tm_hour : Z; tm_mday : Z; tm_mon : Z;
  tm_year : Z; tm_wday : Z; tm_yday : Z; tm_isdst : Z
}.

(** Days from 1970-01-01 to the day [d] of month [m] (1..12) of year [y]
    in the proleptic Gregorian calendar. *)
Definition days_from_civil (y m d : Z) : Z :=
  let y := if decide (m ≤ 2) then y - 1 else y in
  let era := y `div` 400 in
  let yoe := y - era * 400 in
  let doy := (153 * (if decide (m > 2) then m - 3 else m + 9) + 2) `div` 5 + d - 1 in
  let doe := yoe * 365 + yoe `div` 4 - yoe `div` 100 + doy in
  era * 146097 + doe - 719468.


(** [mktime] of <ctime>: the seconds since the epoch of the local time
    [t]. The members may be outside their ranges: months carry into the
    year and days into the month. Local time at [t] is [seconds_west t]
    seconds behind UTC: the offset that the rules of the time zone give
    for that very date, with its daylight saving periods and the changes
    of the zone over the years, and for the [tm_isdst] of [t], which the
    caller sets to 0. It is not one number for all dates. *)
Definition mktime (seconds_west : tm → Z) (t : tm) : Z :=
  let y := 1900 + tm_year t + tm_mon t `div` 12 in
  let m := tm_mon t `mod` 12 + 1 in
  let days := days_from_civil y m 1 + (tm_mday t - 1) in
  days * 86400 + tm_hour t * 3600 + tm_min t * 60 + tm_sec t + seconds_west t.

(** ** parquet_write.cpp *)

(** [arrow::Type::type]; the schema built by [create_schema] holds the
    first six only. *)
Inductive Type_id := STRING | DOUBLE | INT32 | INT64 | DATE32 | BOOL | OTHER.

#[global] Instance Type_id_eq_dec : EqDecision Type_id.
Proof. solve_decision. Defined.

(** [arrow::Field]: name and type. [arrow::Schema]: the fields. *)
Record Field := mkField { name : list byte; type_id : Type_id }.
Definition Schema := list Field.

(** The object representation of a [DB_FIELD]. *)
Definition DB_FIELD_bytes (f : DB_FIELD) : list byte :=
  field_name f ++ [field_type f] ++ object_bytes 4 (field_address f) ++
  [field_length f; field_decimals f] ++ reserved1 f ++
  object_bytes 4 (field_offset f) ++ reserved2 f ++ [field_mdx f].

(** The type that [create_schema] declares for a field. *)
Definition schema_type (f : DB_FIELD) : Type_id :=
  match field_type f with
  | "C"%byte => STRING
  | "N"%byte =>
      if decide (u8 (field_decimals f) > 0) then DOUBLE
      else if decide (u8 (field_length f) ≤ 9) then INT32
      else INT64
  | "D"%byte => DATE32
  | "L"%byte => BOOL
  | _ => STRING
  end.

(** The loop of [create_schema], [n] iterations from index [i]. [None]:
    [fields] has no element [i], or the name has no NUL inside the
    descriptor. *)
Fixpoint create_schema_loop (n : nat) (i : nat) (fs : list DB_FIELD) : option Schema :=
  match n with
  | O => Some []
  | S n' =>
      f ← fs !! i;
      let obj := DB_FIELD_bytes f in
      guard (x00 ∈ obj);;
      let field_name := takewhile nonzero obj in
      rest ← create_schema_loop n' (S i) fs;
      Some (mkField field_name (schema_type f) :: rest)
  end.

Definition create_schema (dbf : DBF) : option Schema :=
  cols ← dbf_NumCols dbf;
  if decide (cols = 0) then Some []
  else fs ← fields dbf; create_schema_loop (Z.to_nat cols) 0 fs.

Definition is_ascii (str : list byte) : bool :=
  forallb (λ c, negb (bool_decide (u8 c > 127))) str.

(** The code page number of an encoding identifier (the Windows variant of
    the converter). *)
Definition get_windows_codepage (encoding : string) : Z :=
  if decide (encoding = "CP850" ∨ encoding = "cp850")%string then 850
  else if decide (encoding = "CP852" ∨ encoding = "cp852")%string then 852
  else if decide (encoding = "CP1252" ∨ encoding = "cp1252")%string then 1252
  else if decide (encoding = "CP437" ∨ encoding = "cp437")%string then 437
  else if decide (encoding = "ISO-8859-1" ∨ encoding = "iso-8859-1")%string then 28591
  else if decide (encoding = "ISO-8859-15" ∨ encoding = "iso-8859-15")%string then 28605
  else 1252.

(** *** trim_in_place *)

(** [while (start <= end && isspace(start[0])) { start++; len--; }] *)
Fixpoint trim_front (fuel : nat) (start end_ len : Z) : M (Z * Z) :=
  match fuel with
  | O => undefined
  | S fuel' =>
      if decide (start ≤ end_) then
        c ← load start;
        if isspace c then trim_front fuel' (start + 1) end_ (len - 1)
        else ret (start, len)
      else ret (start, len)
  end.

(** [while (end > start && isspace(end[0])) { end--; len--; }] *)
Fixpoint trim_back (fuel : nat) (start end_ len : Z) : M (Z * Z) :=
  match fuel with
  | O => undefined
  | S fuel' =>
      if decide (end_ > start) then
        c ← load end_;
        if isspace c then trim_back fuel' start (end_ - 1) (len - 1)
        else ret (end_, len)
      else ret (end_, len)
  end.

(** Returns the new [start] and the updated [len]. *)
Definition trim_in_place (start len : Z) : M (Z * Z) :=
  if decide (len = 0) then ret (start, len)
  else
    let end_ := start + len - 1 in
    let fuel := S (Z.to_nat len) in
    '(start, len) ← trim_front fuel start end_ len;
    '(end_, len) ← trim_back fuel start end_ len;
    store (end_ + 1) x00;;
    ret (start, len).

Section Converter.

(** *** External collaborators *)

(** [blast] of blast.h, the PKWare DCL decompressor, on the bytes the input
    callback delivers from the current position to the end of the file: its
    return value and the bytes it hands to the output callback. *)
Variable blast : list byte → Z * list byte.

(** C++ [double], and [fast_float::from_chars(first, last, value)] on the
    text [first, last): the result and the content of [value] after the
    call. *)
Variable double : Type.
Variable fast_float_from_chars : list byte → double → from_chars_result * double.
(** The content of a variable that was declared without an initialiser. *)
Variable indeterminate_double : double.
Variable indeterminate_int : Z.

(** [iconv_open("UTF-8", fromcode)] succeeds, and [iconv] from [fromcode]
    on the whole input: the bytes written, or [None] for the error result. *)
Variable iconv_open : string → bool.
Variable iconv : string → list byte → option (list byte).

(** The time zone of the process: local time at [t] is [seconds_west t]
    seconds behind UTC, as for [mktime]. *)
Variable seconds_west : tm → Z.

(** *** dbf_reader.cpp, continued *)

(** [out_to_memory] appends what [blast] produces to [output_buf]. The
    result is the [int] result, the buffer and the stream (at the end of
    the file when [blast] has run). *)
Definition dbf_DecompressData (input : FILE) (header_size : Z) (output_buf : list byte)
  : Z * list byte * FILE :=
  let '(r, input) := fseek input (header_size + 4) in
  if decide (r ≠ 0) then (-1, output_buf, input)
  else
    let '(ret, out) := blast (drop (Z.to_nat (position input)) (content input)) in
    let input := mkFILE (content input) (Z.of_nat (length (content input))) (seekable input) in
    let output_buf := output_buf ++ out in
    if decide (ret ≠ 0) then (-1, output_buf, input) else (0, output_buf, input).

Definition with_mem_buffer (b : list byte) (dbf : DBF) : DBF :=
  mkDBF b (header dbf) (fields dbf) (columns dbf) (cur_record dbf) (encoding dbf).

(** [vector::resize(n)]: truncates, or pads with zero bytes. *)
Definition resize (n : Z) (v : list byte) : list byte :=
  take (Z.to_nat n) v ++ replicate (Z.to_nat n - length v) x00.

(** Writes [src] over the first bytes of [dst], as [fread] into
    [mem_buffer.data()] does. *)
Definition overwrite (src dst : list byte) : list byte :=
  src ++ drop (length src) dst.

(** [None]: [dbf_ReadFieldInfo] has no defined result. Otherwise the
    [bool] result and [dbf] as the call leaves it. *)
Definition dbc_load_dbf (input : FILE) (dbf : DBF) : option (bool * DBF) :=
  let '(header_size, input) := dbf_ReadHeaderSize input in
  if decide (header_size = 1) then Some (false, dbf)
  else
    let '(r, input) := fseek input 0 in
    if decide (r ≠ 0) then Some (false, dbf)
    else
      let dbf := with_mem_buffer (resize header_size (mem_buffer dbf)) dbf in
      let '(n, got, input) := fread 1 header_size input in
      let dbf := with_mem_buffer (overwrite got (mem_buffer dbf)) dbf in
      if decide (n ≠ header_size) then Some (false, dbf)
      else
        let '(r, buf, input) := dbf_DecompressData input header_size (mem_buffer dbf) in
        let dbf := with_mem_buffer buf dbf in
        if decide (r ≠ 0) then Some (false, dbf)
        else
          let '(r, dbf) := dbf_ReadHeaderInfo dbf in
          if decide (r ≠ 0) then Some (false, dbf)
          else
            '(r, dbf) ← dbf_ReadFieldInfo dbf;
            if decide (r ≠ 0) then Some (false, dbf)
            else Some (true, dbf).

(** *** parquet_write.cpp, continued *)

(** [convert_to_utf8_opt], the POSIX variant; [cd] is the encoding the
    descriptor was opened for. *)
Definition convert_to_utf8_opt (input : list byte) (cd : string) : list byte :=
  if decide (length input = 0%nat) then []
  else match iconv cd input with
       | None => []
       | Some out => out
       end.

(** What a builder receives for one row: [AppendNull] or [Append] of a
    value. *)
Inductive cell :=
| Null
| Utf8 (s : list byte)
| Int32 (v : Z)
| Int64 (v : Z)
| Double (v : double)
| Boolean (b : bool)
| Date32 (v : Z).

(** The [switch (field_type_id)] of [create_arrow_batch]. *)
Definition append_value (enc : string) (field_type_id : Type_id)
    (trimmed_data current_len : Z) : M cell :=
  match field_type_id with
  | STRING =>
      s ← load_range trimmed_data current_len;
      if is_ascii s then mret (Utf8 s)
      else mret (Utf8 (convert_to_utf8_opt s enc))
  | INT32 =>
      s ← load_range trimmed_data current_len;
      let '(r, value) := from_chars_int INT32_MIN INT32_MAX s indeterminate_int in
      if decide (ec r = errc_ok) then mret (Int32 value) else mret Null
  | INT64 =>
      s ← load_range trimmed_data current_len;
      let '(r, value) := from_chars_int INT64_MIN INT64_MAX s indeterminate_int in
      if decide (ec r = errc_ok) then mret (Int64 value) else mret Null
  | DOUBLE =>
      s ← load_range trimmed_data current_len;
      let '(r, value) := fast_float_from_chars s indeterminate_double in
      if decide (ec r = errc_ok) then mret (Double value) else mret Null
  | BOOL =>
      c ← load trimmed_data;
      let value := bool_decide (current_len = 1) &&
                   bool_decide (c = "T" ∨ c = "t" ∨ c = "1" ∨ c = "Y" ∨ c = "y")%byte in
      mret (Boolean value)
  | DATE32 =>
      s ← load_cstr trimmed_data;
      match sscanf_4d2d2d s with
      | (3, [year; month; day]) =>
          let t := mk_tm 0 0 0 day (month - 1) (year - 1900) 0 0 0 in
          let epoch_seconds := mktime seconds_west t in
          let days_since_epoch := to_int (epoch_seconds `quot` (24 * 60 * 60)) in
          mret (Date32 days_since_epoch)
      | _ => mret Null
      end
  | OTHER => mret Null
  end.

(** The body of the row loop of [create_arrow_batch] for the field at
    [field_data]. *)
Definition extract_cell (enc : string) (field_type_id : Type_id)
    (field_data field_length : Z) : M cell :=
  backup_char ← load (field_data + field_length);
  store (field_data + field_length) x00;;
  let current_len := field_length in
  '(trimmed_data, current_len) ← trim_in_place field_data current_len;
  c ← load trimmed_data;
  v ← (if decide (c = x00) then mret Null
       else append_value enc field_type_id trimmed_data current_len);
  store (field_data + field_length) backup_char;;
  mret v.

(** The row loop: one cell per record pointer. *)
Fixpoint extract_column (enc : string) (field_type_id : Type_id)
    (field_offset field_length : Z) (record_pointers : list Z) : M (list cell) :=
  match record_pointers with
  | [] => mret []
  | p :: rest =>
      v ← extract_cell enc field_type_id (p + field_offset) field_length;
      vs ← extract_column enc field_type_id field_offset field_length rest;
      mret (v :: vs)
  end.

(** The column loop, from column [col] on. It has no result either when
    [fields] is null or has no element [col]. *)
Fixpoint extract_columns (enc : string) (fs : option (list DB_FIELD))
    (record_pointers : list Z) (col : nat) (schema : list Field) : M (list (list cell)) :=
  match schema with
  | [] => mret []
  | fld :: rest =>
      match fs ≫= (.!! col) with
      | None => undefined
      | Some field_def =>
          let field_offset := to_size_t (field_offset field_def) in
          let field_length := u8 (field_length field_def) in
          array ← extract_column enc (type_id fld) field_offset field_length record_pointers;
          columns ← extract_columns enc fs record_pointers (S col) rest;
          mret (array :: columns)
      end
  end.

(** [arrow::Result<std::shared_ptr<arrow::RecordBatch>>]. *)
Inductive BatchResult :=
| RecordBatch (schema : Schema) (num_rows : Z) (columns : list (list cell))
| Invalid (msg : string).

(** [None]: a null pointer is dereferenced or the buffer is accessed
    outside its bounds. Otherwise the result and [dbf] as the call leaves
    it. *)
Definition create_arrow_batch (dbf : DBF) (schema : Schema) (start_row num_rows : Z)
  : option (BatchResult * DBF) :=
  h ← header dbf;
  let actual_rows :=
    if decide (to_u32 (to_int (start_row + num_rows)) > records h)
    then to_u32 (records h - start_row)
    else to_u32 num_rows in
  let record_pointers :=
    (λ i, header_length h + to_int (to_int (start_row + i) * record_length h))
      <$> seqZ 0 actual_rows in
  if iconv_open (encoding dbf) then
    '(columns, buf) ← extract_columns (encoding dbf) (fields dbf) record_pointers 0 schema
                         (mem_buffer dbf);
    Some (RecordBatch schema actual_rows columns, with_mem_buffer buf dbf)
  else Some (Invalid "Failed to initialize encoding conversion (iconv_open).", dbf).

(** *** Reference definitions for the statements *)

(** The value [append_value] yields for a trimmed text [t]: the switch is
    run on a buffer that holds [t] and the terminating NUL only. *)
Definition text_value (enc : string) (field_type_id : Type_id) (t : list byte)
  : option cell :=
  fst <$> append_value enc field_type_id 0 (Z.of_nat (length t)) (t ++ [x00]).

End Converter.

(** The [n] bytes of [buf] from offset [p]. *)
Definition zslice (p n : Z) (buf : list byte) : list byte :=
  take (Z.to_nat n) (drop (Z.to_nat p) buf).

(** [s] without its longest prefix and its longest suffix of bytes in
    [ws]. *)
Definition strip (ws : byte → bool) (s : list byte) : list byte :=
  reverse (dropwhile ws (reverse (dropwhile ws s))).

(** The number of bytes of [ws] at the start and at the end of [s]. *)
Definition leading (ws : byte → bool) (s : list byte) : nat :=
  length (takewhile ws s).
Definition trailing (ws : byte → bool) (s : list byte) : nat :=
  length (takewhile ws (reverse s)).

(** [b'] is [b] with NUL in place of some white-space bytes. *)
Definition nul_for_space (b b' : list byte) : Prop :=
  length b' = length b
  ∧ ∀ i c c', b !! i = Some c → b' !! i = Some c' →
              c' = c ∨ (isspace c = true ∧ c' = x00).

(** A byte that is white space or NUL. *)
Definition blank (c : byte) : Prop := isspace c = true ∨ c = x00.

(** Offsets that start at [offset] and grow by the length of each field. *)
Fixpoint offsets_from (offset : Z) (fs : list DB_FIELD) : list DB_FIELD :=
  match fs with
  | [] => []
  | f :: rest =>
      set_field_offset offset f :: offsets_from (offset + u8 (field_length f)) rest
  end.

(** ** Example inputs *)

(** A [DBF] as [DBF dbf;] declares it. *)
Definition empty_dbf : DBF := mkDBF [] None None 0 0 "".

(** A table header of 32 bytes. *)
Definition example_header (records header_length record_length : Z) (language : byte)
  : list byte :=
  [x03; x7d; x01; x01] ++ object_bytes 4 records ++ object_bytes 2 header_length ++
  object_bytes 2 record_length ++ replicate 17 x00 ++ [language; x00; x00].

(** A field descriptor of 32 bytes. *)
Definition example_descriptor (name : string) (type : byte) (length decimals : Z)
  : list byte :=
  take 11 (bytes name ++ replicate 11 x00) ++ [type] ++ replicate 4 x00 ++
  [byte_of_Z length; byte_of_Z decimals] ++ replicate 14 x00.

(** A decompressed table with one Character field NAME of length 3 and one
    record, whose field holds "A" and two spaces; the buffer ends with the
    end-of-file mark. *)
Definition name_table : list byte :=
  example_header 1 65 4 x09 ++ example_descriptor "NAME" "C" 3 0 ++ [x0d] ++
  bytes " A  " ++ [x1a].

(** A decompressed table with the fields N9 (Numeric, length 9), N10
    (Numeric, length 10) and PRICE (Numeric, length 8, 2 decimals), and no
    record. *)
Definition numeric_table : list byte :=
  example_header 0 129 28 x65 ++ example_descriptor "N9" "N" 9 0 ++
  example_descriptor "N10" "N" 10 0 ++ example_descriptor "PRICE" "N" 8 2 ++
  [x0d; x1a].

(** The table handle that [dbf_ReadHeaderInfo] and [dbf_ReadFieldInfo]
    build from a decompressed buffer. *)
Definition handle_of (buf : list byte) : option DBF :=
  let '(_, dbf) := dbf_ReadHeaderInfo (with_mem_buffer buf empty_dbf) in
  snd <$> dbf_ReadFieldInfo dbf.

(** An input file that declares a header of 5 bytes: bytes 8 and 9 are 05
    00, and the compressed stream starts at offset 9. *)
Definition short_header_file (stream : list byte) : FILE :=
  mkFILE ([x03; x7d; x01; x01; x00; x00; x00; x00; x05; x00] ++ stream) 0 true.

(** 27 bytes that, after the 5 bytes of [short_header_file], make a table
    header with header length 0xFFFF. *)
Definition short_header_payload : list byte :=
  [x00; x00; x00; xff; xff; x04; x00] ++ replicate 20 x00.

(** A decompressed table with the fields NAME (Character, length 3) and
    BORN (Date, length 8) and two records; all fields of the second record
    are blank. *)
Definition people_table : list byte :=
  example_header 2 97 12 x03 ++ example_descriptor "NAME" "C" 3 0 ++
  example_descriptor "BORN" "D" 8 0 ++ [x0d] ++
  bytes " A  20240229" ++ bytes "            " ++ [x1a].

(** Stand-ins for the external collaborators in examples: a decompressor
    that yields [out], a floating-point parser that reports an error, a
    converter that fails. *)
Definition blast_yielding (out : list byte) : list byte → Z * list byte :=
  λ _, (0, out).
Definition no_float : list byte → Z → from_chars_result * Z :=
  λ _ value, (mk_from_chars_result 0 invalid_argument, value).
(** A floating-point parser that yields the number itself for the
    double: it takes every number to be in range. *)
Definition literal_from_chars (s : list byte) (value : float_literal)
  : from_chars_result * float_literal :=
  match parse_float s with
  | None => (mk_from_chars_result 0 invalid_argument, value)
  | Some number => (mk_from_chars_result (Z.of_nat (length s)) errc_ok, number)
  end.
Definition no_iconv : string → list byte → option (list byte) := λ _ _, None.
(** A time zone that is [s] seconds behind UTC on every date, and one with
    a history: an hour ahead of UTC until the end of 1971, on UTC since. *)
Definition zone_west (s : Z) : tm → Z := λ _, s.
Definition iconv_opens : string → bool := λ _, true.

(** The handles and schemas of the example tables. *)
Definition name_handle : DBF := default empty_dbf (handle_of name_table).
Definition name_schema : Schema := default [] (create_schema name_handle).
Definition numeric_parsed : DBF :=
  snd (dbf_ReadHeaderInfo (with_mem_buffer numeric_table empty_dbf)).
Definition numeric_header : DB_HEADER :=
  default (DB_HEADER_of_bytes []) (header numeric_parsed).
Definition numeric_handle : DBF := default empty_dbf (handle_of numeric_table).
Definition people_handle : DBF := default empty_dbf (handle_of people_table).
Definition people_schema : Schema := default [] (create_schema people_handle).
Definition numeric_schema : Schema := default [] (create_schema numeric_handle).

(** An input file whose bytes 8 and 9 are 01 00. *)
Definition header_length_one_file : FILE :=
  mkFILE ([x03; x7d; x01; x01; x00; x00; x00; x00; x01; x00] ++ replicate 40 x00) 0 true.

(** ** The rest of the program *)

(** *** dbf_reader.cpp: the callbacks handed to the decompressor *)

(** [in_from_file]: reads up to 4096 bytes into the static [file_buffer]
    and points [*buf] to it. The result is the [unsigned] count, the bytes
    that [*buf] points to, and the stream. *)
Definition in_from_file (how : FILE) : Z * list byte * FILE :=
  let '(read_bytes, file_buffer, file) := fread 1 4096 how in
  (to_u32 read_bytes, file_buffer, file).

(** [out_to_memory]: appends the [len] bytes at [buf] to the vector. The
    result is the [int] result and the vector. *)
Definition out_to_memory (how : list byte) (buf : list byte) : Z * list byte :=
  (0, how ++ buf).

(** A consumer of the two callbacks, for the statements: it calls the
    input callback until that delivers nothing, and hands every chunk to
    the output callback. *)
Fixpoint copy_through (fuel : nat) (input : FILE) (vec : list byte)
  : option (list byte * FILE) :=
  match fuel with
  | O => None
  | S fuel' =>
      let '(n, chunk, input) := in_from_file input in
      if decide (n = 0) then Some (vec, input)
      else copy_through fuel' input (snd (out_to_memory vec chunk))
  end.

(** *** main.cpp *)

(** [s.find_last_of(c)], searching backwards from the last character. *)
Fixpoint find_last_of_rev (c : byte) (r : list byte) (i : Z) : Z :=
  match r with
  | [] => npos
  | x :: r' => if decide (x = c) then i else find_last_of_rev c r' (i - 1)
  end.

Definition find_last_of (c : byte) (s : list byte) : Z :=
  find_last_of_rev c (reverse s) (Z.of_nat (length s) - 1).

(** [s.substr(pos, n)]; [None]: [std::out_of_range] is thrown. *)
Definition substr (pos n : Z) (s : list byte) : option (list byte) :=
  if decide (pos > Z.of_nat (length s)) then None
  else Some (take (Z.to_nat (Z.min n (Z.of_nat (length s) - pos))) (drop (Z.to_nat pos) s)).

(** [None]: an exception leaves the function. *)
Definition generate_output_filename (input_file : list byte) : option (list byte) :=
  let output := input_file in
  let pos := find_last_of "."%byte output in
  output ← (if decide (pos ≠ npos) then substr 0 pos output else Some output);
  Some (output ++ bytes ".parquet").

(** [s] starts with [needle]. *)
Fixpoint is_prefix (needle s : list byte) : bool :=
  match needle, s with
  | [], _ => true
  | _ :: _, [] => false
  | a :: needle', b :: s' => bool_decide (a = b) && is_prefix needle' s'
  end.

(** [strstr(haystack, needle)]: the offset of the first occurrence, [None]
    for the null pointer. *)
Fixpoint strstr (haystack needle : list byte) : option Z :=
  if is_prefix needle haystack then Some 0
  else match haystack with
       | [] => None
       | _ :: haystack' => Z.succ <$> strstr haystack' needle
       end.

(** *** parquet_write.cpp: the writer *)

(** [arrow::Status]: OK, or an error with its message. *)
Inductive Status := OK | Failed (message : string).

Definition ok (s : Status) : bool :=
  match s with OK => true | Failed _ => false end.

Section Writer.

Variable double : Type.
Variable fast_float_from_chars : list byte → double → from_chars_result * double.
Variable indeterminate_double : double.
Variable indeterminate_int : Z.
Variable iconv_open : string → bool.
Variable iconv : string → list byte → option (list byte).
Variable seconds_west : tm → Z.

(** The operations on the output file and on the Parquet writer, in the
    order of the calls: [FileOutputStream::Open(path)],
    [FileWriter::Open(schema, ...)], [WriteRecordBatch(batch)] with the
    schema, the row count and the columns of the batch, [writer->Close()]
    and [outfile->Close()]. *)
Inductive SinkOp :=
| OpenFile (path : list byte)
| OpenWriter (schema : Schema)
| WriteRecordBatch (schema : Schema) (num_rows : Z) (columns : list (list (cell double)))
| CloseWriter
| CloseFile.

(** The status that an operation returns after the operations [ops]. *)
Variable sink : list SinkOp → SinkOp → Status.

(** The loop of [write_parquet] from [start] on; [ops] are the
    operations so far. [None]: out of fuel, a null [header], an undefined
    [create_arrow_batch], or the overflow of [start += batch_size]. *)
Fixpoint write_batches (fuel : nat) (dbf : DBF) (schema : Schema) (batch_size : Z)
    (start : Z) (ops : list SinkOp) : option (Status * list SinkOp * DBF) :=
  match fuel with
  | O => None
  | S fuel' =>
      h ← header dbf;
      if decide (to_u32 start < records h) then
        '(result, dbf) ← create_arrow_batch double fast_float_from_chars
                            indeterminate_double indeterminate_int iconv_open iconv
                            seconds_west dbf schema start batch_size;
        match result with
        | Invalid _ msg => Some (Failed msg, ops, dbf)
        | RecordBatch _ sch rows cols =>
            let op := WriteRecordBatch sch rows cols in
            let st := sink ops op in
            if ok st then
              if decide (INT32_MIN ≤ start + batch_size ≤ INT32_MAX)
              then write_batches fuel' dbf schema batch_size (start + batch_size)
                     (ops ++ [op])
              else None
            else Some (st, ops ++ [op], dbf)
        end
      else Some (OK, ops, dbf)
  end.

(** The status, the operations on the sink and [dbf] as the call leaves
    it. [arrow::schema] never returns a null pointer, so the test of
    [schema] never fails. *)
Definition write_parquet (fuel : nat) (dbf : DBF) (path : list byte) (batch_size : Z)
  : option (Status * list SinkOp * DBF) :=
  schema ← create_schema dbf;
  let op := OpenFile path in
  let st := sink [] op in
  let ops := [op] in
  if negb (ok st) then Some (st, ops, dbf)
  else
    let op := OpenWriter schema in
    let st := sink ops op in
    let ops := ops ++ [op] in
    if negb (ok st) then Some (st, ops, dbf)
    else
      '(st, ops, dbf) ← write_batches fuel dbf schema batch_size 0 ops;
      if negb (ok st) then Some (st, ops, dbf)
      else
        let st := sink ops CloseWriter in
        let ops := ops ++ [CloseWriter] in
        if negb (ok st) then Some (st, ops, dbf)
        else
          let st := sink ops CloseFile in
          let ops := ops ++ [CloseFile] in
          if negb (ok st) then Some (st, ops, dbf)
          else Some (OK, ops, dbf).

(** *** main.cpp: the entry point *)

(** [fopen(path, "rb")]; [None]: the null pointer. *)
Variable fopen : list byte → option FILE.
(** [blast] of blast.h, as for [dbf_DecompressData]. *)
Variable blast : list byte → Z * list byte.

(** [main] with [argv] of [argc] strings: the return value, the text
    written to [std::cerr] and the operations on the sink. The text
    written to [std::cout] and [wait_if_interactive], which has no effect
    on the result, are left out. [None]: [write_parquet] has no result, or
    [argv] is empty. *)
Definition main (fuel : nat) (argv : list (list byte))
  : option (Z * list byte * list SinkOp) :=
  let argc := Z.of_nat (length argv) in
  program ← argv !! 0%nat;
  let dbf := empty_dbf in
  let run (input_file output_file : list byte) :=
    match fopen input_file with
    | None => Some (-1, bytes "Error opening input file: " ++ input_file ++ [x0a], [])
    | Some input =>
        '(loaded, dbf) ← dbc_load_dbf blast input dbf;
        if negb loaded then Some (-1, bytes "Error loading DBC data" ++ [x0a], [])
        else
          '(status, ops, _) ← write_parquet fuel dbf output_file 10000;
          if negb (ok status)
          then Some (-1, bytes "Error: Failed to write Parquet file" ++ [x0a], ops)
          else Some (0, [], ops)
    end in
  if decide (argc = 2) then
    input_file ← argv !! 1%nat;
    output_name ← generate_output_filename input_file;
    run input_file output_name
  else if decide (argc = 3) then
    input_file ← argv !! 1%nat;
    output_file ← argv !! 2%nat;
    if bool_decide (strstr input_file (bytes ".dbc") = None)
       || bool_decide (strstr output_file (bytes ".parquet") = None)
    then Some (-1, bytes "Usage: " ++ program ++ bytes " input.dbc output.parquet" ++ [x0a], [])
    else run input_file output_file
  else Some (-1, bytes "Usage: " ++ program ++ bytes " input.dbc [output.parquet]" ++ [x0a], []).

(** *** Reference definitions for the statements on cells *)

(** The cell of a field whose bytes are [f]: null for a blank field or a
    NUL after the leading white space, and the value of the stripped text
    otherwise. *)
Definition field_cell (enc : string) (ty : Type_id) (f : list byte) : cell double :=
  match strip isspace f with
  | [] => Null double
  | c :: t =>
      if decide (c = x00) then Null double
      else default (Null double)
             (text_value double fast_float_from_chars indeterminate_double
                indeterminate_int iconv seconds_west enc ty (c :: t))
  end.

(** A cell that a builder of type [ty] accepts. *)
Definition cell_has_type (ty : Type_id) (v : cell double) : bool :=
  match v, ty with
  | Null _, _ => true
  | Utf8 _ _, STRING => true
  | Int32 _ v, INT32 => bool_decide (INT32_MIN ≤ v ≤ INT32_MAX)
  | Int64 _ v, INT64 => bool_decide (INT64_MIN ≤ v ≤ INT64_MAX)
  | Double _ _, DOUBLE => true
  | Boolean _ _, BOOL => true
  | Date32 _ v, DATE32 => bool_decide (INT32_MIN ≤ v ≤ INT32_MAX)
  | _, _ => false
  end.

End Writer.

(** The bytes of the field [fd] of record [row]. *)
Definition field_bytes (h : DB_HEADER) (fd : DB_FIELD) (row : Z) (buf : list byte)
  : list byte :=
  zslice (header_length h + row * record_length h + field_offset fd)
    (u8 (field_length fd)) buf.

(** A table whose header and catalog describe its buffer: the offsets of
    the fields are those that [dbf_ReadFieldInfo] assigns, every field
    lies inside the record, the records lie inside the buffer with one
    more byte after the last, and the records take less than 2 GiB. *)
Record table_fits (dbf : DBF) (h : DB_HEADER) (fs : list DB_FIELD) : Prop := {
  fits_header : header dbf = Some h;
  fits_fields : fields dbf = Some fs;
  fits_header_length : 0 ≤ header_length h < 2 ^ 16;
  fits_record_length : 0 ≤ record_length h < 2 ^ 16;
  fits_records : 0 ≤ records h < 2 ^ 32;
  fits_int : records h * record_length h < 2 ^ 31;
  fits_first : ∀ fd, fs !! 0%nat = Some fd → field_offset fd = 1;
  fits_next : ∀ k fd fd', fs !! k = Some fd → fs !! S k = Some fd' →
                field_offset fd' = field_offset fd + u8 (field_length fd);
  fits_record : ∀ k fd, fs !! k = Some fd →
                  field_offset fd + u8 (field_length fd) ≤ record_length h;
  fits_buffer : header_length h + records h * record_length h
                < Z.of_nat (length (mem_buffer dbf))
}.

(** ** More example inputs *)

(** An input file for [name_table]: the 65 header bytes, four bytes that
    are skipped, and a compressed stream, to go with a decompressor that
    yields the records. *)
Definition name_file (skipped stream : list byte) : FILE :=
  mkFILE (take 65 name_table ++ skipped ++ stream) 0 true.

(** A sink on which every operation succeeds. *)
Definition sink_ok {double : Type} : list (SinkOp double) → SinkOp double → Status :=
  λ _ _, OK.

(** The header and the catalog of [people_table]. *)
Definition people_header : DB_HEADER :=
  default (DB_HEADER_of_bytes []) (header people_handle).
Definition people_fields : list DB_FIELD := default [] (fields people_handle).

(** A sink that refuses to open the writer. *)
Definition sink_without_writer {double : Type}
  : list (SinkOp double) → SinkOp double → Status :=
  λ _ op, match op with
          | OpenWriter _ _ => Failed "no writer"
          | _ => OK
          end.

(** An input file for [people_table], and a file system that holds it
    under the name "people.dbc". *)
Definition people_file : FILE :=
  mkFILE (take 97 people_table ++ [x00; x00; x00; x00]) 0 true.
Definition fopen_people (path : list byte) : option FILE :=
  if decide (path = bytes "people.dbc") then Some people_file else None.

(** A file system that holds [name_file] under the name "name.dbc". *)
Definition fopen_name (path : list byte) : option FILE :=
  if decide (path = bytes "name.dbc") then Some (name_file [x00; x00; x00; x00] [])
  else None.

(** * Properties *)

(** ** Bytes and integers *)

Lemma u8_range (b : byte) : 0 ≤ u8 b < 256.
Proof. destruct b; vm_compute; split; congruence. Qed.


Lemma isspace_iff (c : byte) :
  isspace c = true ↔ c ∈ [x20; x09; x0a; x0b; x0c; x0d].
Proof.
  rewrite !elem_of_cons, elem_of_nil.
  split.
  - destruct c; simpl; intros H; try discriminate H; tauto.
  - intros [->|[->|[->|[->|[->|[->|[]]]]]]]; reflexivity.
Qed.

Lemma in_trim_set_iff (c : byte) :
  in_trim_set c = true ↔ c ∈ [x20; x09; x0a; x0d].
Proof.
  rewrite !elem_of_cons, elem_of_nil.
  split.
  - destruct c; simpl; intros H; try discriminate H; tauto.
  - intros [->|[->|[->|[->|[]]]]]; reflexivity.
Qed.

(** ** The buffer monad *)

Lemma bind_Some {A B} (m : M A) (k : A → M B) buf a buf' :
  m buf = Some (a, buf') → (m ≫= k) buf = k a buf'.
Proof. intros H. unfold mbind, M_bind, bind. rewrite H. reflexivity. Qed.

Lemma mret_eq {A} (a : A) buf : (mret a : M A) buf = Some (a, buf).
Proof. reflexivity. Qed.

Lemma load_Some p c (buf : list byte) :
  0 ≤ p → buf !! Z.to_nat p = Some c → load p buf = Some (c, buf).
Proof.
  intros Hp H. unfold load. rewrite decide_True by done. rewrite H. reflexivity.
Qed.

Lemma store_Some p c (buf : list byte) :
  0 ≤ p < Z.of_nat (length buf) → store p c buf = Some (tt, <[Z.to_nat p := c]> buf).
Proof. intros H. unfold store. rewrite decide_True by done. reflexivity. Qed.

Lemma load_range_Some p n (buf : list byte) :
  0 ≤ p → 0 ≤ n → p + n ≤ Z.of_nat (length buf) →
  load_range p n buf = Some (zslice p n buf, buf).
Proof. intros. unfold load_range. rewrite decide_True by done. reflexivity. Qed.

(** ** Slices, prefixes and suffixes *)

Lemma lookup_Z_is_Some (buf : list byte) p :
  0 ≤ p < Z.of_nat (length buf) → ∃ c, buf !! Z.to_nat p = Some c.
Proof.
  intros H. destruct (lookup_lt_is_Some_2 buf (Z.to_nat p)) as [c Hc]; [lia|].
  by exists c.
Qed.

Lemma zslice_nil p n buf : n ≤ 0 → zslice p n buf = [].
Proof. intros H. unfold zslice. by replace (Z.to_nat n) with 0%nat by lia. Qed.

Lemma zslice_cons p n buf c :
  0 ≤ p → 0 < n → buf !! Z.to_nat p = Some c →
  zslice p n buf = c :: zslice (p + 1) (n - 1) buf.
Proof.
  intros Hp Hn Hc. unfold zslice.
  replace (Z.to_nat n) with (S (Z.to_nat (n - 1))) by lia.
  replace (Z.to_nat (p + 1)) with (S (Z.to_nat p)) by lia.
  by rewrite (drop_S _ _ _ Hc).
Qed.

Lemma zslice_snoc p n buf c :
  0 ≤ p → 0 ≤ n → buf !! Z.to_nat (p + n) = Some c →
  zslice p (n + 1) buf = zslice p n buf ++ [c].
Proof.
  intros Hp Hn Hc. unfold zslice.
  replace (Z.to_nat (n + 1)) with (S (Z.to_nat n)) by lia.
  apply take_S_r. rewrite lookup_drop.
  by replace (Z.to_nat p + Z.to_nat n)%nat with (Z.to_nat (p + n)) by lia.
Qed.

Lemma length_zslice p n (buf : list byte) :
  0 ≤ p → 0 ≤ n → p + n ≤ Z.of_nat (length buf) →
  Z.of_nat (length (zslice p n buf)) = n.
Proof. intros. unfold zslice. rewrite length_take, length_drop. lia. Qed.

Lemma zslice_sub p n a b buf :
  0 ≤ p → 0 ≤ a → 0 ≤ b → a + b ≤ n →
  zslice (p + a) b buf = take (Z.to_nat b) (drop (Z.to_nat a) (zslice p n buf)).
Proof.
  intros. unfold zslice.
  replace (Z.to_nat n) with (Z.to_nat a + (Z.to_nat n - Z.to_nat a))%nat by lia.
  rewrite <- take_drop_commute, drop_drop, take_take.
  replace (Z.to_nat p + Z.to_nat a)%nat with (Z.to_nat (p + a)) by lia.
  f_equal. lia.
Qed.

Lemma zslice_drop p n buf t r :
  0 ≤ p → drop (Z.to_nat p) buf = t ++ r → n = Z.of_nat (length t) →
  zslice p n buf = t.
Proof.
  intros Hp Hd ->. unfold zslice. rewrite Hd, Nat2Z.id. apply take_app_length.
Qed.

Lemma list_nil_or_snoc (l : list byte) : l = [] ∨ ∃ l' z, l = l' ++ [z].
Proof.
  induction l as [|x l IH] using rev_ind; [by left|]. right. by exists l, x.
Qed.

Lemma takewhile_dropwhile p s : takewhile p s ++ dropwhile p s = s.
Proof. induction s as [|c s IH]; simpl; [done|]. destruct (p c); simpl; by f_equal. Qed.

Lemma dropwhile_drop p s : dropwhile p s = drop (leading p s) s.
Proof.
  unfold leading. induction s as [|c s IH]; simpl; [done|].
  destruct (p c); simpl; done.
Qed.

Lemma takewhile_app_stop p l c r :
  p c = false → takewhile p (l ++ c :: r) = takewhile p l.
Proof.
  intros Hc. induction l as [|x l IH]; simpl; [by rewrite Hc|].
  destruct (p x); by f_equal.
Qed.

Lemma takewhile_all p l : Forall (λ c, p c = true) l → takewhile p l = l.
Proof. induction 1 as [|c l Hc _ IH]; simpl; [done|]. by rewrite Hc, IH. Qed.

Lemma dropwhile_all p l : Forall (λ c, p c = true) l → dropwhile p l = [].
Proof. induction 1 as [|c l Hc _ IH]; simpl; [done|]. by rewrite Hc. Qed.

Lemma takewhile_Forall p l : Forall (λ c, p c = true) (takewhile p l).
Proof.
  induction l as [|c l IH]; simpl; [constructor|].
  destruct (p c) eqn:Hc; by constructor.
Qed.

Lemma dropwhile_head p l c r : dropwhile p l = c :: r → p c = false.
Proof.
  induction l as [|x l IH]; simpl; [done|].
  destruct (p x) eqn:Hx; [done|]. by intros [= -> _].
Qed.

(** A field is its leading white space, the stripped text and its
    trailing white space. *)
Lemma strip_decompose ws f :
  f = takewhile ws f ++ strip ws f ++ reverse (takewhile ws (reverse (dropwhile ws f))).
Proof.
  unfold strip.
  rewrite <- reverse_app, takewhile_dropwhile, reverse_involutive.
  by rewrite takewhile_dropwhile.
Qed.

Lemma strip_length ws f :
  (length (strip ws f) = length f - leading ws f - trailing ws (dropwhile ws f))%nat.
Proof.
  pose proof (f_equal length (strip_decompose ws f)) as H.
  rewrite !length_app, length_reverse in H. unfold leading, trailing. lia.
Qed.

Lemma strip_head ws f c r : strip ws f = c :: r → ws c = false.
Proof.
  intros H. pose proof (strip_decompose ws f) as Hd. rewrite H in Hd.
  pose proof (takewhile_dropwhile ws f) as Htd.
  rewrite Hd in Htd at 3. apply app_inv_head in Htd.
  by apply dropwhile_head in Htd.
Qed.

Lemma trailing_cons ws c g : ws c = false → trailing ws (c :: g) = trailing ws g.
Proof.
  intros Hc. unfold trailing. rewrite reverse_cons.
  by rewrite takewhile_app_stop.
Qed.

(** Uniqueness: a text between white space that neither starts nor ends
    with white space is the stripped field. *)
Lemma strip_unique ws ws1 t ws2 :
  Forall (λ c, ws c = true) ws1 → Forall (λ c, ws c = true) ws2 →
  (∀ c, head t = Some c → ws c = false) →
  (∀ c, last t = Some c → ws c = false) →
  strip ws (ws1 ++ t ++ ws2) = t.
Proof.
  intros H1 H2 Hh Hl. unfold strip.
  assert (dropwhile ws (ws1 ++ t ++ ws2) = dropwhile ws (t ++ ws2)) as ->.
  { clear -H1. induction H1 as [|c l Hc _ IH]; simpl; [done|]. by rewrite Hc. }
  assert (Forall (λ c, ws c = true) (reverse ws2)) as H2'.
  { rewrite Forall_forall in *. intros x Hx. apply H2. by apply elem_of_reverse. }
  destruct t as [|c t].
  - simpl. rewrite (dropwhile_all _ _ H2). done.
  - simpl. rewrite (Hh c eq_refl).
    destruct (list_nil_or_snoc (c :: t)) as [[=]|(t' & z & Ht)].
    change (c :: t ++ ws2) with ((c :: t) ++ ws2).
    rewrite Ht in *. rewrite reverse_app, reverse_snoc.
    assert (dropwhile ws (reverse ws2 ++ z :: reverse t') = z :: reverse t') as ->.
    { clear -H2' Hl. induction H2' as [|x l Hx _ IH]; simpl.
      - rewrite (Hl z); [done|]. by rewrite last_snoc.
      - by rewrite Hx. }
    by rewrite reverse_cons, reverse_involutive.
Qed.

(** ** trim_in_place *)

(** The first loop stops after the leading white space of the range, and
    reads only. *)
Lemma trim_front_spec fuel start end_ len (buf : list byte) :
  0 ≤ start → end_ < Z.of_nat (length buf) →
  (Z.to_nat (end_ - start + 1) < fuel)%nat →
  let k := Z.of_nat (leading isspace (zslice start (end_ - start + 1) buf)) in
  trim_front fuel start end_ len buf = Some ((start + k, len - k), buf).
Proof.
  revert start len. induction fuel as [|fuel IH]; intros start len Hs He Hf; [lia|].
  simpl. destruct (decide (start ≤ end_)) as [Hle|Hgt].
  - destruct (lookup_Z_is_Some buf start) as [c Hc]; [lia|].
    rewrite (bind_Some _ _ _ _ _ (load_Some _ _ _ Hs Hc)).
    rewrite (zslice_cons start _ buf c) by first [lia | done].
    unfold leading. simpl. destruct (isspace c) eqn:Hsp.
    + rewrite IH by lia.
      replace (end_ - (start + 1) + 1) with (end_ - start + 1 - 1) by lia.
      simpl. unfold leading. do 2 f_equal. f_equal; lia.
    + simpl. rewrite mret_eq. do 2 f_equal. f_equal; lia.
  - rewrite zslice_nil by lia. unfold leading. simpl. rewrite mret_eq.
    do 2 f_equal. f_equal; lia.
Qed.

(** The second loop stops before the trailing white space of the range
    after [start], and reads only. *)
Lemma trim_back_spec fuel start end_ len (buf : list byte) :
  0 ≤ start → end_ < Z.of_nat (length buf) →
  (Z.to_nat (end_ - start) < fuel)%nat →
  let j := Z.of_nat (trailing isspace (zslice (start + 1) (end_ - start) buf)) in
  trim_back fuel start end_ len buf = Some ((end_ - j, len - j), buf).
Proof.
  revert end_ len. induction fuel as [|fuel IH]; intros end_ len Hs He Hf; [lia|].
  simpl. destruct (decide (end_ > start)) as [Hgt|Hle].
  - destruct (lookup_Z_is_Some buf end_) as [c Hc]; [lia|].
    rewrite (bind_Some _ _ _ _ _ (load_Some end_ c buf ltac:(lia) Hc)).
    replace (end_ - start) with (end_ - start - 1 + 1) by lia.
    rewrite (zslice_snoc _ _ _ c) by (try lia; by replace (start + 1 + (end_ - start - 1)) with end_ by lia).
    unfold trailing. rewrite reverse_snoc. simpl. destruct (isspace c) eqn:Hsp.
    + rewrite IH by lia.
      replace (end_ - 1 - start) with (end_ - start - 1) by lia.
      simpl. unfold trailing. do 2 f_equal. f_equal; lia.
    + simpl. rewrite mret_eq. do 2 f_equal. f_equal; lia.
  - rewrite zslice_nil by lia. unfold trailing. simpl. rewrite mret_eq.
    do 2 f_equal. f_equal; lia.
Qed.

(** [trim_in_place] returns the stripped text of the range and writes one
    NUL, directly after that text. *)
Lemma trim_in_place_spec p n (buf : list byte) :
  0 ≤ p → 0 < n → p + n < Z.of_nat (length buf) →
  let f := zslice p n buf in
  let start := p + Z.of_nat (leading isspace f) in
  let len := Z.of_nat (length (strip isspace f)) in
  trim_in_place p n buf
  = Some ((start, len), <[Z.to_nat (start + len) := x00]> buf)
  ∧ zslice start len buf = strip isspace f
  ∧ p ≤ start ∧ start + len ≤ p + n.
Proof.
  intros Hp Hn Hb f start len.
  pose proof (length_zslice p n buf Hp ltac:(lia) ltac:(lia)) as Hlf. fold f in Hlf.
  pose proof (strip_decompose isspace f) as Hdec.
  pose proof (strip_length isspace f) as Hsl.
  pose proof (f_equal length Hdec) as Hlen.
  rewrite !length_app, length_reverse in Hlen.
  fold (leading isspace f) in Hlen. fold (trailing isspace (dropwhile isspace f)) in Hlen.
  assert (Hg : zslice start (n - Z.of_nat (leading isspace f)) buf = dropwhile isspace f).
  { unfold start. rewrite (zslice_sub p n) by lia. fold f.
    rewrite Nat2Z.id, dropwhile_drop. apply take_ge. rewrite length_drop. lia. }
  assert (Hj : trailing isspace (zslice (start + 1) (p + n - 1 - start) buf)
               = trailing isspace (dropwhile isspace f)).
  { destruct (dropwhile isspace f) as [|c g] eqn:Hdw.
    - rewrite dropwhile_drop in Hdw. apply (f_equal length) in Hdw.
      rewrite length_drop in Hdw. simpl in Hdw.
      rewrite zslice_nil; [done|]. unfold start. lia.
    - pose proof (dropwhile_head _ _ _ _ Hdw) as Hc.
      rewrite trailing_cons by done.
      assert (Hlg : (length (c :: g) = length f - leading isspace f)%nat).
      { rewrite <- Hdw, dropwhile_drop, length_drop. done. }
      simpl in Hlg.
      destruct (lookup_Z_is_Some buf start) as [c' Hc']; [unfold start; lia|].
      rewrite (zslice_cons _ _ _ c') in Hg; [|unfold start; lia|lia|done].
      injection Hg as -> Hg. rewrite <- Hg. do 2 f_equal. unfold start. lia. }
  split; [|split; [|unfold start, len; lia]].
  - unfold trim_in_place. rewrite decide_False by lia.
    pose proof (trim_front_spec (S (Z.to_nat n)) p (p + n - 1) n buf Hp
                  ltac:(lia) ltac:(lia)) as Hfront.
    replace (p + n - 1 - p + 1) with n in Hfront by lia.
    fold f in Hfront. fold start in Hfront. cbv zeta in Hfront.
    rewrite (bind_Some _ _ _ _ _ Hfront). cbv beta iota.
    pose proof (trim_back_spec (S (Z.to_nat n)) start (p + n - 1)
                  (n - Z.of_nat (leading isspace f)) buf
                  ltac:(unfold start; lia) ltac:(lia) ltac:(unfold start; lia)) as Hback.
    rewrite Hj in Hback. cbv zeta in Hback.
    rewrite (bind_Some _ _ _ _ _ Hback). cbv beta iota.
    erewrite bind_Some; [|apply store_Some; lia].
    unfold ret. do 2 f_equal.
    + f_equal; unfold start, len; lia.
    + f_equal. unfold start, len. lia.
  - unfold start, len. rewrite (zslice_sub p n) by lia. fold f.
    rewrite !Nat2Z.id.
    transitivity (take (length (strip isspace f))
                    (drop (leading isspace f)
                       (takewhile isspace f ++ strip isspace f ++
                        reverse (takewhile isspace (reverse (dropwhile isspace f)))))).
    { by rewrite <- Hdec. }
    rewrite drop_app_length'; [|done]. by rewrite take_app_length.
Qed.

(** ** Reading and writing around a slice *)

Lemma zslice_insert_outside p n i c (buf : list byte) :
  0 ≤ p → 0 ≤ n → 0 ≤ i → i < p ∨ p + n ≤ i →
  zslice p n (<[Z.to_nat i := c]> buf) = zslice p n buf.
Proof.
  intros Hp Hn Hi [Hlt|Hge]; unfold zslice.
  - by rewrite drop_insert_lt by lia.
  - rewrite drop_insert_ge by lia. by rewrite take_insert_ge by lia.
Qed.

Lemma load_drop p c r (buf : list byte) :
  0 ≤ p → drop (Z.to_nat p) buf = c :: r → load p buf = Some (c, buf).
Proof.
  intros Hp Hd. apply load_Some; [done|].
  rewrite <- (Nat.add_0_r (Z.to_nat p)), <- lookup_drop. by rewrite Hd.
Qed.

Lemma load_range_drop p t c r (buf : list byte) :
  0 ≤ p → drop (Z.to_nat p) buf = t ++ c :: r →
  load_range p (Z.of_nat (length t)) buf = Some (t, buf).
Proof.
  intros Hp Hd.
  assert (length (drop (Z.to_nat p) buf) = length (t ++ c :: r)) as Hl by by rewrite Hd.
  rewrite length_drop, length_app in Hl. simpl in Hl.
  rewrite load_range_Some by lia. by rewrite (zslice_drop _ _ _ t (c :: r)).
Qed.

Lemma load_cstr_drop p t r (buf : list byte) :
  0 ≤ p → drop (Z.to_nat p) buf = t ++ x00 :: r →
  load_cstr p buf = Some (takewhile nonzero t, buf).
Proof.
  intros Hp Hd. unfold load_cstr. rewrite decide_True by done. rewrite Hd.
  rewrite decide_True by (rewrite elem_of_app, elem_of_cons; auto).
  by rewrite takewhile_app_stop.
Qed.

Lemma strip_all ws f : Forall (λ c, ws c = true) f → strip ws f = [].
Proof. intros H. unfold strip. by rewrite (dropwhile_all _ _ H). Qed.

Lemma leading_all ws f : Forall (λ c, ws c = true) f → leading ws f = length f.
Proof. intros H. unfold leading. by rewrite (takewhile_all _ _ H). Qed.

(** ** dbf_get_field_value *)

Lemma find_first_not_of_from_spec set s i :
  find_first_not_of_from set s i
  = if decide (dropwhile set s = []) then npos else i + Z.of_nat (leading set s).
Proof.
  revert i. induction s as [|c s IH]; intros i; simpl; [done|].
  unfold leading. simpl. destruct (set c) eqn:Hc.
  - rewrite IH. case_decide; [done|]. unfold leading. simpl. lia.
  - rewrite decide_False by done. simpl. lia.
Qed.

Lemma find_last_not_of_rev_spec set r i :
  find_last_not_of_rev set r i
  = if decide (dropwhile set r = []) then npos else i - Z.of_nat (leading set r).
Proof.
  revert i. induction r as [|c r IH]; intros i; simpl; [done|].
  unfold leading. simpl. destruct (set c) eqn:Hc.
  - rewrite IH. case_decide; [done|]. unfold leading. simpl. lia.
  - rewrite decide_False by done. simpl. lia.
Qed.

Lemma dropwhile_nil_length set s : dropwhile set s = [] → leading set s = length s.
Proof.
  intros H. pose proof (f_equal length (takewhile_dropwhile set s)) as Hl.
  rewrite length_app, H in Hl. simpl in Hl. unfold leading. lia.
Qed.

Lemma leading_le set s : (leading set s ≤ length s)%nat.
Proof.
  pose proof (f_equal length (takewhile_dropwhile set s)) as Hl.
  rewrite length_app in Hl. unfold leading. lia.
Qed.

Lemma dropwhile_cons_leading set s c r :
  dropwhile set s = c :: r → (leading set s < length s)%nat.
Proof.
  intros H. pose proof (f_equal length (takewhile_dropwhile set s)) as Hl.
  rewrite length_app, H in Hl. simpl in Hl. unfold leading. lia.
Qed.

(** The two [erase] calls of [dbf_get_field_value] strip the characters of
    the set from both ends. *)
Lemma erase_strip set (value : list byte) :
  Z.of_nat (length value) < npos →
  (v ← erase 0 (find_first_not_of set value) value;
   erase (to_size_t (find_last_not_of set v + 1)) npos v)
  = Some (strip set value).
Proof.
  intros Hlen.
  assert (H1 : erase 0 (find_first_not_of set value) value = Some (dropwhile set value)).
  { unfold erase, find_first_not_of. rewrite decide_False by lia.
    rewrite find_first_not_of_from_spec. simpl. f_equal.
    case_decide as Hd.
    - rewrite Hd.
      replace (Z.to_nat (0 + npos `min` (Z.of_nat (length value) - 0)))
        with (length value) by lia.
      apply drop_all.
    - pose proof (leading_le set value).
      replace (Z.to_nat (0 + (0 + Z.of_nat (leading set value))
                               `min` (Z.of_nat (length value) - 0)))
        with (leading set value) by lia.
      by rewrite dropwhile_drop. }
  rewrite H1. simpl. set (v := dropwhile set value).
  assert (Hlv : (length v ≤ length value)%nat).
  { unfold v. rewrite dropwhile_drop, length_drop. lia. }
  unfold erase, find_last_not_of, strip. fold v.
  rewrite find_last_not_of_rev_spec.
  pose proof (leading_le set (reverse v)) as Hle. rewrite length_reverse in Hle.
  destruct (decide (dropwhile set (reverse v) = [])) as [Hd|Hd].
  - rewrite Hd. unfold to_size_t, npos in *.
    replace ((2 ^ 64 - 1 + 1) `mod` 2 ^ 64) with 0 by done.
    rewrite decide_False by lia. simpl. f_equal.
    replace (Z.to_nat (0 + (2 ^ 64 - 1) `min` (Z.of_nat (length v) - 0)))
      with (length v) by lia.
    apply drop_all.
  - destruct (dropwhile set (reverse v)) as [|c r] eqn:Hdw; [done|].
    pose proof (dropwhile_cons_leading _ _ _ _ Hdw) as Hlt. rewrite length_reverse in Hlt.
    unfold to_size_t, npos in *.
    rewrite Z.mod_small by lia.
    rewrite decide_False by lia. f_equal.
    set (pos := Z.of_nat (length v) - 1 - Z.of_nat (leading set (reverse v)) + 1).
    replace (Z.to_nat (pos + (2 ^ 64 - 1) `min` (Z.of_nat (length v) - pos)))
      with (length v) by lia.
    rewrite drop_all, app_nil_r.
    rewrite <- Hdw, dropwhile_drop, drop_reverse, reverse_involutive.
    f_equal. lia.
Qed.

Lemma dbf_get_field_value_strip (dbf : DBF) (col row : Z) :
  dbf_get_field_value dbf col row
  = (h ← header dbf;
     fs ← fields dbf;
     guard (0 ≤ col);;
     f ← fs !! Z.to_nat col;
     let record_offset :=
       to_size_t (to_int (header_length h + to_int (row * record_length h))) in
     '(value, _) ← load_range (record_offset + field_offset f) (u8 (field_length f))
                      (mem_buffer dbf);
     Some (strip in_trim_set value)).
Proof.
  unfold dbf_get_field_value.
  destruct (header dbf) as [h|]; simpl; [|done].
  destruct (fields dbf) as [fs|]; simpl; [|done].
  case_guard; simpl; [|done].
  destruct (fs !! Z.to_nat col) as [f|]; simpl; [|done].
  unfold load_range. case_decide as Hr; simpl; [|done].
  match goal with |- context [strip in_trim_set ?v] => set (value := v) end.
  assert (Hlen : Z.of_nat (length value) < npos).
  { unfold value. rewrite length_take, length_drop.
    pose proof (u8_range (field_length f)). unfold npos. lia. }
  pose proof (erase_strip in_trim_set value Hlen) as He.
  destruct (erase 0 _ value) as [v1|]; simpl in *; [|done].
  destruct (erase _ npos v1) as [v2|]; simpl in *; congruence.
Qed.

(** ** Numbers *)

Lemma takewhile_app_all p l r :
  Forall (λ c, p c = true) l → (∀ c, head r = Some c → p c = false) →
  takewhile p (l ++ r) = l.
Proof.
  intros Hl Hr. induction Hl as [|c l Hc _ IH]; simpl.
  - destruct r as [|c r]; simpl; [done|]. by rewrite (Hr c).
  - by rewrite Hc, IH.
Qed.

Lemma isdigit_not_sign (c : byte) : isdigit c = true → c ≠ x2d ∧ c ≠ x2b.
Proof. destruct c; vm_compute; intros; split; congruence. Qed.


Lemma from_chars_sign_other (c : byte) (s : list byte) :
  c ≠ x2d →
  match c :: s with
  | x2d :: s' => (true, s')
  | _ => (false, c :: s)
  end = (false, c :: s).
Proof. intros Hc. destruct c; done. Qed.

(** [from_chars] on an optional minus sign, a maximal run of digits [ds]
    and a rest: it fails when there is no digit or when the value is
    outside the range of the type, and else yields the value of the
    digits, whatever follows them. *)
Lemma from_chars_int_spec lo hi (neg : bool) ds rest value :
  Forall (λ c, isdigit c = true) ds →
  (∀ c, head rest = Some c → isdigit c = false) →
  (ds = [] → neg = false → head rest ≠ Some x2d) →
  let s := (if neg then [x2d] else []) ++ ds ++ rest in
  let v := if neg then - decimal_value ds else decimal_value ds in
  let p := (if neg then 1 else 0) + Z.of_nat (length ds) in
  from_chars_int lo hi s value
  = if decide (ds = []) then (mk_from_chars_result 0 invalid_argument, value)
    else if decide (lo ≤ v ≤ hi) then (mk_from_chars_result p errc_ok, v)
    else (mk_from_chars_result p result_out_of_range, value).
Proof.
  intros Hds Hrest Hsign s v p. unfold from_chars_int, s.
  destruct neg; simpl.
  - by rewrite (takewhile_app_all _ _ _ Hds Hrest).
  - assert (Hm : match ds ++ rest with
                 | x2d :: s' => (true, s')
                 | _ => (false, ds ++ rest)
                 end = (false, ds ++ rest)).
    { destruct ds as [|d ds'].
      - simpl. destruct rest as [|c rest']; [done|].
        apply from_chars_sign_other. intros ->. by apply Hsign.
      - simpl. apply from_chars_sign_other.
        inversion Hds; subst. by apply isdigit_not_sign. }
    rewrite Hm. by rewrite (takewhile_app_all _ _ _ Hds Hrest).
Qed.

(** [parse_float] on an optional minus sign, a run of digits and a rest
    that does not go on with the number. *)
Lemma parse_float_digits (neg : bool) ds rest :
  ds ≠ [] → Forall (λ c, isdigit c = true) ds →
  (∀ c, head rest = Some c → isdigit c = false ∧ c ∉ bytes ".eE") →
  parse_float ((if neg then [x2d] else []) ++ ds ++ rest)
  = Some (Decimal neg (decimal_value ds) 0).
Proof.
  intros Hne Hds Hrest. unfold parse_float.
  assert (Hsign : match (if neg then [x2d] else []) ++ ds ++ rest with
                  | x2d :: s' => (true, s')
                  | _ => (false, (if neg then [x2d] else []) ++ ds ++ rest)
                  end = (neg, ds ++ rest)).
  { destruct neg; [done|]. destruct ds as [|d ds']; [done|]. simpl.
    apply from_chars_sign_other. apply Forall_cons_1 in Hds as [Hd _].
    by apply isdigit_not_sign in Hd as [? _]. }
  rewrite Hsign.
  rewrite (takewhile_app_all isdigit ds rest Hds) by (intros c Hc; by apply Hrest).
  assert (Hdrop : dropwhile isdigit (ds ++ rest) = rest).
  { pose proof (takewhile_dropwhile isdigit (ds ++ rest)) as Htd.
    rewrite (takewhile_app_all isdigit ds rest Hds) in Htd
      by (intros c Hc; by apply Hrest).
    by apply app_inv_head in Htd. }
  rewrite Hdrop.
  assert (Hpoint : match rest with
                   | x2e :: r => (takewhile isdigit r, dropwhile isdigit r)
                   | _ => ([], rest)
                   end = ([], rest)).
  { destruct rest as [|c r]; [done|]. destruct (Hrest c eq_refl) as [_ Hc].
    change (bytes ".eE") with [x2e; x65; x45] in Hc.
    destruct (decide (c = x2e)) as [->|Hne']; [exfalso; apply Hc; by left|].
    destruct c; done. }
  rewrite Hpoint. rewrite decide_False by (intros [? _]; done).
  rewrite app_nil_r. do 2 f_equal. simpl.
  destruct rest as [|c r]; [done|]. destruct (Hrest c eq_refl) as [_ Hc].
  change (bytes ".eE") with [x2e; x65; x45] in Hc.
  unfold exponent_part. rewrite decide_False; [done|].
  intros [->| ->]; apply Hc; [by right; left|by right; right; left].
Qed.

(** A text that is empty or starts with NUL does not start with a number. *)
Lemma parse_float_no_text (t : list byte) :
  t = [] ∨ head t = Some x00 → parse_float t = None.
Proof. intros [->|Ht]; [done|]. destruct t as [|c t']; [done|]. by injection Ht as ->. Qed.

(** ** Dates *)









(** ** The value of a cell *)

Section ExtractorProperties.

Variable double : Type.
Variable fast_float_from_chars : list byte → double → from_chars_result * double.
Variable indeterminate_double : double.
Variable indeterminate_int : Z.
Variable iconv : string → list byte → option (list byte).
Variable seconds_west : tm → Z.

Local Abbreviation append_value :=
  (append_value double fast_float_from_chars indeterminate_double indeterminate_int
     iconv seconds_west).
Local Abbreviation text_value :=
  (text_value double fast_float_from_chars indeterminate_double indeterminate_int
     iconv seconds_west).
Local Abbreviation extract_cell :=
  (extract_cell double fast_float_from_chars indeterminate_double indeterminate_int
     iconv seconds_west).
Local Abbreviation Null := (Null double).
Local Abbreviation Utf8 := (Utf8 double).
Local Abbreviation Int32 := (Int32 double).
Local Abbreviation Int64 := (Int64 double).
Local Abbreviation Boolean := (Boolean double).
Local Abbreviation Date32 := (Date32 double).

(** [append_value] reads the trimmed text and its terminating NUL only,
    and does not write. *)
Lemma append_value_frame enc ty p t r (buf : list byte) :
  0 ≤ p → drop (Z.to_nat p) buf = t ++ x00 :: r →
  ∃ v, append_value enc ty p (Z.of_nat (length t)) buf = Some (v, buf)
       ∧ text_value enc ty t = Some v.
Proof.
  intros Hp Hd.
  assert (Hd0 : drop (Z.to_nat 0) (t ++ [x00]) = t ++ x00 :: []) by done.
  assert (Hh : ∃ c r', t ++ x00 :: r = c :: r' ∧ t ++ [x00] = c :: ([] ++ drop 1 (t ++ [x00]))).
  { destruct t; simpl; eauto. }
  destruct Hh as (c & r' & Hh1 & Hh2).
  unfold text_value.
  destruct ty; unfold append_value.
  all: try (rewrite !(bind_Some _ _ _ _ _ (load_range_drop _ _ _ _ _ Hp Hd));
            rewrite !(bind_Some _ _ _ _ _ (load_range_drop 0 t x00 [] _ ltac:(done) Hd0))).
  all: try (rewrite !(bind_Some _ _ _ _ _ (load_cstr_drop _ _ _ _ Hp Hd));
            rewrite !(bind_Some _ _ _ _ _ (load_cstr_drop 0 t [] _ ltac:(done) Hd0))).
  all: try (rewrite Hh1 in Hd; rewrite !(bind_Some _ _ _ _ _ (load_drop _ _ _ _ Hp Hd));
            rewrite !(bind_Some _ _ _ _ _ (load_drop 0 c _ _ ltac:(done) Hh2))).
  all: repeat case_match; eexists; split; reflexivity.
Qed.

(** What one pass of the row loop does for the field at [p] of [n] bytes:
    the cell is null when the stripped field is empty or starts with a NUL
    byte, and otherwise the value of the stripped text; the buffer gets one
    NUL directly after the stripped text when white space follows it, and
    is unchanged otherwise. *)
Lemma extract_cell_spec enc ty p n (buf : list byte) :
  0 ≤ p → 0 ≤ n → p + n < Z.of_nat (length buf) →
  let f := zslice p n buf in
  let t := strip isspace f in
  let q := p + Z.of_nat (leading isspace f) + Z.of_nat (length t) in
  ∃ v, extract_cell enc ty p n buf
       = Some (v, if decide (q = p + n) then buf else <[Z.to_nat q := x00]> buf)
     ∧ match t with
       | [] => v = Null
       | c :: _ => if decide (c = x00) then v = Null else text_value enc ty t = Some v
       end.
Proof.
  intros Hp Hn Hb f t q.
  destruct (lookup_Z_is_Some buf (p + n)) as [b Hbk]; [lia|].
  set (buf1 := <[Z.to_nat (p + n) := x00]> buf).
  assert (Hl1 : length buf1 = length buf) by apply length_insert.
  assert (Hf1 : zslice p n buf1 = f).
  { unfold buf1. apply zslice_insert_outside; lia. }
  unfold extract_cell.
  rewrite (bind_Some _ _ _ _ _ (load_Some (p + n) b buf ltac:(lia) Hbk)).
  rewrite (bind_Some _ _ _ _ _ (store_Some (p + n) x00 buf ltac:(lia))). fold buf1.
  assert (Hrestore : ∀ i, 0 ≤ i ≤ p + n →
            <[Z.to_nat (p + n) := b]> (<[Z.to_nat i := x00]> buf1)
            = if decide (i = p + n) then buf else <[Z.to_nat i := x00]> buf).
  { intros i Hi. unfold buf1. destruct (decide (i = p + n)) as [->|Hne].
    - rewrite !list_insert_insert_eq. by apply list_insert_id.
    - rewrite (list_insert_insert_ne _ (Z.to_nat i)) by lia.
      rewrite list_insert_insert_eq.
      rewrite list_insert_insert_ne by lia.
      f_equal. by apply list_insert_id. }
  destruct (decide (n = 0)) as [->|Hn0].
  - (* an empty field: nothing is trimmed *)
    assert (Ht : t = []) by (unfold t, f; by rewrite zslice_nil).
    unfold trim_in_place. rewrite decide_True by done.
    rewrite (bind_Some _ _ _ _ _ (mret_eq _ _)). cbv beta iota.
    assert (Hld : load p buf1 = Some (x00, buf1)).
    { apply load_Some; [done|]. unfold buf1.
      replace (p + 0) with p by lia. apply list_lookup_insert_eq. lia. }
    rewrite (bind_Some _ _ _ _ _ Hld). rewrite decide_True by done.
    rewrite (bind_Some _ _ _ _ _ (mret_eq _ _)).
    erewrite bind_Some; [|apply store_Some; lia].
    exists Null. rewrite Ht. split; [|done].
    unfold mret, M_ret, ret. do 2 f_equal.
    rewrite <- (list_insert_id buf1 (Z.to_nat (p + 0)) x00)
      by (unfold buf1; apply list_lookup_insert_eq; lia).
    rewrite Hrestore by lia. unfold q. rewrite Ht. simpl.
    replace f with (@nil byte) by (unfold f; by rewrite zslice_nil).
    unfold leading. simpl. repeat case_decide; try done; lia.
  - destruct (trim_in_place_spec p n buf1 Hp ltac:(lia) ltac:(lia))
      as (Htrim & Htext & Hlo & Hhi).
    rewrite Hf1 in Htrim, Htext, Hlo, Hhi. fold t in Htrim, Htext, Hhi.
    set (start := p + Z.of_nat (leading isspace f)) in *.
    set (len := Z.of_nat (length t)) in *.
    set (buf2 := <[Z.to_nat (start + len) := x00]> buf1) in *.
    rewrite (bind_Some _ _ _ _ _ Htrim). cbv beta iota.
    assert (Hd : ∃ r, drop (Z.to_nat start) buf2 = t ++ x00 :: r).
    { exists (drop (S (Z.to_nat (start + len))) buf2).
      rewrite <- (take_drop (Z.to_nat len) (drop (Z.to_nat start) buf2)).
      f_equal.
      - fold (zslice start len buf2). unfold buf2.
        rewrite zslice_insert_outside by lia. done.
      - rewrite drop_drop.
        replace (Z.to_nat start + Z.to_nat len)%nat with (Z.to_nat (start + len)) by lia.
        apply drop_S. unfold buf2. apply list_lookup_insert_eq. lia. }
    destruct Hd as [r Hd].
    assert (Hfinal : ∀ v : cell double,
              (store (p + n) b ≫= λ _, mret v) buf2
              = Some (v, if decide (q = p + n) then buf else <[Z.to_nat q := x00]> buf)).
    { intros v. erewrite bind_Some; [|apply store_Some; unfold buf2; rewrite length_insert; lia].
      unfold mret, M_ret, ret. do 2 f_equal. unfold buf2.
      rewrite Hrestore by lia. done. }
    destruct t as [|c t'] eqn:Ht.
    + rewrite (bind_Some _ _ _ _ _ (load_drop start _ _ buf2 ltac:(lia) Hd)).
      rewrite decide_True by done.
      rewrite (bind_Some _ _ _ _ _ (mret_eq _ _)). exists Null. by rewrite Hfinal.
    + simpl in Hd. pose proof Hd as Hd'.
      rewrite (bind_Some _ _ _ _ _ (load_drop start _ _ buf2 ltac:(lia) Hd)).
      destruct (decide (c = x00)) as [Hc|Hc].
      * rewrite (bind_Some _ _ _ _ _ (mret_eq _ _)). exists Null. by rewrite Hfinal.
      * destruct (append_value_frame enc ty start (c :: t') r buf2 ltac:(lia) Hd')
          as (v & Hv & Htv).
        fold len in Hv. rewrite (bind_Some _ _ _ _ _ Hv).
        exists v. by rewrite Hfinal.
Qed.

(** For every type and every field position inside the buffer, a field
    whose bytes are all white space (also an empty field) yields a null
    cell: the body of the row loop has a result, the result is [Null], and
    the buffer is as before. *)
Lemma extract_cell_whitespace enc ty p n (buf : list byte) :
  0 ≤ p → 0 ≤ n → p + n < Z.of_nat (length buf) →
  Forall (λ c, isspace c = true) (zslice p n buf) →
  extract_cell enc ty p n buf = Some (Null, buf).
Proof.
  intros Hp Hn Hb Hws.
  destruct (extract_cell_spec enc ty p n buf Hp Hn Hb) as (v & Hv & Hcell).
  rewrite (strip_all _ _ Hws) in Hv, Hcell. rewrite (leading_all _ _ Hws) in Hv.
  rewrite length_zslice in Hv by lia. simpl in Hv.
  rewrite decide_True in Hv by lia. by rewrite Hv, Hcell.
Qed.

(** C4 (amended). The batch extractor trims with [isspace], that is the
    six bytes space, \t, \n, \v, \f and \r, and no others, from both ends
    of the field before the conversion; [dbf_get_field_value] trims the
    four bytes space, \t, \n and \r, and no others. *)
Theorem trimmed_bytes enc ty p n (buf : list byte) (dbf : DBF) (col row : Z) :
  0 ≤ p → 0 ≤ n → p + n < Z.of_nat (length buf) →
  let f := zslice p n buf in
  (∃ start len buf',
      trim_in_place p n buf = Some ((start, len), buf')
      ∧ zslice start len buf' = strip isspace f)
  ∧ (∃ v buf',
      extract_cell enc ty p n buf = Some (v, buf')
      ∧ (v = Null ∨ text_value enc ty (strip isspace f) = Some v))
  ∧ (∀ c, isspace c = true ↔ c ∈ [x20; x09; x0a; x0b; x0c; x0d])
  ∧ dbf_get_field_value dbf col row
    = (h ← header dbf;
       fs ← fields dbf;
       guard (0 ≤ col);;
       fd ← fs !! Z.to_nat col;
       let record_offset :=
         to_size_t (to_int (header_length h + to_int (row * record_length h))) in
       '(value, _) ← load_range (record_offset + field_offset fd) (u8 (field_length fd))
                        (mem_buffer dbf);
       Some (strip in_trim_set value))
  ∧ (∀ c, in_trim_set c = true ↔ c ∈ [x20; x09; x0a; x0d]).
Proof.
  intros Hp Hn Hb f. repeat split.
  - destruct (decide (n = 0)) as [->|Hn0].
    + exists p, 0, buf. unfold trim_in_place. rewrite decide_True by done.
      split; [done|]. unfold f. by rewrite !zslice_nil.
    + destruct (trim_in_place_spec p n buf Hp ltac:(lia) Hb) as (Ht & Hx & Hlo & Hhi).
      eexists _, _, _. split; [exact Ht|].
      rewrite zslice_insert_outside by lia. exact Hx.
  - destruct (extract_cell_spec enc ty p n buf Hp Hn Hb) as (v & Hv & Hcell).
    eexists v, _. split; [exact Hv|]. fold f in Hcell.
    destruct (strip isspace f) as [|c t]; [by left|].
    case_decide; [by left|by right].
  - apply isspace_iff.
  - apply isspace_iff.
  - apply dbf_get_field_value_strip.
  - apply in_trim_set_iff.
  - apply in_trim_set_iff.
Qed.

(** C9 (amended). When the stripped text of a Numeric cell is an optional
    minus sign, a non-empty run of digits and a rest that does not start
    with a digit (such as "12X"), the integer cell holds the value of the
    digits if that is in the range of the type of the column, and is null
    if it is not; without a digit after the optional sign the integer cell
    is null. For a function that meets what fast_float documents of
    [from_chars], the double cell holds the double nearest to the number
    that the stripped text starts with, whatever follows the number: for
    digits followed by a character other than a decimal point and [e] it
    is the double of the digits. It is null when the text does not start
    with a number, or when the parser reports the number out of range. *)
Theorem numeric_prefix_cell (nearest : float_literal → double)
    (out_of_range : float_literal → bool) enc p n (buf : list byte) :
  fast_float_contract nearest out_of_range fast_float_from_chars →
  0 ≤ p → 0 ≤ n → p + n < Z.of_nat (length buf) →
  let t := strip isspace (zslice p n buf) in
  let double_cell number :=
    if out_of_range number then Null else Double double (nearest number) in
  (∀ (neg : bool) ds rest,
      t = (if neg then [x2d] else []) ++ ds ++ rest →
      Forall (λ c, isdigit c = true) ds →
      (∀ c, head rest = Some c → isdigit c = false) →
      (ds = [] → neg = false → head rest ≠ Some x2d) →
      let v := if neg then - decimal_value ds else decimal_value ds in
      fst <$> extract_cell enc INT32 p n buf
      = Some (if decide (ds ≠ [] ∧ INT32_MIN ≤ v ≤ INT32_MAX) then Int32 v else Null)
      ∧ fst <$> extract_cell enc INT64 p n buf
        = Some (if decide (ds ≠ [] ∧ INT64_MIN ≤ v ≤ INT64_MAX) then Int64 v else Null)
      ∧ (ds ≠ [] → (∀ c, head rest = Some c → c ∉ bytes ".eE") →
         fst <$> extract_cell enc DOUBLE p n buf
         = Some (double_cell (Decimal neg (decimal_value ds) 0))))
  ∧ fst <$> extract_cell enc DOUBLE p n buf
    = Some (match parse_float t with
            | None => Null
            | Some number => double_cell number
            end).
Proof.
  intros Hff Hp Hn Hb t double_cell.
  assert (Hdouble : fst <$> extract_cell enc DOUBLE p n buf
                    = Some (match parse_float t with
                            | None => Null
                            | Some number => double_cell number
                            end)).
  { destruct (extract_cell_spec enc DOUBLE p n buf Hp Hn Hb) as (v & Hv & Hcell).
    fold t in Hcell. rewrite Hv. simpl. f_equal.
    destruct t as [|c t'] eqn:Et; [by subst|].
    destruct (decide (c = x00)) as [->|Hc0]; [by subst|].
    unfold text_value, append_value in Hcell.
    erewrite bind_Some in Hcell; [|apply (load_range_drop 0 (c :: t') x00 []); done].
    pose proof (Hff (c :: t') indeterminate_double) as Hc.
    destruct (fast_float_from_chars (c :: t') indeterminate_double) as [r d].
    simpl in Hc. unfold double_cell.
    destruct (parse_float (c :: t')) as [number|].
    - destruct (out_of_range number).
      + rewrite Hc in Hcell. rewrite decide_False in Hcell by done.
        unfold mret, M_ret, ret in Hcell; simpl in Hcell; congruence.
      + destruct Hc as [Hec ->]. rewrite Hec in Hcell.
        rewrite decide_True in Hcell by done.
        unfold mret, M_ret, ret in Hcell; simpl in Hcell; congruence.
    - rewrite Hc in Hcell. rewrite decide_False in Hcell by done.
      unfold mret, M_ret, ret in Hcell; simpl in Hcell; congruence. }
  split; [|exact Hdouble].
  intros neg ds rest Ht Hds Hrest Hsign v.
  assert (Hint : ∀ ty lo hi (mk : Z → cell double),
            (∀ s, text_value enc ty s
                  = Some (let '(r, value) := from_chars_int lo hi s indeterminate_int in
                          if decide (ec r = errc_ok) then mk value else Null)) →
            fst <$> extract_cell enc ty p n buf
            = Some (if decide (ds ≠ [] ∧ lo ≤ v ≤ hi) then mk v else Null)).
  { intros ty lo hi mk Htv.
    destruct (extract_cell_spec enc ty p n buf Hp Hn Hb) as (c & Hc & Hcell).
    fold t in Hcell. rewrite Hc. simpl. f_equal.
    pose proof (from_chars_int_spec lo hi neg ds rest indeterminate_int
                  Hds Hrest Hsign) as Hfc.
    cbv zeta in Hfc. rewrite <- Ht in Hfc. fold v in Hfc.
    destruct t as [|c0 t0] eqn:Et.
    - destruct neg; [done|]. destruct ds; [|done].
      case_decide; [tauto|done].
    - destruct (decide (c0 = x00)) as [->|Hc0].
      + destruct neg; [done|]. destruct ds as [|d ds'].
        * case_decide; [tauto|done].
        * simpl in Ht. injection Ht as <- _. by inversion Hds.
      + rewrite Htv, Hfc in Hcell. injection Hcell as <-.
        destruct (decide (ds = [])) as [->|Hne];
          [|destruct (decide (lo ≤ v ≤ hi))]; simpl;
          repeat case_decide; first [done | tauto]. }
  split; [|split].
  - apply Hint. intros s. unfold text_value, append_value.
    erewrite bind_Some; [|apply (load_range_drop 0 s x00 []); done].
    by destruct (from_chars_int _ _ _ _), (decide _).
  - apply Hint. intros s. unfold text_value, append_value.
    erewrite bind_Some; [|apply (load_range_drop 0 s x00 []); done].
    by destruct (from_chars_int _ _ _ _), (decide _).
  - intros Hne Hnext. rewrite Hdouble, Ht.
    rewrite (parse_float_digits neg ds rest Hne Hds); [done|].
    intros c Hc. split; [by apply Hrest|by apply Hnext].
Qed.



End ExtractorProperties.

(** ** The buffer across a batch *)

Lemma nul_for_space_refl b : nul_for_space b b.
Proof. split; [done|]. intros i c c' H1 H2. left. congruence. Qed.

Lemma nul_for_space_trans b1 b2 b3 :
  nul_for_space b1 b2 → nul_for_space b2 b3 → nul_for_space b1 b3.
Proof.
  intros [Hl12 H12] [Hl23 H23]. split; [congruence|].
  intros i c c'' H1 H3.
  destruct (lookup_lt_is_Some_2 b2 i) as [c' H2].
  { rewrite Hl12. by eapply lookup_lt_Some. }
  destruct (H12 i c c' H1 H2) as [->|[Hsp ->]].
  - by apply (H23 i).
  - destruct (H23 i x00 c'' H2 H3) as [->|[Hsp' _]]; [by right|done].
Qed.

Lemma nul_for_space_insert (b : list byte) i c :
  b !! i = Some c → isspace c = true → nul_for_space b (<[i := x00]> b).
Proof.
  intros Hc Hsp. split; [apply length_insert|].
  intros j d d' Hd Hd'. destruct (decide (i = j)) as [->|Hne].
  - rewrite list_lookup_insert_eq in Hd' by by eapply lookup_lt_Some.
    right. split; congruence.
  - rewrite list_lookup_insert_ne in Hd' by done. left. congruence.
Qed.

Lemma lookup_zslice p n (buf : list byte) i :
  (i < Z.to_nat n)%nat → zslice p n buf !! i = buf !! (Z.to_nat p + i)%nat.
Proof.
  intros Hi. unfold zslice. rewrite lookup_take_lt by done. apply lookup_drop.
Qed.

Lemma zslice_blank p n (b b' : list byte) :
  nul_for_space b b' →
  Forall blank (zslice p n b) → Forall blank (zslice p n b').
Proof.
  intros [Hlen Hrel] Hb. apply Forall_lookup_2. intros i c' Hc'.
  assert (i < Z.to_nat n)%nat as Hi.
  { apply lookup_lt_Some in Hc'. unfold zslice in Hc'. rewrite length_take in Hc'. lia. }
  rewrite lookup_zslice in Hc' by done.
  destruct (lookup_lt_is_Some_2 b (Z.to_nat p + i)) as [c Hc].
  { rewrite <- Hlen. by eapply lookup_lt_Some. }
  pose proof (Forall_lookup_1 _ _ i c Hb) as Hbc.
  rewrite lookup_zslice in Hbc by done. specialize (Hbc Hc).
  destruct (Hrel _ _ _ Hc Hc') as [->|[_ ->]]; [done|by right].
Qed.

Lemma Forall_strip (P : byte → Prop) ws f : Forall P f → Forall P (strip ws f).
Proof.
  intros H. rewrite (strip_decompose ws f) in H.
  apply Forall_app in H as [_ H]. by apply Forall_app in H as [H _].
Qed.

(** The byte after the stripped text, when the field has one, is white
    space. *)
Lemma strip_next_is_space ws f c :
  f !! (leading ws f + length (strip ws f))%nat = Some c → ws c = true.
Proof.
  intros H.
  remember (leading ws f + length (strip ws f))%nat as k eqn:Hk.
  rewrite (strip_decompose ws f) in H.
  rewrite lookup_app_r in H by (unfold leading in Hk; lia).
  rewrite lookup_app_r in H by (unfold leading in Hk; lia).
  apply list_elem_of_lookup_2 in H. rewrite elem_of_reverse in H.
  pose proof (takewhile_Forall ws (reverse (dropwhile ws f))) as Hall.
  rewrite Forall_forall in Hall. by apply Hall.
Qed.

Section BatchProperties.

Variable double : Type.
Variable fast_float_from_chars : list byte → double → from_chars_result * double.
Variable indeterminate_double : double.
Variable indeterminate_int : Z.
Variable iconv_open : string → bool.
Variable iconv : string → list byte → option (list byte).
Variable seconds_west : tm → Z.

Local Abbreviation extract_cell :=
  (extract_cell double fast_float_from_chars indeterminate_double indeterminate_int
     iconv seconds_west).
Local Abbreviation extract_column :=
  (extract_column double fast_float_from_chars indeterminate_double indeterminate_int
     iconv seconds_west).
Local Abbreviation extract_columns :=
  (extract_columns double fast_float_from_chars indeterminate_double indeterminate_int
     iconv seconds_west).
Local Abbreviation create_arrow_batch :=
  (create_arrow_batch double fast_float_from_chars indeterminate_double indeterminate_int
     iconv_open iconv seconds_west).
Local Abbreviation Null := (Null double).

(** A cell whose extraction has a result lies inside the buffer. *)
Lemma extract_cell_bounds enc ty p n (buf : list byte) :
  0 ≤ n → is_Some (extract_cell enc ty p n buf) →
  0 ≤ p ∧ p + n < Z.of_nat (length buf).
Proof.
  intros Hn [r Hr]. unfold extract_cell in Hr.
  unfold mbind, M_bind, bind in Hr.
  destruct (load (p + n) buf) as [[b buf0]|] eqn:Hload; [|done].
  unfold load in Hload. case_decide as Hpn; [|done].
  destruct (buf !! Z.to_nat (p + n)) as [b'|] eqn:Hb; [|done].
  injection Hload as -> ->. apply lookup_lt_Some in Hb.
  split; [|lia].
  destruct (decide (0 ≤ p)) as [|Hneg]; [done|]. exfalso.
  unfold store in Hr. rewrite decide_True in Hr by lia.
  unfold trim_in_place in Hr. rewrite decide_False in Hr by lia.
  unfold mbind, M_bind, bind in Hr. simpl trim_front in Hr.
  rewrite decide_True in Hr by lia.
  unfold mbind, M_bind, bind, load in Hr. rewrite decide_False in Hr by done.
  done.
Qed.

(** One pass of the row loop changes the buffer by at most one NUL in
    place of a white-space byte. *)
Lemma extract_cell_frame enc ty p n (buf buf' : list byte) v :
  0 ≤ n → extract_cell enc ty p n buf = Some (v, buf') → nul_for_space buf buf'.
Proof.
  intros Hn Hrun.
  destruct (extract_cell_bounds enc ty p n buf Hn) as [Hp Hb]; [by eexists|].
  destruct (extract_cell_spec double fast_float_from_chars indeterminate_double
              indeterminate_int iconv seconds_west enc ty p n buf Hp Hn Hb)
    as (v' & Hv & _).
  rewrite Hv in Hrun. injection Hrun as _ <-.
  set (f := zslice p n buf) in *. set (t := strip isspace f) in *.
  case_decide as Hq; [apply nul_for_space_refl|].
  pose proof (strip_length isspace f) as Hsl. fold t in Hsl.
  pose proof (length_zslice p n buf Hp Hn ltac:(lia)) as Hlf. fold f in Hlf.
  pose proof (leading_le isspace f) as Hle.
  assert (Hlt : (leading isspace f + length t < Z.to_nat n)%nat) by lia.
  destruct (lookup_lt_is_Some_2 f (leading isspace f + length t)) as [c Hc]; [lia|].
  pose proof (strip_next_is_space isspace f c Hc) as Hsp.
  pose proof (lookup_zslice p n buf (leading isspace f + length t) Hlt) as Hz.
  fold f in Hz. rewrite Hc in Hz. symmetry in Hz.
  replace (Z.to_nat (p + Z.of_nat (leading isspace f) + Z.of_nat (length t)))
    with (Z.to_nat p + (leading isspace f + length t))%nat by lia.
  by apply nul_for_space_insert with c.
Qed.

(** A field of white space and NUL bytes whose first byte that is not
    white space, if any, is NUL yields a null cell. *)
Lemma extract_cell_blank enc ty p n (buf buf' : list byte) v :
  0 ≤ n → extract_cell enc ty p n buf = Some (v, buf') →
  Forall blank (zslice p n buf) → v = Null.
Proof.
  intros Hn Hrun Hblank.
  destruct (extract_cell_bounds enc ty p n buf Hn) as [Hp Hb]; [by eexists|].
  destruct (extract_cell_spec double fast_float_from_chars indeterminate_double
              indeterminate_int iconv seconds_west enc ty p n buf Hp Hn Hb)
    as (v' & Hv & Hcell).
  rewrite Hv in Hrun. injection Hrun as <- _.
  destruct (strip isspace (zslice p n buf)) as [|c t] eqn:Ht; [done|].
  pose proof (strip_head _ _ _ _ Ht) as Hc.
  pose proof (Forall_strip blank isspace _ Hblank) as Hbt. rewrite Ht in Hbt.
  apply Forall_cons_1 in Hbt as [[Hsp | ->] _]; [congruence|].
  by rewrite decide_True in Hcell.
Qed.

(** The row loop. *)
Lemma extract_column_spec enc ty off len ptrs (buf buf' : list byte) vs :
  0 ≤ len →
  extract_column enc ty off len ptrs buf = Some (vs, buf') →
  nul_for_space buf buf'
  ∧ length vs = length ptrs
  ∧ ∀ i p, ptrs !! i = Some p →
           Forall blank (zslice (p + off) len buf) → vs !! i = Some Null.
Proof.
  intros Hlen. revert buf vs.
  induction ptrs as [|p0 ptrs IH]; intros buf vs Hrun; simpl in Hrun.
  - injection Hrun as <- <-. split; [apply nul_for_space_refl|]. split; [done|]. done.
  - unfold mbind, M_bind, bind in Hrun.
    destruct (extract_cell enc ty (p0 + off) len buf) as [[v buf1]|] eqn:Hcell; [|done].
    fold (@bind (list (cell double)) (list (cell double))) in Hrun.
    destruct (extract_column enc ty off len ptrs buf1) as [[vs' buf2]|] eqn:Hrest;
      [|done].
    injection Hrun as <- <-.
    pose proof (extract_cell_frame _ _ _ _ _ _ _ Hlen Hcell) as Hf1.
    destruct (IH buf1 vs' Hrest) as (Hf2 & Hl & Hnull).
    split; [by eapply nul_for_space_trans|]. split; [simpl; by rewrite Hl|].
    intros [|i] p Hp Hblank; simpl in *.
    + injection Hp as <-. f_equal. by eapply extract_cell_blank.
    + apply (Hnull i p Hp). by apply (zslice_blank _ _ buf).
Qed.

(** The column loop. *)
Lemma extract_columns_spec enc fs ptrs col schema (buf buf' : list byte) cols :
  extract_columns enc fs ptrs col schema buf = Some (cols, buf') →
  nul_for_space buf buf'
  ∧ length cols = length schema
  ∧ ∀ k fd i p,
      (k < length schema)%nat → fs ≫= (.!! (col + k)%nat) = Some fd →
      ptrs !! i = Some p →
      Forall blank (zslice (p + to_size_t (field_offset fd)) (u8 (field_length fd)) buf) →
      ∃ column, cols !! k = Some column ∧ column !! i = Some Null.
Proof.
  revert col buf cols.
  induction schema as [|fld schema IH]; intros col buf cols Hrun; simpl in Hrun.
  - injection Hrun as <- <-. split; [apply nul_for_space_refl|]. split; [done|].
    intros k fd i p Hk. simpl in Hk. lia.
  - destruct (fs ≫= (.!! col)) as [fd0|] eqn:Hfd0; [|done].
    unfold mbind at 1 2, M_bind, bind in Hrun.
    destruct (extract_column enc (type_id fld) (to_size_t (field_offset fd0))
                (u8 (field_length fd0)) ptrs buf) as [[array buf1]|] eqn:Hcol; [|done].
    fold (@bind (list (list (cell double))) (list (list (cell double)))) in Hrun.
    destruct (extract_columns enc fs ptrs (S col) schema buf1) as [[cols' buf2]|] eqn:Hrest;
      [|done].
    injection Hrun as <- <-.
    destruct (extract_column_spec _ _ _ _ _ _ _ _ (proj1 (u8_range _)) Hcol)
      as (Hf1 & _ & Hnull1).
    destruct (IH (S col) buf1 cols' Hrest) as (Hf2 & Hl & Hnull2).
    split; [by eapply nul_for_space_trans|]. split; [simpl; by rewrite Hl|].
    intros [|k] fd i p Hk Hfd Hp Hblank.
    + rewrite Nat.add_0_r, Hfd0 in Hfd. injection Hfd as <-.
      exists array. split; [done|]. by apply (Hnull1 i p).
    + simpl in Hk. simpl. apply (Hnull2 k fd i p); [lia| |done|].
      * by replace (S col + k)%nat with (col + S k)%nat by lia.
      * by apply (zslice_blank _ _ buf).
Qed.

(** A batch changes the table's buffer by NUL bytes in place of white-space
    bytes only, and nothing else of the table. *)
Lemma create_arrow_batch_frame (dbf dbf' : DBF) schema start_row num_rows r :
  create_arrow_batch dbf schema start_row num_rows = Some (r, dbf') →
  nul_for_space (mem_buffer dbf) (mem_buffer dbf')
  ∧ header dbf' = header dbf ∧ fields dbf' = fields dbf
  ∧ columns dbf' = columns dbf ∧ encoding dbf' = encoding dbf.
Proof.
  intros Hrun. unfold create_arrow_batch in Hrun.
  destruct (header dbf) as [h|] eqn:Hh; [|done]. simpl in Hrun.
  destruct (iconv_open (encoding dbf)).
  - match type of Hrun with
    | context [extract_columns _ _ ?ptrs _ _ _] => set (record_pointers := ptrs) in *
    end.
    destruct (extract_columns (encoding dbf) (fields dbf) record_pointers 0 schema
                (mem_buffer dbf)) as [[cols buf']|] eqn:Hcols; [|done].
    simpl in Hrun. injection Hrun as _ <-. simpl.
    destruct (extract_columns_spec _ _ _ _ _ _ _ _ Hcols) as (Hf & _ & _).
    by rewrite Hh.
  - injection Hrun as _ <-. split; [apply nul_for_space_refl|]. by rewrite Hh.
Qed.

(** C7. In every batch that [create_arrow_batch] produces, for every
    column and every row of the batch and whatever the type of the column,
    a field whose bytes in the table's buffer are all white space (also an
    empty field) yields a null cell: the batch holds [Null] at that column
    and row. *)
Theorem whitespace_field_is_null (dbf dbf' : DBF) schema start_row num_rows
    sch rows columns h fs (col : nat) fd (i : nat) :
  create_arrow_batch dbf schema start_row num_rows
  = Some (RecordBatch double sch rows columns, dbf') →
  header dbf = Some h → fields dbf = Some fs →
  (col < length schema)%nat → fs !! col = Some fd →
  Z.of_nat i < rows →
  let record := header_length h
                + to_int (to_int (start_row + Z.of_nat i) * record_length h) in
  Forall (λ c, isspace c = true)
    (zslice (record + to_size_t (field_offset fd)) (u8 (field_length fd)) (mem_buffer dbf)) →
  ∃ column, columns !! col = Some column ∧ column !! i = Some Null.
Proof.
  intros Hrun Hh Hfs Hcol Hfd Hi record Hws.
  unfold create_arrow_batch in Hrun. rewrite Hh in Hrun. simpl in Hrun.
  destruct (iconv_open (encoding dbf)); [|done].
  match type of Hrun with
  | context [extract_columns _ _ ?ptrs _ _ _] => set (record_pointers := ptrs) in *
  end.
  destruct (extract_columns (encoding dbf) (fields dbf) record_pointers 0 schema
              (mem_buffer dbf)) as [[cols buf']|] eqn:Hcols; [|done].
  simpl in Hrun. injection Hrun as <- <- <- <-.
  destruct (extract_columns_spec _ _ _ _ _ _ _ _ Hcols) as (_ & _ & Hnull).
  apply (Hnull col fd i record); [done|by rewrite Hfs| |].
  - unfold record_pointers. rewrite list_lookup_fmap.
    rewrite lookup_seqZ_lt by done. simpl. do 2 f_equal. 
  - eapply Forall_impl; [exact Hws|]. intros c Hc. by left.
Qed.

End BatchProperties.

(** ** Loading *)

Lemma if_zero_ne {A} (a b : A) : (if decide (0 ≠ 0) then a else b) = b.
Proof. by destruct (decide (0 ≠ 0)). Qed.

Lemma fread_bytes n (input : FILE) :
  0 ≤ position input → 0 ≤ n →
  position input + n ≤ Z.of_nat (length (content input)) →
  fread 1 n input
  = (n, zslice (position input) n (content input),
     mkFILE (content input) (position input + n) (seekable input)).
Proof.
  intros Hpos Hn Hlen. unfold fread. rewrite decide_False by done.
  rewrite Z.div_1_r, Z.mul_1_l, length_drop.
  rewrite !Z.min_l by lia. unfold zslice.
  rewrite length_take, length_drop. do 2 f_equal. f_equal. lia.
Qed.

Lemma dbf_ReadHeaderSize_value (input : FILE) b0 b1 :
  seekable input = true →
  content input !! 8%nat = Some b0 → content input !! 9%nat = Some b1 →
  dbf_ReadHeaderSize input
  = (to_u16 (u8 b0 + Z.shiftl (u8 b1) 8), mkFILE (content input) 10 true).
Proof.
  intros Hseek H8 H9. unfold dbf_ReadHeaderSize, fseek. rewrite Hseek.
  rewrite bool_decide_true by done. simpl andb. cbv iota beta.
  rewrite if_zero_ne.
  unfold fread. simpl position. simpl content. simpl seekable.
  replace (Z.to_nat 8) with 8%nat by done.
  rewrite (drop_S _ _ _ H8), (drop_S _ _ _ H9).
  set (rest := drop 10 (content input)). simpl length.
  assert (1 ≤ Z.of_nat (S (S (length rest))) `div` 2) as Hdiv
    by (Z.to_euclidean_division_equations; lia).
  rewrite (decide_False (P := 2 = 0)) by done.
  rewrite (Z.min_l 1) by lia.
  replace (Z.to_nat ((2 * 1) `min` Z.of_nat (S (S (length rest))))) with 2%nat by lia.
  cbv iota beta. by destruct (decide (1 ≠ 1)).
Qed.

Lemma dbf_ReadHeaderSize_error (input : FILE) :
  seekable input = false ∨ Z.of_nat (length (content input)) < 10 →
  fst (dbf_ReadHeaderSize input) = 1.
Proof.
  intros H. unfold dbf_ReadHeaderSize, fseek.
  destruct (seekable input) eqn:Hseek; simpl andb; cbv iota beta; [|done].
  destruct H as [H|H]; [done|].
  rewrite if_zero_ne.
  unfold fread. simpl position. simpl content. simpl seekable.
  rewrite (decide_False (P := 2 = 0)) by done.
  set (avail := drop (Z.to_nat 8) (content input)).
  assert (Z.of_nat (length avail) `div` 2 = 0) as Hdiv.
  { apply Z.div_small. unfold avail. rewrite length_drop. lia. }
  rewrite Hdiv. rewrite Z.min_r by lia. cbv iota beta.
  by rewrite (decide_True (P := 0 ≠ 1)) by done.
Qed.

Lemma length_resize n (v : list byte) : 0 ≤ n → length (resize n v) = Z.to_nat n.
Proof.
  intros Hn. unfold resize. rewrite length_app, length_take, length_replicate. lia.
Qed.

Section LoaderProperties.

Variable blast : list byte → Z * list byte.

(** The buffer [dbc_load_dbf] builds for an input that declares [h] header
    bytes and has them: the header bytes and what [blast] yields for the
    bytes from offset [h + 4]. From there on the result is that of the two
    parsers. *)
Lemma dbc_load_dbf_run (input : FILE) (dbf : DBF) b0 b1 :
  seekable input = true →
  content input !! 8%nat = Some b0 → content input !! 9%nat = Some b1 →
  let h := to_u16 (u8 b0 + Z.shiftl (u8 b1) 8) in
  h ≠ 1 → h ≤ Z.of_nat (length (content input)) →
  let '(ret, out) := blast (drop (Z.to_nat (h + 4)) (content input)) in
  let buf := take (Z.to_nat h) (content input) ++ out in
  dbc_load_dbf blast input dbf
  = if decide (ret ≠ 0) then Some (false, with_mem_buffer buf dbf)
    else
      let '(r, dbf1) := dbf_ReadHeaderInfo (with_mem_buffer buf dbf) in
      if decide (r ≠ 0) then Some (false, dbf1)
      else
        '(r, dbf2) ← dbf_ReadFieldInfo dbf1;
        if decide (r ≠ 0) then Some (false, dbf2) else Some (true, dbf2).
Proof.
  intros Hseek H8 H9 h Hh1 Hhlen.
  assert (0 ≤ h) as Hh0 by (unfold h, to_u16; apply Z.mod_pos_bound; done).
  destruct (blast _) as [ret out] eqn:Hblast.
  unfold dbc_load_dbf.
  rewrite (dbf_ReadHeaderSize_value input b0 b1 Hseek H8 H9). fold h.
  rewrite decide_False by done.
  unfold fseek at 1. simpl seekable. simpl andb. cbv iota beta.
  rewrite if_zero_ne.
  rewrite fread_bytes by (simpl; lia). simpl position. simpl content. simpl seekable.
  rewrite decide_False by (intros Hne; by apply Hne).
  unfold dbf_DecompressData, fseek. simpl seekable.
  rewrite bool_decide_true by lia. simpl andb. cbv iota beta.
  rewrite if_zero_ne. simpl position. simpl content.
  replace (0 + h + 4) with (h + 4) by lia. rewrite Hblast.
  assert (Hbuf : overwrite (zslice 0 h (content input))
                   (mem_buffer (with_mem_buffer (resize h (mem_buffer dbf)) dbf))
                 = take (Z.to_nat h) (content input)).
  { unfold overwrite, zslice. simpl. rewrite length_take.
    change (Z.to_nat 0) with 0%nat. rewrite drop_0.
    rewrite drop_ge, app_nil_r; [done|]. rewrite length_resize by done. lia. }
  rewrite Hbuf. unfold with_mem_buffer at 1 2 3 4. simpl.
  destruct (decide (ret ≠ 0)); [done|].
  by rewrite if_zero_ne.
Qed.

Lemma dbc_load_dbf_sentinel (input : FILE) (dbf : DBF) :
  fst (dbf_ReadHeaderSize input) = 1 → dbc_load_dbf blast input dbf = Some (false, dbf).
Proof.
  intros H. unfold dbc_load_dbf.
  destruct (dbf_ReadHeaderSize input) as [h i]. simpl in H. subst h.
  by rewrite decide_True.
Qed.

(** C10. [dbc_load_dbf] returns false for every input whose bytes 8 and 9
    are 01 00: [dbf_ReadHeaderSize] then returns 1, the value it also
    returns when the seek fails or the two bytes cannot be read, and the
    caller rejects that value; [dbf] is left as it was in all these
    cases. *)
Theorem header_length_one_is_rejected (input : FILE) (dbf : DBF) :
  content input !! 8%nat = Some x01 → content input !! 9%nat = Some x00 →
  fst (dbf_ReadHeaderSize input) = 1
  ∧ dbc_load_dbf blast input dbf = Some (false, dbf)
  ∧ (∀ input' : FILE,
       seekable input' = false ∨ Z.of_nat (length (content input')) < 10 →
       fst (dbf_ReadHeaderSize input') = 1
       ∧ dbc_load_dbf blast input' dbf = Some (false, dbf)).
Proof.
  intros H8 H9.
  assert (Hsize : fst (dbf_ReadHeaderSize input) = 1).
  { destruct (seekable input) eqn:Hseek.
    - by rewrite (dbf_ReadHeaderSize_value input x01 x00 Hseek H8 H9).
    - apply dbf_ReadHeaderSize_error. by left. }
  split; [exact Hsize|]. split; [by apply dbc_load_dbf_sentinel|].
  intros input' Herr. pose proof (dbf_ReadHeaderSize_error input' Herr) as Hs.
  split; [exact Hs|]. by apply dbc_load_dbf_sentinel.
Qed.

(** C3, at an input where the buffer is too short for the descriptor array
    and the load does not fail: the file declares 5 header bytes, so that
    bytes 8 and 9 of the buffer come from the decompressed payload; they
    give the header length 0xFFFF, that is 2046 fields, in a buffer of 32
    bytes. [dbf_ReadFieldInfo] tests the buffer against the size of the
    header only, and its [memcpy] reads past the end of the buffer: the
    load has no defined result. *)
Theorem truncated_catalog_is_read (stream : list byte) (dbf : DBF) :
  blast (x00 :: stream) = (0, short_header_payload) →
  dbc_load_dbf blast (short_header_file stream) dbf = None.
Proof.
  intros Hblast.
  pose proof (dbc_load_dbf_run (short_header_file stream) dbf x05 x00
                eq_refl eq_refl eq_refl) as Hrun.
  cbv zeta in Hrun.
  replace (to_u16 (u8 x05 + Z.shiftl (u8 x00) 8)) with 5 in Hrun by done.
  specialize (Hrun ltac:(done) ltac:(simpl; lia)).
  change (drop (Z.to_nat (5 + 4)) (content (short_header_file stream)))
    with (x00 :: stream) in Hrun.
  rewrite Hblast in Hrun. rewrite Hrun. vm_compute. reflexivity.
Qed.

End LoaderProperties.

(** ** The header parser *)

Lemma language_of_header (b : list byte) v w :
  language (set_records v (set_header_length w (DB_HEADER_of_bytes b))) = b !!! 29%nat.
Proof. reflexivity. Qed.

(** C8. Header parsing resolves the encoding from the language byte,
    byte 29 of the buffer: 0x01 gives "CP437" (code page 437), 0x02 gives
    "CP850" (850), 0x03 gives "CP852" (852), 0x65 gives "CP1252" (1252) and
    every other byte gives the default "CP850" (850). *)
Theorem legacy_encoding (dbf : DBF) :
  32 ≤ Z.of_nat (length (mem_buffer dbf)) →
  let lang := mem_buffer dbf !!! 29%nat in
  let dbf' := snd (dbf_ReadHeaderInfo dbf) in
  fst (dbf_ReadHeaderInfo dbf) = 0
  ∧ language <$> header dbf' = Some lang
  ∧ (lang = x01 → encoding dbf' = "CP437"%string
                  ∧ get_windows_codepage (encoding dbf') = 437)
  ∧ (lang = x02 → encoding dbf' = "CP850"%string
                  ∧ get_windows_codepage (encoding dbf') = 850)
  ∧ (lang = x03 → encoding dbf' = "CP852"%string
                  ∧ get_windows_codepage (encoding dbf') = 852)
  ∧ (lang = x65 → encoding dbf' = "CP1252"%string
                  ∧ get_windows_codepage (encoding dbf') = 1252)
  ∧ (lang ∉ [x01; x02; x03; x65] →
     encoding dbf' = "CP850"%string ∧ get_windows_codepage (encoding dbf') = 850).
Proof.
  intros Hlen lang dbf'.
  assert (Hlang : take 32 (mem_buffer dbf) !!! 29%nat = lang).
  { unfold lang. rewrite !list_lookup_total_alt. by rewrite lookup_take_lt by lia. }
  assert (Hrun : dbf_ReadHeaderInfo dbf
                 = (0, mkDBF (mem_buffer dbf)
                         (Some (set_records
                                  (rotate4b (records (set_header_length
                                     (rotate2b (header_length (DB_HEADER_of_bytes (take 32 (mem_buffer dbf)))))
                                     (DB_HEADER_of_bytes (take 32 (mem_buffer dbf))))))
                                  (set_header_length
                                     (rotate2b (header_length (DB_HEADER_of_bytes (take 32 (mem_buffer dbf)))))
                                     (DB_HEADER_of_bytes (take 32 (mem_buffer dbf))))))
                         (fields dbf) (columns dbf) (cur_record dbf)
                         match lang with
                         | x01 => "CP437"
                         | x02 => "CP850"
                         | x03 => "CP852"
                         | x65 => "CP1252"
                         | _ => "CP850"
                         end%string)).
  { unfold dbf_ReadHeaderInfo. rewrite decide_False by (unfold sizeof_DB_HEADER; lia).
    cbv zeta. rewrite language_of_header. by rewrite Hlang. }
  unfold dbf'. rewrite Hrun. simpl. clear Hrun dbf'.
  split; [done|]. split; [by rewrite Hlang|].
  clear Hlang. clearbody lang.
  split; [by intros ->|]. split; [by intros ->|].
  split; [by intros ->|]. split; [by intros ->|].
  intros Hnot. rewrite !not_elem_of_cons in Hnot.
  destruct Hnot as (? & ? & ? & ? & _). by destruct lang.
Qed.

(** ** The field catalog *)

Lemma length_DB_FIELD_array n b : length (DB_FIELD_array_of_bytes n b) = n.
Proof. revert b. induction n as [|n IH]; intros b; simpl; [done|]. by rewrite IH. Qed.

Lemma length_offsets_from off fs : length (offsets_from off fs) = length fs.
Proof. revert off. induction fs as [|f fs IH]; intros off; simpl; [done|]. by rewrite IH. Qed.

(** The loop of [dbf_ReadFieldInfo] gives every field the sum of the
    lengths before it, as long as the sum stays in the range of [int]. *)
Lemma assign_offsets_spec (r l : list DB_FIELD) off :
  0 ≤ off → off + 255 * Z.of_nat (length r) < 2 ^ 31 →
  assign_offsets (length r) (length l) off (l ++ r) = l ++ offsets_from off r.
Proof.
  revert l off. induction r as [|f r IH]; intros l off Hoff Hbound; [done|].
  rewrite length_cons, Nat2Z.inj_succ in Hbound. simpl.
  rewrite list_lookup_middle by done.
  rewrite <- (Nat.add_0_r (length l)) at 2. rewrite insert_app_r. simpl.
  pose proof (u8_range (field_length f)) as Hu.
  assert (to_u32 off = off) as -> by (unfold to_u32; apply Z.mod_small; lia).
  assert (to_int (off + u8 (field_length f)) = off + u8 (field_length f)) as ->.
  { unfold to_int. rewrite Z.mod_small by lia. lia. }
  specialize (IH (l ++ [set_field_offset off f]) (off + u8 (field_length f))).
  rewrite length_app, <- app_assoc in IH. simpl in IH.
  rewrite Nat.add_1_r in IH. rewrite IH by lia. by rewrite <- app_assoc.
Qed.

Lemma offsets_from_consecutive off fs i f g :
  offsets_from off fs !! i = Some f → offsets_from off fs !! S i = Some g →
  field_offset g = field_offset f + u8 (field_length f).
Proof.
  revert off i. induction fs as [|a fs IH]; intros off i Hf Hg; [done|].
  destruct i as [|i]; simpl in *.
  - injection Hf as <-. destruct fs as [|b fs]; [done|]. simpl in Hg.
    by injection Hg as <-.
  - by eapply IH.
Qed.

(** What [dbf_ReadFieldInfo] does, case by case. *)
Lemma dbf_ReadFieldInfo_cases (dbf : DBF) h :
  header dbf = Some h → 0 ≤ header_length h < 2 ^ 16 →
  let size := Z.of_nat (length (mem_buffer dbf)) in
  let col := if decide (header_length h > 32) then (header_length h - 33) `div` 32 else 0 in
  dbf_NumCols dbf = Some col ∧ 0 ≤ col ≤ 2046
  ∧ dbf_ReadFieldInfo dbf
    = if decide (size < 32) then Some (-1, dbf)
      else if decide (col = 0) then Some (-1, dbf)
      else if decide (32 + col * 32 ≤ size)
      then Some (0, mkDBF (mem_buffer dbf) (header dbf)
                      (Some (offsets_from 1
                               (DB_FIELD_array_of_bytes (Z.to_nat col)
                                  (drop 32 (mem_buffer dbf)))))
                      col (cur_record dbf) (encoding dbf))
      else None.
Proof.
  intros Hh Hrange size col.
  assert (Hcol : dbf_NumCols dbf = Some col).
  { unfold dbf_NumCols. rewrite Hh. simpl. f_equal. unfold col, sizeof_DB_HEADER, sizeof_DB_FIELD.
    case_decide; [|done]. unfold to_u32, to_size_t.
    replace (header_length h - 32 - 1) with (header_length h - 33) by lia.
    rewrite (Z.mod_small (header_length h - 33)) by lia.
    apply Z.mod_small. Z.to_euclidean_division_equations; lia. }
  assert (Hc : 0 ≤ col ≤ 2046).
  { unfold col. case_decide; [|lia]. Z.to_euclidean_division_equations; lia. }
  split; [exact Hcol|]. split; [exact Hc|].
  unfold dbf_ReadFieldInfo. fold size. unfold sizeof_DB_HEADER, sizeof_DB_FIELD.
  destruct (decide (size < 32)); [done|].
  rewrite Hcol. simpl.
  destruct (decide (col = 0)); [done|].
  destruct (decide (32 + col * 32 ≤ size)); [|done].
  do 3 f_equal.
  pose proof (assign_offsets_spec
                (DB_FIELD_array_of_bytes (Z.to_nat col) (drop 32 (mem_buffer dbf))) [] 1) as Hassign.
  rewrite length_DB_FIELD_array in Hassign. simpl in Hassign.
  rewrite Hassign by lia. done.
Qed.

(** C5. In every field catalog that [dbf_ReadFieldInfo] builds, for a
    header length in the range of its type [uint16_t], the first field has
    offset 1 and each further field has the offset of the one before it
    plus that one's length. *)
Theorem catalog_offsets (dbf dbf' : DBF) h :
  header dbf = Some h → 0 ≤ header_length h < 2 ^ 16 →
  dbf_ReadFieldInfo dbf = Some (0, dbf') →
  ∃ fs, fields dbf' = Some fs
    ∧ Z.of_nat (length fs) = columns dbf' ∧ 0 < columns dbf'
    ∧ field_offset <$> fs !! 0%nat = Some 1
    ∧ ∀ i f g, fs !! i = Some f → fs !! S i = Some g →
               field_offset g = field_offset f + u8 (field_length f).
Proof.
  intros Hh Hrange Hrun.
  destruct (dbf_ReadFieldInfo_cases dbf h Hh Hrange) as (_ & Hcol & Hcases).
  cbv zeta in Hcases, Hcol. rewrite Hcases in Hrun. clear Hcases.
  set (col := if decide (header_length h > 32)
              then (header_length h - 33) `div` 32 else 0) in *.
  repeat case_decide; try done. injection Hrun as <-. simpl.
  eexists. split; [done|].
  rewrite length_offsets_from, length_DB_FIELD_array.
  split; [lia|]. split; [lia|]. split.
  - destruct (Z.to_nat col) as [|k] eqn:Hk; [lia|]. done.
  - intros i f g. apply offsets_from_consecutive.
Qed.

(** ** The schema *)

Lemma create_schema_loop_type n i0 fs sch k f fld :
  create_schema_loop n i0 fs = Some sch →
  sch !! k = Some fld → fs !! (i0 + k)%nat = Some f →
  type_id fld = schema_type f.
Proof.
  revert i0 sch k. induction n as [|n IH]; intros i0 sch k Hrun Hk Hf; simpl in Hrun.
  - injection Hrun as <-. done.
  - destruct (fs !! i0) as [f0|] eqn:Hf0; simpl in Hrun; [|done].
    case_guard; simpl in Hrun; [|done].
    destruct (create_schema_loop n (S i0) fs) as [rest|] eqn:Hrest; simpl in Hrun; [|done].
    injection Hrun as <-. destruct k as [|k]; simpl in Hk.
    + injection Hk as <-. simpl. rewrite Nat.add_0_r in Hf. congruence.
    + eapply (IH (S i0) rest k); [done|done|].
      by replace (S i0 + k)%nat with (i0 + S k)%nat by lia.
Qed.

(** C6. In the schema that [create_schema] declares, a Numeric field has
    the type double when its decimal count is above 0, the type int32 when
    the decimal count is 0 and the length at most 9, and the type int64
    when the decimal count is 0 and the length at least 10. *)
Theorem numeric_schema_type (dbf : DBF) fs sch i f fld :
  fields dbf = Some fs → create_schema dbf = Some sch →
  fs !! i = Some f → sch !! i = Some fld →
  field_type f = "N"%byte →
  (u8 (field_decimals f) > 0 → type_id fld = DOUBLE)
  ∧ (u8 (field_decimals f) = 0 → u8 (field_length f) ≤ 9 → type_id fld = INT32)
  ∧ (u8 (field_decimals f) = 0 → u8 (field_length f) >= 10 → type_id fld = INT64).
Proof.
  intros Hfs Hsch Hf Hfld Hty.
  assert (Htype : type_id fld = schema_type f).
  { unfold create_schema in Hsch.
    destruct (dbf_NumCols dbf) as [cols|]; simpl in Hsch; [|done].
    case_decide.
    - injection Hsch as <-. done.
    - rewrite Hfs in Hsch. simpl in Hsch.
      by eapply (create_schema_loop_type _ 0%nat fs sch i). }
  rewrite Htype. unfold schema_type. rewrite Hty.
  repeat split; intros; repeat case_decide; (done || lia).
Qed.

(** ** When the load is defined *)

(** What [fread] returns when the file ends before [n] bytes. *)
Lemma fread_bytes_short n (input : FILE) :
  position input = 0 → Z.of_nat (length (content input)) < n →
  fst (fst (fread 1 n input)) ≠ n.
Proof.
  intros Hpos Hlen. unfold fread. rewrite decide_False by done. simpl.
  rewrite Hpos. change (Z.to_nat 0) with 0%nat. rewrite drop_0, Z.div_1_r. lia.
Qed.

Lemma byte_of_Z_u8 (b : byte) k : byte_of_Z (u8 b + 256 * k) = b.
Proof.
  unfold byte_of_Z. pose proof (u8_range b) as Hb.
  replace ((u8 b + 256 * k) `mod` 256) with (u8 b).
  - unfold u8. rewrite N2Z.id, Byte.of_to_N. done.
  - apply (Z.mod_unique_pos _ _ k); lia.
Qed.

(** [rotate2b] after the [memcpy] gives the little-endian value of the two
    bytes. *)
Lemma rotate2b_object_value b0 b1 :
  rotate2b (object_value [b0; b1]) = to_u16 (u8 b0 + Z.shiftl (u8 b1) 8).
Proof.
  unfold rotate2b, object_value. simpl foldr. simpl object_bytes.
  rewrite byte_of_Z_u8.
  replace ((u8 b0 + 256 * (u8 b1 + 256 * 0)) `div` 256) with (u8 b1 + 256 * 0).
  - rewrite byte_of_Z_u8. simpl. f_equal. lia.
  - pose proof (u8_range b0).
    apply (Z.div_unique _ _ _ (u8 b0)); lia.
Qed.

Section LoadDefined.

Variable blast : list byte → Z * list byte.

(** X1. When the declared header length is 1, or at least 10, so that bytes 8
    and 9 of the buffer are those of the file, no read leaves the buffer
    and [dbc_load_dbf] has a result. *)
Lemma dbc_load_dbf_defined (input : FILE) (dbf : DBF) :
  (∀ b0 b1, content input !! 8%nat = Some b0 → content input !! 9%nat = Some b1 →
            to_u16 (u8 b0 + Z.shiftl (u8 b1) 8) = 1
            ∨ 10 ≤ to_u16 (u8 b0 + Z.shiftl (u8 b1) 8)) →
  is_Some (dbc_load_dbf blast input dbf).
Proof.
  intros Hdecl.
  assert (Hsentinel : fst (dbf_ReadHeaderSize input) = 1 →
                      is_Some (dbc_load_dbf blast input dbf)).
  { intros H. rewrite (dbc_load_dbf_sentinel blast input dbf H). by eexists. }
  destruct (seekable input) eqn:Hseek;
    [|apply Hsentinel, dbf_ReadHeaderSize_error; by left].
  destruct (content input !! 8%nat) as [b0|] eqn:H8.
  2: { apply Hsentinel, dbf_ReadHeaderSize_error. right.
       apply lookup_ge_None_1 in H8. lia. }
  destruct (content input !! 9%nat) as [b1|] eqn:H9.
  2: { apply Hsentinel, dbf_ReadHeaderSize_error. right.
       apply lookup_ge_None_1 in H9. lia. }
  pose proof (dbf_ReadHeaderSize_value input b0 b1 Hseek H8 H9) as Hsize.
  set (h := to_u16 (u8 b0 + Z.shiftl (u8 b1) 8)) in *.
  destruct (Hdecl b0 b1 eq_refl eq_refl) as [H1|H10].
  { apply Hsentinel. by rewrite Hsize. }
  destruct (decide (h ≤ Z.of_nat (length (content input)))) as [Hfits|Hshort].
  - pose proof (dbc_load_dbf_run blast input dbf b0 b1 Hseek H8 H9) as Hrun.
    cbv zeta in Hrun. fold h in Hrun. specialize (Hrun ltac:(lia) Hfits).
    destruct (blast _) as [ret out]. rewrite Hrun. clear Hrun.
    destruct (decide (ret ≠ 0)); [by eexists|].
    set (buf := take (Z.to_nat h) (content input) ++ out).
    unfold dbf_ReadHeaderInfo. simpl mem_buffer.
    destruct (decide (Z.of_nat (length buf) < sizeof_DB_HEADER)) as [|Hsz].
    { rewrite decide_True by done. by eexists. }
    cbv zeta. rewrite if_zero_ne.
    match goal with
    | |- is_Some (dbf_ReadFieldInfo ?d ≫= _) => set (dbf1 := d)
    end.
    assert (Hbuf8 : take 32 buf !! 8%nat = Some b0).
    { rewrite lookup_take_lt by lia. unfold buf.
      rewrite lookup_app_l by (rewrite length_take; lia).
      by rewrite lookup_take_lt by lia. }
    assert (Hbuf9 : take 32 buf !! 9%nat = Some b1).
    { rewrite lookup_take_lt by lia. unfold buf.
      rewrite lookup_app_l by (rewrite length_take; lia).
      by rewrite lookup_take_lt by lia. }
    assert (Hhl : ∃ hdr, header dbf1 = Some hdr ∧ header_length hdr = h).
    { eexists. split; [reflexivity|]. simpl. unfold slice.
      rewrite (drop_S _ _ _ Hbuf8), (drop_S _ _ _ Hbuf9). simpl take.
      apply rotate2b_object_value. }
    destruct Hhl as (hdr & Hhdr & Hhl).
    assert (0 ≤ h < 2 ^ 16) as Hrange by (apply Z.mod_pos_bound; done).
    destruct (dbf_ReadFieldInfo_cases dbf1 hdr Hhdr ltac:(by rewrite Hhl))
      as (_ & Hcol & Hcases).
    cbv zeta in Hcases, Hcol. rewrite Hcases. clear Hcases. rewrite Hhl in *.
    assert (Hlen : h ≤ Z.of_nat (length (mem_buffer dbf1))).
    { simpl. unfold buf. rewrite length_app, length_take. lia. }
    repeat case_decide; simpl; try (eexists; reflexivity).
    all: exfalso; Z.to_euclidean_division_equations; lia.
  - unfold dbc_load_dbf. rewrite Hsize. rewrite decide_False by lia.
    unfold fseek at 1. simpl seekable. simpl andb. cbv iota beta.
    rewrite if_zero_ne.
    pose proof (fread_bytes_short h (mkFILE (content input) 0 true) eq_refl
                  ltac:(simpl; lia)) as Hn.
    destruct (fread 1 h _) as [[n got] in3]. simpl in Hn.
    rewrite decide_True by done. by eexists.
Qed.

End LoadDefined.

(** ** A loaded table *)

Lemma dbf_ReadHeaderInfo_header (dbf dbf' : DBF) :
  dbf_ReadHeaderInfo dbf = (0, dbf') →
  mem_buffer dbf' = mem_buffer dbf
  ∧ ∃ h, header dbf' = Some h ∧ 0 ≤ header_length h < 2 ^ 16.
Proof.
  unfold dbf_ReadHeaderInfo. case_decide; [done|].
  cbv zeta. intros [= <-]. simpl. split; [done|]. eexists. split; [done|].
  simpl. unfold rotate2b, to_u16. apply Z.mod_pos_bound. done.
Qed.

Section LoadedTable.

Variable blast : list byte → Z * list byte.

(** A load that returns true went through both parsers. *)
Lemma dbc_load_dbf_true (input : FILE) (dbf dbf' : DBF) :
  dbc_load_dbf blast input dbf = Some (true, dbf') →
  ∃ dbf0 dbf1, dbf_ReadHeaderInfo dbf0 = (0, dbf1)
               ∧ dbf_ReadFieldInfo dbf1 = Some (0, dbf').
Proof.
  unfold dbc_load_dbf.
  destruct (dbf_ReadHeaderSize input) as [header_size in1].
  case_decide; [done|].
  destruct (fseek in1 0) as [r1 in2]. case_decide; [done|].
  destruct (fread 1 header_size in2) as [[n got] in3]. case_decide; [done|].
  destruct (dbf_DecompressData blast in3 header_size _) as [[r2 buf] in4].
  case_decide; [done|].
  destruct (dbf_ReadHeaderInfo _) as [r3 dbf1] eqn:Hheader.
  destruct (decide (r3 ≠ 0)) as [|Hr3]; [done|].
  destruct (dbf_ReadFieldInfo dbf1) as [[r4 dbf2]|] eqn:Hfields; simpl; [|done].
  destruct (decide (r4 ≠ 0)) as [|Hr4]; [done|].
  intros [= <-].
  assert (r3 = 0) as -> by (destruct (decide (r3 = 0)); [done|by destruct Hr3]).
  assert (r4 = 0) as -> by (destruct (decide (r4 = 0)); [done|by destruct Hr4]).
  by eexists _, _.
Qed.

(** The offsets of C5 hold in every table that [dbc_load_dbf] has loaded. *)
Lemma loaded_catalog_offsets (input : FILE) (dbf dbf' : DBF) :
  dbc_load_dbf blast input dbf = Some (true, dbf') →
  ∃ fs, fields dbf' = Some fs
    ∧ field_offset <$> fs !! 0%nat = Some 1
    ∧ ∀ i f g, fs !! i = Some f → fs !! S i = Some g →
               field_offset g = field_offset f + u8 (field_length f).
Proof.
  intros Hload.
  destruct (dbc_load_dbf_true input dbf dbf' Hload) as (dbf0 & dbf1 & Hheader & Hfields).
  destruct (dbf_ReadHeaderInfo_header dbf0 dbf1 Hheader) as (_ & h & Hh & Hrange).
  destruct (dbf_ReadFieldInfo_cases dbf1 h Hh Hrange) as (_ & Hcol & Hcases).
  cbv zeta in Hcases, Hcol. rewrite Hcases in Hfields. clear Hcases.
  set (col := if decide (header_length h > 32)
              then (header_length h - 33) `div` 32 else 0) in *.
  repeat case_decide; try done. injection Hfields as <-. simpl.
  eexists. split; [done|]. split.
  - destruct (Z.to_nat col) as [|k] eqn:Hk; [lia|]. done.
  - intros i f g. apply offsets_from_consecutive.
Qed.

End LoadedTable.

(** * Instances on concrete inputs *)



(** C4 as the specification states it does not hold: the batch extractor
    also trims \v and \f, so that the field \v A \f gives the text "A". *)
Lemma trim_claim_counterexample :
  trim_in_place 1 3 [x2a; x0b; x41; x0c; x2a] = Some ((2, 1), [x2a; x0b; x41; x00; x2a])
  ∧ zslice 2 1 [x2a; x0b; x41; x00; x2a] = [x41]
  ∧ strip in_trim_set (zslice 1 3 [x2a; x0b; x41; x0c; x2a]) = [x0b; x41; x0c]
  ∧ zslice 2 1 [x2a; x0b; x41; x00; x2a]
    ≠ strip in_trim_set (zslice 1 3 [x2a; x0b; x41; x0c; x2a])
  ∧ fst <$> extract_cell Z no_float 0 0 no_iconv (zone_west 0) "CP850" STRING 1 3 [x2a; x0b; x41; x0c; x2a]
    = Some (Utf8 Z [x41]).
Proof.
  split; [vm_compute; reflexivity|]. split; [vm_compute; reflexivity|].
  split; [vm_compute; reflexivity|]. split; [vm_compute; discriminate|].
  vm_compute. reflexivity.
Qed.

Lemma trimmed_bytes_witness :
  ∃ start len buf',
    trim_in_place 1 5 (bytes "* 12X *") = Some ((start, len), buf')
    ∧ zslice start len buf' = strip isspace (zslice 1 5 (bytes "* 12X *")).
Proof.
  apply (trimmed_bytes Z no_float 0 0 no_iconv (zone_west 0) "CP850" STRING 1 5 (bytes "* 12X *")
           name_handle 0 0); [lia|lia|simpl; lia].
Defined.

Lemma whitespace_field_is_null_witness :
  ∃ columns dbf',
    create_arrow_batch Z no_float 0 0 iconv_opens no_iconv (zone_west 10800)
      people_handle people_schema 0 10000
    = Some (RecordBatch Z people_schema 2 columns, dbf')
    ∧ ∃ column, columns !! 1%nat = Some column ∧ column !! 1%nat = Some (Null Z).
Proof.
  eexists _, _. split; [vm_compute; reflexivity|].
  eapply (whitespace_field_is_null Z no_float 0 0 iconv_opens no_iconv (zone_west 10800)
            people_handle _ people_schema 0 10000 people_schema 2 _ _ _ 1%nat _ 1%nat).
  - vm_compute. reflexivity.
  - vm_compute. reflexivity.
  - vm_compute. reflexivity.
  - vm_compute. lia.
  - vm_compute. reflexivity.
  - lia.
  - vm_compute. repeat constructor.
Defined.

Example extract_cell_whitespace_date :
  extract_cell Z no_float 0 0 no_iconv (zone_west 0) "CP850" DATE32 1 4 (bytes "*    *")
  = Some (Null Z, bytes "*    *").
Proof.
  apply extract_cell_whitespace; [lia|lia|simpl; lia|].
  vm_compute. repeat constructor.
Qed.

(** C9 as the specification states it does not hold: a text that starts
    with digits can give a null cell. A Numeric field of 20 characters
    without decimals is an int64 column, and the digits of 2^63, one more
    than the largest value of the type, followed by "X" give null. *)
Lemma numeric_claim_counterexample :
  schema_type (DB_FIELD_of_bytes (example_descriptor "N20" "N" 20 0)) = INT64
  ∧ strip isspace (zslice 1 20 (bytes "*9223372036854775808X*"))
    = bytes "9223372036854775808" ++ bytes "X"
  ∧ Forall (λ c, isdigit c = true) (bytes "9223372036854775808")
  ∧ decimal_value (bytes "9223372036854775808") = 2 ^ 63
  ∧ fst <$> extract_cell Z no_float 0 0 no_iconv (zone_west 0) "CP850" INT64 1 20
              (bytes "*9223372036854775808X*")
    = Some (Null Z)
  ∧ Null Z ≠ Int64 Z (2 ^ 63).
Proof.
  split; [vm_compute; reflexivity|]. split; [vm_compute; reflexivity|].
  split; [by repeat constructor|]. split; [vm_compute; reflexivity|].
  split; [vm_compute; reflexivity|discriminate].
Qed.

(** The stand-in parser meets what fast_float documents. *)
Lemma literal_from_chars_contract :
  fast_float_contract (λ number, number) (λ _, false) literal_from_chars.
Proof.
  intros s value. unfold literal_from_chars. by destruct (parse_float s).
Qed.

(** " 12X " is 12 in an int32, an int64 and a double column, and
    "-1.5e3kg" is -15 times 10 to the power 2 in a double column. *)
Lemma numeric_prefix_cell_witness :
  fst <$> extract_cell float_literal literal_from_chars (NaN false) 0 no_iconv (zone_west 0)
            "CP850" INT32 1 5 (bytes "* 12X *")
  = Some (Int32 float_literal 12)
  ∧ fst <$> extract_cell float_literal literal_from_chars (NaN false) 0 no_iconv
              (zone_west 0) "CP850" INT64 1 5 (bytes "* 12X *")
    = Some (Int64 float_literal 12)
  ∧ fst <$> extract_cell float_literal literal_from_chars (NaN false) 0 no_iconv
              (zone_west 0) "CP850" DOUBLE 1 5 (bytes "* 12X *")
    = Some (Double float_literal (Decimal false 12 0))
  ∧ fst <$> extract_cell float_literal literal_from_chars (NaN false) 0 no_iconv
              (zone_west 0) "CP850" DOUBLE 1 8 (bytes "*-1.5e3kg*")
    = Some (Double float_literal (Decimal true 15 2)).
Proof.
  destruct (numeric_prefix_cell float_literal literal_from_chars (NaN false) 0 no_iconv
              (zone_west 0) (λ number, number) (λ _, false) "CP850" 1 5 (bytes "* 12X *"))
    as [H _]; [exact literal_from_chars_contract|lia|lia|simpl; lia|].
  destruct (H false (bytes "12") (bytes "X")) as (H32 & H64 & Hdouble).
  { reflexivity. }
  { vm_compute. repeat constructor. }
  { intros c [= <-]. reflexivity. }
  { discriminate. }
  split; [exact H32|]. split; [exact H64|]. split.
  - apply Hdouble; [discriminate|]. intros c [= <-].
    change (bytes ".eE") with [x2e; x65; x45]. rewrite !elem_of_cons, elem_of_nil.
    intros [?|[?|[?|[]]]]; discriminate.
  - destruct (numeric_prefix_cell float_literal literal_from_chars (NaN false) 0 no_iconv
                (zone_west 0) (λ number, number) (λ _, false) "CP850" 1 8
                (bytes "*-1.5e3kg*"))
      as [_ Hnumber]; [exact literal_from_chars_contract|lia|lia|simpl; lia|].
    exact Hnumber.
Defined.

Lemma catalog_offsets_witness :
  ∃ fs, fields numeric_handle = Some fs
    ∧ Z.of_nat (length fs) = columns numeric_handle ∧ 0 < columns numeric_handle
    ∧ field_offset <$> fs !! 0%nat = Some 1
    ∧ ∀ i f g, fs !! i = Some f → fs !! S i = Some g →
               field_offset g = field_offset f + u8 (field_length f).
Proof.
  apply (catalog_offsets numeric_parsed numeric_handle numeric_header).
  - reflexivity.
  - vm_compute. split; [discriminate|reflexivity].
  - vm_compute. reflexivity.
Defined.

Lemma numeric_schema_type_witness :
  ∃ f9 fld9 f10 fld10,
    (fields numeric_handle ≫= (.!! 0%nat)) = Some f9
    ∧ numeric_schema !! 0%nat = Some fld9
    ∧ u8 (field_length f9) = 9 ∧ type_id fld9 = INT32
    ∧ (fields numeric_handle ≫= (.!! 1%nat)) = Some f10
    ∧ numeric_schema !! 1%nat = Some fld10
    ∧ u8 (field_length f10) = 10 ∧ type_id fld10 = INT64.
Proof.
  eexists _, _, _, _.
  split; [vm_compute; reflexivity|]. split; [vm_compute; reflexivity|].
  split; [reflexivity|]. split.
  { eapply (numeric_schema_type numeric_handle _ numeric_schema 0%nat);
      [vm_compute; reflexivity|vm_compute; reflexivity|vm_compute; reflexivity
      |vm_compute; reflexivity|reflexivity|reflexivity|vm_compute; discriminate]. }
  split; [vm_compute; reflexivity|]. split; [vm_compute; reflexivity|].
  split; [reflexivity|].
  eapply (numeric_schema_type numeric_handle _ numeric_schema 1%nat);
    [vm_compute; reflexivity|vm_compute; reflexivity|vm_compute; reflexivity
    |vm_compute; reflexivity|reflexivity|reflexivity|vm_compute; discriminate].
Defined.

Lemma legacy_encoding_witness :
  (encoding (snd (dbf_ReadHeaderInfo (with_mem_buffer numeric_table empty_dbf)))
   = "CP1252"%string
   ∧ get_windows_codepage
       (encoding (snd (dbf_ReadHeaderInfo (with_mem_buffer numeric_table empty_dbf))))
     = 1252)
  ∧ (encoding (snd (dbf_ReadHeaderInfo (with_mem_buffer name_table empty_dbf)))
     = "CP850"%string
     ∧ get_windows_codepage
         (encoding (snd (dbf_ReadHeaderInfo (with_mem_buffer name_table empty_dbf))))
       = 850).
Proof.
  split.
  - destruct (legacy_encoding (with_mem_buffer numeric_table empty_dbf))
      as (_ & _ & _ & _ & _ & H & _); [simpl; lia|].
    apply H. reflexivity.
  - destruct (legacy_encoding (with_mem_buffer name_table empty_dbf))
      as (_ & _ & _ & _ & _ & _ & H); [simpl; lia|].
    apply H. rewrite !not_elem_of_cons.
    repeat split; [vm_compute; discriminate..|apply not_elem_of_nil].
Defined.

Lemma header_length_one_is_rejected_witness :
  dbc_load_dbf (blast_yielding []) header_length_one_file empty_dbf
  = Some (false, empty_dbf).
Proof.
  destruct (header_length_one_is_rejected (blast_yielding []) header_length_one_file
              empty_dbf) as (_ & H & _); [reflexivity|reflexivity|exact H].
Defined.

Lemma truncated_catalog_is_read_witness :
  dbc_load_dbf (blast_yielding short_header_payload) (short_header_file []) empty_dbf = None.
Proof. apply truncated_catalog_is_read. reflexivity. Defined.

(** C2, at an input where the code does not keep the buffer: the table has
    one Character field of length 3 that holds "A" and two spaces. The
    batch has the cell "A", and the buffer has a NUL in place of the first
    space: the saved byte after the field is restored, the NUL that
    [trim_in_place] writes after the trimmed text is not. A second batch
    over the same row then has the cell "A" followed by a NUL byte. *)
Theorem extraction_leaves_a_nul :
  handle_of name_table = Some name_handle
  ∧ create_schema name_handle = Some name_schema
  ∧ ∃ dbf',
      create_arrow_batch Z no_float 0 0 iconv_opens no_iconv (zone_west 10800)
        name_handle name_schema 0 10000
      = Some (RecordBatch Z name_schema 1 [[Utf8 Z (bytes "A")]], dbf')
      ∧ zslice 66 3 (mem_buffer name_handle) = [x41; x20; x20]
      ∧ zslice 66 3 (mem_buffer dbf') = [x41; x00; x20]
      ∧ mem_buffer dbf' ≠ mem_buffer name_handle
      ∧ fst <$> create_arrow_batch Z no_float 0 0 iconv_opens no_iconv (zone_west 10800)
                  dbf' name_schema 0 10000
        = Some (RecordBatch Z name_schema 1 [[Utf8 Z [x41; x00]]]).
Proof.
  split; [vm_compute; reflexivity|]. split; [vm_compute; reflexivity|].
  eexists. split; [vm_compute; reflexivity|].
  split; [vm_compute; reflexivity|]. split; [vm_compute; reflexivity|].
  split; [vm_compute; discriminate|]. vm_compute. reflexivity.
Qed.

(** * Further properties *)

(** ** Integers in memory *)

Lemma u8_byte_of_Z (z : Z) : u8 (byte_of_Z z) = z `mod` 256.
Proof.
  unfold byte_of_Z, u8.
  assert (0 ≤ z `mod` 256 < 256) as Hr by (apply Z.mod_pos_bound; lia).
  destruct (Byte.of_N (Z.to_N (z `mod` 256))) as [b|] eqn:Hb.
  - apply Byte.to_of_N in Hb. simpl. rewrite Hb. lia.
  - apply Byte.of_N_None_iff in Hb. lia.
Qed.

(** Adds the range of every byte value that the goal mentions. *)
Ltac pose_u8_ranges :=
  repeat match goal with
         | |- context [u8 ?b] =>
             lazymatch goal with
             | H : 0 ≤ u8 b < 256 |- _ => fail
             | _ => pose proof (u8_range b)
             end
         end.

Lemma rotate2b_id (v : Z) : 0 ≤ v < 2 ^ 16 → rotate2b v = v.
Proof.
  intros Hv. unfold rotate2b, to_u16. cbn [object_bytes lookup_total list_lookup_total].
  rewrite !u8_byte_of_Z, Z.shiftl_mul_pow2 by lia.
  Z.to_euclidean_division_equations; lia.
Qed.

Lemma rotate4b_id (v : Z) : 0 ≤ v < 2 ^ 32 → rotate4b v = v.
Proof.
  intros Hv. unfold rotate4b, to_u32. cbn [object_bytes lookup_total list_lookup_total].
  rewrite !u8_byte_of_Z, !Z.shiftl_mul_pow2 by lia.
  Z.to_euclidean_division_equations; lia.
Qed.

(** X2. The byte order conversions [rotate2b] and [rotate4b] assemble the value
    from the bytes of the object in memory order, lowest first: on the
    little-endian host of this embedding they return their argument. *)
Theorem rotate_returns_its_argument (v : Z) :
  0 ≤ v < 2 ^ 32 →
  rotate4b v = v ∧ (v < 2 ^ 16 → rotate2b v = v).
Proof.
  intros Hv. split; [by apply rotate4b_id|]. intros Hv'. apply rotate2b_id. lia.
Qed.

(** ** The header parser *)

Lemma object_value_2 b0 b1 : object_value [b0; b1] = u8 b0 + 2 ^ 8 * u8 b1.
Proof. unfold object_value. simpl. lia. Qed.

Lemma object_value_4 b0 b1 b2 b3 :
  object_value [b0; b1; b2; b3]
  = u8 b0 + 2 ^ 8 * u8 b1 + 2 ^ 16 * u8 b2 + 2 ^ 24 * u8 b3.
Proof. unfold object_value. simpl. lia. Qed.

(** X3. [dbf_ReadHeaderInfo] fails exactly on a buffer of fewer than 32 bytes,
    and then leaves the handle as it was. Otherwise it returns 0, keeps the
    buffer, the catalog and the column count, and the header it stores has
    the record count, the header length and the record length that bytes
    4-7, 8-9 and 10-11 of the buffer hold in little-endian order. *)
Theorem header_parse (dbf : DBF) :
  let buf := mem_buffer dbf in
  let result := dbf_ReadHeaderInfo dbf in
  (Z.of_nat (length buf) < 32 → result = (-1, dbf))
  ∧ (32 ≤ Z.of_nat (length buf) →
     fst result = 0
     ∧ mem_buffer (snd result) = buf
     ∧ fields (snd result) = fields dbf
     ∧ columns (snd result) = columns dbf
     ∧ ∃ h, header (snd result) = Some h
         ∧ version h = buf !!! 0%nat
         ∧ records h = u8 (buf !!! 4%nat) + 2 ^ 8 * u8 (buf !!! 5%nat)
                       + 2 ^ 16 * u8 (buf !!! 6%nat) + 2 ^ 24 * u8 (buf !!! 7%nat)
         ∧ header_length h = u8 (buf !!! 8%nat) + 2 ^ 8 * u8 (buf !!! 9%nat)
         ∧ record_length h = u8 (buf !!! 10%nat) + 2 ^ 8 * u8 (buf !!! 11%nat)).
Proof.
  intros buf result. unfold result, dbf_ReadHeaderInfo, sizeof_DB_HEADER. fold buf.
  split; intros Hlen.
  - by rewrite decide_True by done.
  - rewrite decide_False by lia. cbv zeta. simpl fst. simpl snd.
    split; [done|]. split; [done|]. split; [done|]. split; [done|].
    eexists. split; [reflexivity|].
    clearbody buf.
    do 12 (destruct buf as [|? buf]; [simpl in Hlen; lia|]).
    cbn [version records header_length record_length set_records set_header_length
         DB_HEADER_of_bytes slice take drop lookup_total list_lookup_total].
    rewrite object_value_4, object_value_2.
    pose_u8_ranges. rewrite rotate4b_id, rotate2b_id by lia.
    rewrite take_0, object_value_2. done.
Qed.

(** ** The field catalog *)

(** X4. [dbf_NumCols] counts the whole 32-byte descriptors between the 32-byte
    table header and the last byte of the declared header length, the
    terminator: a header length below 65 gives no column. [dbf_NumRows] is
    the record count of the header. *)
Theorem column_and_row_counts (dbf : DBF) h :
  header dbf = Some h → 0 ≤ header_length h < 2 ^ 16 → 0 ≤ records h →
  dbf_NumRows dbf = Some (records h)
  ∧ (header_length h < 65 → dbf_NumCols dbf = Some 0)
  ∧ (∀ n, 1 ≤ n → 32 * n + 33 ≤ header_length h < 32 * n + 65 →
          dbf_NumCols dbf = Some n).
Proof.
  intros Hh Hrange Hrec.
  destruct (dbf_ReadFieldInfo_cases dbf h Hh Hrange) as (Hcol & _ & _).
  cbv zeta in Hcol. split; [|split].
  - unfold dbf_NumRows. rewrite Hh. simpl.
    destruct (decide (records h > 0)); f_equal; lia.
  - intros Hlt. rewrite Hcol. f_equal. case_decide; [|done].
    Z.to_euclidean_division_equations; lia.
  - intros n Hn Hbetween. rewrite Hcol. f_equal. rewrite decide_True by lia.
    Z.to_euclidean_division_equations; lia.
Qed.

(** X5. The three outcomes of [dbf_ReadFieldInfo] on a handle with a parsed
    header: it returns -1 and leaves the handle as it was when the buffer
    has fewer than 32 bytes or the header length is below 65; it returns 0
    and stores the column count when the descriptor array lies inside the
    buffer; and it reads past the end of the buffer otherwise. *)
Theorem field_info_outcomes (dbf : DBF) h :
  header dbf = Some h → 0 ≤ header_length h < 2 ^ 16 →
  let size := Z.of_nat (length (mem_buffer dbf)) in
  let n := (header_length h - 33) `div` 32 in
  (size < 32 ∨ header_length h < 65 → dbf_ReadFieldInfo dbf = Some (-1, dbf))
  ∧ (32 ≤ size → 65 ≤ header_length h → 32 + 32 * n ≤ size →
     ∃ dbf', dbf_ReadFieldInfo dbf = Some (0, dbf')
             ∧ columns dbf' = n ∧ (Z.of_nat ∘ length) <$> fields dbf' = Some n
             ∧ mem_buffer dbf' = mem_buffer dbf ∧ header dbf' = header dbf
             ∧ encoding dbf' = encoding dbf)
  ∧ (32 ≤ size → 65 ≤ header_length h → size < 32 + 32 * n →
     dbf_ReadFieldInfo dbf = None).
Proof.
  intros Hh Hrange size n.
  destruct (dbf_ReadFieldInfo_cases dbf h Hh Hrange) as (_ & _ & Hcases).
  cbv zeta in Hcases. fold size in Hcases. rewrite Hcases. clear Hcases.
  assert (65 ≤ header_length h → 1 ≤ n)
    by (intros; unfold n; Z.to_euclidean_division_equations; lia).
  assert (header_length h < 65 → header_length h > 32 → n = 0)
    by (intros; unfold n; Z.to_euclidean_division_equations; lia).
  split; [|split].
  - intros [Hs|Hl]; [by rewrite decide_True by done|].
    case_decide; [done|]. rewrite decide_True; [done|]. case_decide; [|done]. auto.
  - intros Hs Hl Hfit. rewrite decide_False by lia.
    rewrite (decide_True (P := header_length h > 32)) by lia. fold n.
    rewrite decide_False by lia. rewrite decide_True by lia.
    eexists. split; [reflexivity|]. simpl. split; [done|].
    split; [|done]. f_equal. rewrite length_offsets_from, length_DB_FIELD_array. lia.
  - intros Hs Hl Hfit. rewrite decide_False by lia.
    rewrite (decide_True (P := header_length h > 32)) by lia. fold n.
    rewrite decide_False by lia. by rewrite decide_False by lia.
Qed.

Lemma lookup_DB_FIELD_array (n : nat) (b : list byte) (i : nat) :
  (i < n)%nat →
  DB_FIELD_array_of_bytes n b !! i = Some (DB_FIELD_of_bytes (take 32 (drop (32 * i) b))).
Proof.
  revert b i. induction n as [|n IH]; intros b i Hi; [lia|].
  destruct i as [|i]; simpl.
  - done.
  - rewrite IH by lia. rewrite drop_drop. do 4 f_equal. lia.
Qed.

Lemma lookup_offsets_from off fs i f :
  offsets_from off fs !! i = Some f →
  ∃ g o, fs !! i = Some g ∧ f = set_field_offset o g.
Proof.
  revert off i. induction fs as [|g fs IH]; intros off i; simpl; [done|].
  destruct i as [|i]; simpl.
  - intros [= <-]. by exists g, off.
  - apply IH.
Qed.

(** X6. After a successful [dbf_ReadFieldInfo], entry [i] of the catalog is
    the 32-byte descriptor at offset [32 + 32 * i] of the buffer: the name
    is its first 11 bytes, the type, the length and the decimal count are
    its bytes 11, 16 and 17. Only the member [field_offset] is computed. *)
Theorem catalog_entries (dbf dbf' : DBF) h (i : nat) fs f :
  header dbf = Some h → 0 ≤ header_length h < 2 ^ 16 →
  dbf_ReadFieldInfo dbf = Some (0, dbf') →
  fields dbf' = Some fs → fs !! i = Some f →
  let d := zslice (32 + 32 * Z.of_nat i) 32 (mem_buffer dbf) in
  length d = 32%nat
  ∧ field_name f = take 11 d
  ∧ field_type f = d !!! 11%nat
  ∧ field_length f = d !!! 16%nat
  ∧ field_decimals f = d !!! 17%nat.
Proof.
  intros Hh Hrange Hread Hfs Hf d.
  destruct (dbf_ReadFieldInfo_cases dbf h Hh Hrange) as (_ & Hcol & Hcases).
  cbv zeta in Hcases, Hcol. rewrite Hread in Hcases.
  set (col := if decide (header_length h > 32)
              then (header_length h - 33) `div` 32 else 0) in *.
  repeat case_decide; try discriminate Hcases.
  injection Hcases as ->. simpl in Hfs. injection Hfs as <-.
  destruct (lookup_offsets_from _ _ _ _ Hf) as (g & o & Hg & ->).
  assert (Hi : (i < Z.to_nat col)%nat).
  { apply lookup_lt_Some in Hg. by rewrite length_DB_FIELD_array in Hg. }
  assert (Hd : d = take 32 (drop (32 * i) (drop 32 (mem_buffer dbf)))).
  { unfold d, zslice. rewrite drop_drop. do 2 f_equal. lia. }
  rewrite lookup_DB_FIELD_array in Hg by done. rewrite <- Hd in Hg.
  injection Hg as <-. split; [|done].
  unfold d, zslice. rewrite length_take, length_drop. lia.
Qed.

(** ** Loading *)

Section LoadResults.

Variable blast : list byte → Z * list byte.

(** A file shorter than the header it declares is rejected. *)
Lemma dbc_load_dbf_short (input : FILE) (dbf : DBF) b0 b1 :
  seekable input = true →
  content input !! 8%nat = Some b0 → content input !! 9%nat = Some b1 →
  let h := to_u16 (u8 b0 + Z.shiftl (u8 b1) 8) in
  Z.of_nat (length (content input)) < h →
  ∃ dbf', dbc_load_dbf blast input dbf = Some (false, dbf').
Proof.
  intros Hseek H8 H9 h Hshort.
  pose proof (dbf_ReadHeaderSize_value input b0 b1 Hseek H8 H9) as Hsize. fold h in Hsize.
  apply lookup_lt_Some in H9.
  unfold dbc_load_dbf. rewrite Hsize. rewrite decide_False by lia.
  unfold fseek at 1. simpl seekable. simpl andb. cbv iota beta.
  rewrite if_zero_ne.
  pose proof (fread_bytes_short h (mkFILE (content input) 0 true) eq_refl
                ltac:(simpl; lia)) as Hn.
  destruct (fread 1 h _) as [[n got] in3]. simpl in Hn.
  rewrite decide_True by done. by eexists.
Qed.

(** X7. What a successful load guarantees. The stream can seek; the file holds
    the [h] bytes of header that its bytes 8 and 9 declare; [blast] has
    returned 0 for the bytes from offset [h + 4]; the buffer is the [h]
    header bytes followed by the decompressed bytes, whatever the buffer
    held before; the header and the catalog are set, with at least one
    column, and every descriptor of the catalog lies inside the buffer. *)
Theorem load_success (input : FILE) (dbf dbf' : DBF) :
  dbc_load_dbf blast input dbf = Some (true, dbf') →
  ∃ b0 b1 out hd fs,
    seekable input = true
    ∧ content input !! 8%nat = Some b0 ∧ content input !! 9%nat = Some b1
    ∧ let h := u8 b0 + 2 ^ 8 * u8 b1 in
      h ≤ Z.of_nat (length (content input))
      ∧ blast (drop (Z.to_nat (h + 4)) (content input)) = (0, out)
      ∧ mem_buffer dbf' = take (Z.to_nat h) (content input) ++ out
      ∧ header dbf' = Some hd ∧ fields dbf' = Some fs
      ∧ Z.of_nat (length fs) = columns dbf' ∧ 1 ≤ columns dbf'
      ∧ columns dbf' = (header_length hd - 33) `div` 32
      ∧ 32 + 32 * columns dbf' ≤ Z.of_nat (length (mem_buffer dbf'))
      ∧ cur_record dbf' = cur_record dbf.
Proof.
  intros Hload.
  assert (Hsentinel : fst (dbf_ReadHeaderSize input) ≠ 1).
  { intros H. rewrite (dbc_load_dbf_sentinel blast input dbf H) in Hload. done. }
  destruct (seekable input) eqn:Hseek;
    [|destruct Hsentinel; apply dbf_ReadHeaderSize_error; by left].
  destruct (content input !! 8%nat) as [b0|] eqn:H8.
  2: { destruct Hsentinel. apply dbf_ReadHeaderSize_error. right.
       apply lookup_ge_None_1 in H8. lia. }
  destruct (content input !! 9%nat) as [b1|] eqn:H9.
  2: { destruct Hsentinel. apply dbf_ReadHeaderSize_error. right.
       apply lookup_ge_None_1 in H9. lia. }
  rewrite (dbf_ReadHeaderSize_value input b0 b1 Hseek H8 H9) in Hsentinel.
  simpl in Hsentinel.
  assert (Hh : to_u16 (u8 b0 + Z.shiftl (u8 b1) 8) = u8 b0 + 2 ^ 8 * u8 b1).
  { pose proof (u8_range b0). pose proof (u8_range b1).
    rewrite Z.shiftl_mul_pow2 by lia. unfold to_u16. rewrite Z.mod_small by lia. lia. }
  destruct (decide (Z.of_nat (length (content input)) < u8 b0 + 2 ^ 8 * u8 b1))
    as [Hshort|Hfits].
  { destruct (dbc_load_dbf_short input dbf b0 b1 Hseek H8 H9) as [d Hd];
      [by rewrite Hh|]. rewrite Hd in Hload. done. }
  pose proof (dbc_load_dbf_run blast input dbf b0 b1 Hseek H8 H9) as Hrun.
  cbv zeta in Hrun. rewrite Hh in Hrun, Hsentinel.
  specialize (Hrun Hsentinel ltac:(lia)).
  destruct (blast _) as [ret out] eqn:Hblast. rewrite Hrun in Hload. clear Hrun.
  destruct (decide (ret ≠ 0)) as [|Hret]; [done|].
  assert (ret = 0) as -> by (destruct (decide (ret = 0)); [done|by destruct Hret]).
  destruct (dbf_ReadHeaderInfo _) as [r dbf1] eqn:Hheader.
  destruct (decide (r ≠ 0)) as [|Hr]; [done|].
  assert (r = 0) as -> by (destruct (decide (r = 0)); [done|by destruct Hr]).
  destruct (dbf_ReadHeaderInfo_header _ _ Hheader) as (Hbuf1 & hd & Hhd & Hrange).
  assert (Hcur : cur_record dbf1 = cur_record dbf).
  { unfold dbf_ReadHeaderInfo in Hheader. case_decide; [done|].
    cbv zeta in Hheader. by injection Hheader as <-. }
  destruct (dbf_ReadFieldInfo_cases dbf1 hd Hhd Hrange) as (_ & Hcol & Hcases).
  cbv zeta in Hcases, Hcol. rewrite Hcases in Hload. clear Hcases.
  rewrite Hbuf1 in Hload. simpl mem_buffer in Hload, Hbuf1.
  repeat case_decide; simpl in Hload; try done.
  injection Hload as <-. simpl.
  exists b0, b1, out, hd. eexists.
  split; [done|]. split; [done|]. split; [done|]. split; [lia|].
  split; [done|]. split; [done|]. split; [done|]. split; [done|].
  rewrite length_offsets_from, length_DB_FIELD_array.
  split; [lia|]. split; [lia|]. split; [done|]. split; [lia|done].
Qed.

(** X8. The four bytes between the declared header and the compressed stream
    are never read: two files that differ only there load alike. *)
Theorem skipped_bytes_are_not_read (hd s s' stream : list byte) (dbf : DBF) b0 b1 :
  hd !! 8%nat = Some b0 → hd !! 9%nat = Some b1 →
  Z.of_nat (length hd) = u8 b0 + 2 ^ 8 * u8 b1 →
  length s = 4%nat → length s' = 4%nat →
  dbc_load_dbf blast (mkFILE (hd ++ s ++ stream) 0 true) dbf
  = dbc_load_dbf blast (mkFILE (hd ++ s' ++ stream) 0 true) dbf.
Proof.
  intros H8 H9 Hlen Hs Hs'.
  assert (Hh : to_u16 (u8 b0 + Z.shiftl (u8 b1) 8) = Z.of_nat (length hd)).
  { pose proof (u8_range b0). pose proof (u8_range b1).
    rewrite Z.shiftl_mul_pow2 by lia. unfold to_u16. rewrite Z.mod_small by lia. lia. }
  assert (Hge : (10 ≤ length hd)%nat) by (apply lookup_lt_Some in H9; lia).
  assert (Hrun : ∀ t, length t = 4%nat →
            dbc_load_dbf blast (mkFILE (hd ++ t ++ stream) 0 true) dbf
            = let '(ret, out) := blast stream in
              let buf := hd ++ out in
              if decide (ret ≠ 0) then Some (false, with_mem_buffer buf dbf)
              else
                let '(r, dbf1) := dbf_ReadHeaderInfo (with_mem_buffer buf dbf) in
                if decide (r ≠ 0) then Some (false, dbf1)
                else
                  '(r, dbf2) ← dbf_ReadFieldInfo dbf1;
                  if decide (r ≠ 0) then Some (false, dbf2) else Some (true, dbf2)).
  { intros t Ht.
    pose proof (dbc_load_dbf_run blast (mkFILE (hd ++ t ++ stream) 0 true) dbf b0 b1
                  eq_refl) as Hrun.
    simpl content in Hrun. rewrite !lookup_app_l in Hrun by lia.
    specialize (Hrun H8 H9). cbv zeta in Hrun. rewrite Hh in Hrun.
    specialize (Hrun ltac:(lia) ltac:(rewrite length_app; lia)).
    rewrite Nat2Z.id, take_app_length in Hrun.
    replace (Z.to_nat (Z.of_nat (length hd) + 4)) with (length hd + length t)%nat in Hrun
      by lia.
    rewrite <- drop_drop, drop_app_length, drop_app_length in Hrun.
    by destruct (blast stream) as [ret out]. }
  by rewrite (Hrun s Hs), (Hrun s' Hs').
Qed.

End LoadResults.

(** ** More on stripping *)

Lemma dropwhile_ext (ws ws' : byte → bool) s :
  Forall (λ c, ws c = ws' c) s → dropwhile ws s = dropwhile ws' s.
Proof.
  induction 1 as [|c s Hc _ IH]; simpl; [done|]. rewrite <- Hc. by destruct (ws c).
Qed.

Lemma Forall_dropwhile (P : byte → Prop) ws s : Forall P s → Forall P (dropwhile ws s).
Proof.
  induction 1 as [|c s Hc Hs IH]; simpl; [done|]. destruct (ws c); [done|by constructor].
Qed.

Lemma strip_ext (ws ws' : byte → bool) f :
  Forall (λ c, ws c = ws' c) f → strip ws f = strip ws' f.
Proof.
  intros H. unfold strip. rewrite (dropwhile_ext ws ws' f H). f_equal.
  apply dropwhile_ext, Forall_reverse, Forall_dropwhile. done.
Qed.

Lemma strip_last ws f c : last (strip ws f) = Some c → ws c = false.
Proof.
  unfold strip. rewrite last_reverse.
  destruct (dropwhile ws (reverse (dropwhile ws f))) as [|d r] eqn:E; [done|].
  intros [= ->]. by apply dropwhile_head in E.
Qed.

(** No byte of [ws] follows the stripped text exactly when the whole of
    [f] is in [ws] or [f] ends with a byte outside [ws]. *)
Lemma strip_reaches_end ws f :
  (leading ws f + length (strip ws f))%nat = length f
  ↔ Forall (λ c, ws c = true) f ∨ ∃ c, last f = Some c ∧ ws c = false.
Proof.
  pose proof (strip_decompose ws f) as Hdec.
  pose proof (takewhile_dropwhile ws f) as Htd.
  assert (Hlen : length f = (leading ws f + length (strip ws f)
                             + length (takewhile ws (reverse (dropwhile ws f))))%nat).
  { rewrite Hdec at 1. rewrite !length_app, length_reverse. unfold leading. lia. }
  destruct (list_nil_or_snoc (dropwhile ws f)) as [Hnil|(g & c & Hg)].
  - rewrite Hnil in Hlen, Htd. simpl in Hlen. rewrite app_nil_r in Htd.
    split; [|lia]. intros _. left. rewrite <- Htd. apply takewhile_Forall.
  - rewrite Hg in Hlen, Htd. rewrite reverse_snoc in Hlen. simpl in Hlen.
    assert (Hlast : last f = Some c).
    { rewrite <- Htd, app_assoc. apply last_snoc. }
    assert (Hnot : ¬ Forall (λ c, ws c = true) f).
    { intros Hall. destruct (dropwhile ws f) as [|d r] eqn:E.
      - by destruct g.
      - pose proof (dropwhile_head _ _ _ _ E) as Hd.
        rewrite <- (takewhile_dropwhile ws f), E in Hall.
        apply Forall_app in Hall as [_ Hall]. apply Forall_cons_1 in Hall as [Hall _].
        congruence. }
    destruct (ws c) eqn:Hc; simpl in Hlen.
    + split; [lia|]. intros [Hall|(c' & Hc' & Hws)]; [done|].
      rewrite Hlast in Hc'. injection Hc' as <-. congruence.
    + split; [|lia]. intros _. right. by exists c.
Qed.

(** ** Cells by column type *)

Lemma is_ascii_Forall (s : list byte) :
  is_ascii s = true ↔ Forall (λ c, u8 c ≤ 127) s.
Proof.
  unfold is_ascii. induction s as [|c s IH]; simpl.
  - split; [constructor|done].
  - rewrite andb_true_iff, Forall_cons, IH, negb_true_iff, bool_decide_eq_false.
    split; (intros [H1 H2]; split; [lia|done]).
Qed.

Lemma decimal_value_snoc ds c :
  decimal_value (ds ++ [c]) = 10 * decimal_value ds + (u8 c - 48).
Proof. unfold decimal_value. by rewrite foldl_snoc. Qed.

Lemma decimal_value_bound ds :
  Forall (λ c, isdigit c = true) ds →
  0 ≤ decimal_value ds < 10 ^ Z.of_nat (length ds).
Proof.
  induction ds as [|c ds IH] using rev_ind; intros Hds; [done|].
  apply Forall_app in Hds as [Hds Hc]. apply Forall_cons_1 in Hc as [Hc _].
  specialize (IH Hds). rewrite decimal_value_snoc, length_app. simpl length.
  replace (Z.of_nat (length ds + 1)) with (Z.of_nat (length ds) + 1) by lia.
  rewrite Z.pow_add_r by lia.
  unfold isdigit in Hc. apply andb_true_iff in Hc as [H1 H2].
  apply Z.leb_le in H1, H2. lia.
Qed.


Section CellProperties.

Variable double : Type.
Variable fast_float_from_chars : list byte → double → from_chars_result * double.
Variable indeterminate_double : double.
Variable indeterminate_int : Z.
Variable iconv : string → list byte → option (list byte).
Variable seconds_west : tm → Z.

Local Abbreviation text_value :=
  (text_value double fast_float_from_chars indeterminate_double indeterminate_int iconv
     seconds_west).
Local Abbreviation extract_cell :=
  (extract_cell double fast_float_from_chars indeterminate_double indeterminate_int iconv
     seconds_west).
Local Abbreviation Null := (Null double).
Local Abbreviation Utf8 := (Utf8 double).
Local Abbreviation Int32 := (Int32 double).
Local Abbreviation Boolean := (Boolean double).
Local Abbreviation Date32 := (Date32 double).

(** The cell of a field whose stripped text does not start with NUL is the
    value of the text. *)
Lemma extract_cell_text enc ty p n (buf : list byte) c t' :
  0 ≤ p → 0 ≤ n → p + n < Z.of_nat (length buf) →
  strip isspace (zslice p n buf) = c :: t' → c ≠ x00 →
  fst <$> extract_cell enc ty p n buf = text_value enc ty (c :: t').
Proof.
  intros Hp Hn Hb Ht Hc.
  destruct (extract_cell_spec double fast_float_from_chars indeterminate_double
              indeterminate_int iconv seconds_west enc ty p n buf Hp Hn Hb) as (v & Hv & Hval).
  cbv zeta in Hval. rewrite Ht in Hval. rewrite decide_False in Hval by done.
  rewrite Hv, Hval. done.
Qed.

(** The cell of a field whose stripped text is empty or starts with NUL
    is null. *)
Lemma extract_cell_null enc ty p n (buf : list byte) :
  0 ≤ p → 0 ≤ n → p + n < Z.of_nat (length buf) →
  strip isspace (zslice p n buf) = [] ∨ head (strip isspace (zslice p n buf)) = Some x00 →
  fst <$> extract_cell enc ty p n buf = Some Null.
Proof.
  intros Hp Hn Hb Ht.
  destruct (extract_cell_spec double fast_float_from_chars indeterminate_double
              indeterminate_int iconv seconds_west enc ty p n buf Hp Hn Hb) as (v & Hv & Hval).
  cbv zeta in Hval. rewrite Hv. simpl. f_equal.
  destruct (strip isspace (zslice p n buf)) as [|c t']; [done|].
  destruct Ht as [Ht|[= ->]]; [done|]. by rewrite decide_True in Hval.
Qed.

(** X9. A Logical cell is null exactly when the stripped text of the field is
    empty or starts with a NUL byte. Otherwise it is true when the
    stripped text is one of the single characters T, t, 1, Y, y, and
    false for every other text. *)
Theorem logical_cell enc p n (buf : list byte) :
  0 ≤ p → 0 ≤ n → p + n < Z.of_nat (length buf) →
  fst <$> extract_cell enc BOOL p n buf
  = Some (match strip isspace (zslice p n buf) with
          | [] => Null
          | c :: t' =>
              if decide (c = x00) then Null
              else Boolean (bool_decide (t' = [] ∧ c ∈ bytes "Tt1Yy"))
          end).
Proof.
  intros Hp Hn Hb.
  destruct (strip isspace (zslice p n buf)) as [|c t'] eqn:Ht.
  { apply extract_cell_null; [done..|]. by left. }
  destruct (decide (c = x00)) as [->|Hc].
  { apply extract_cell_null; [done..|]. right. by rewrite Ht. }
  rewrite (extract_cell_text _ _ _ _ _ c t') by done.
  unfold text_value, append_value.
  erewrite bind_Some; [|apply (load_drop 0 c (t' ++ [x00])); done].
  unfold mret, M_ret, ret. simpl. do 3 f_equal.
  apply eq_true_iff_eq. rewrite andb_true_iff, !bool_decide_eq_true.
  change (bytes "Tt1Yy") with [x54; x74; x31; x59; x79].
  rewrite !elem_of_cons, elem_of_nil.
  split.
  - intros [Hlen Hcs]. split; [destruct t'; [done|simpl in Hlen; lia]|tauto].
  - intros [-> Hcs]. split; [done|tauto].
Qed.

Lemma text_value_string enc t :
  text_value enc STRING t
  = Some (Utf8 (if is_ascii t then t else convert_to_utf8_opt iconv t enc)).
Proof.
  unfold text_value, append_value.
  erewrite bind_Some; [|apply (load_range_drop 0 t x00 []); done].
  by destruct (is_ascii t).
Qed.

(** X10. A Character cell is null exactly when the stripped text of the field
    is empty or starts with a NUL byte. Otherwise it holds the stripped
    bytes themselves when all are at most 127, and else what [iconv]
    writes for them, or the empty string when [iconv] reports an error. *)
Theorem character_cell enc p n (buf : list byte) :
  0 ≤ p → 0 ≤ n → p + n < Z.of_nat (length buf) →
  let t := strip isspace (zslice p n buf) in
  fst <$> extract_cell enc STRING p n buf
  = Some (match t with
          | [] => Null
          | c :: _ =>
              if decide (c = x00) then Null
              else Utf8 (if decide (Forall (λ c, u8 c ≤ 127) t) then t
                         else default [] (iconv enc t))
          end).
Proof.
  intros Hp Hn Hb t. unfold t.
  destruct (strip isspace (zslice p n buf)) as [|c t'] eqn:Ht.
  { apply extract_cell_null; [done..|]. by left. }
  destruct (decide (c = x00)) as [->|Hc].
  { apply extract_cell_null; [done..|]. right. by rewrite Ht. }
  rewrite (extract_cell_text _ _ _ _ _ c t') by done.
  rewrite text_value_string. do 2 f_equal.
  destruct (decide (Forall (λ c, u8 c ≤ 127) (c :: t'))) as [Hascii|Hascii].
  - apply is_ascii_Forall in Hascii. by rewrite Hascii.
  - destruct (is_ascii (c :: t')) eqn:E; [by apply is_ascii_Forall in E|].
    unfold convert_to_utf8_opt. rewrite decide_False by done.
    by destruct (iconv enc (c :: t')).
Qed.

(** X11. In an int32 column the field has at most 9 characters, so the range
    check of [from_chars] cannot fail: a text that starts with digits,
    after an optional minus sign, always gives their value. *)
Theorem int32_cell_in_range enc p n (buf : list byte) (neg : bool) ds rest :
  0 ≤ p → 0 ≤ n ≤ 9 → p + n < Z.of_nat (length buf) →
  strip isspace (zslice p n buf) = (if neg then [x2d] else []) ++ ds ++ rest →
  ds ≠ [] → Forall (λ c, isdigit c = true) ds →
  (∀ c, head rest = Some c → isdigit c = false) →
  fst <$> extract_cell enc INT32 p n buf
  = Some (Int32 (if neg then - decimal_value ds else decimal_value ds)).
Proof.
  intros Hp Hn Hb Ht Hne Hds Hrest.
  set (t := strip isspace (zslice p n buf)) in *.
  assert (Hlen : (length ds ≤ 9)%nat).
  { assert (length t ≤ length (zslice p n buf))%nat by (unfold t; rewrite strip_length; lia).
    assert (Z.of_nat (length (zslice p n buf)) = n) by (apply length_zslice; lia).
    rewrite Ht, !length_app in H. lia. }
  assert (∃ c t', t = c :: t' ∧ c ≠ x00) as (c & t' & Hct & Hc).
  { rewrite Ht. destruct neg; simpl; [by eexists _, _|].
    destruct ds as [|d ds']; [done|]. apply Forall_cons_1 in Hds as [Hd _].
    exists d, (ds' ++ rest). split; [done|]. intros ->. by vm_compute in Hd. }
  rewrite (extract_cell_text _ _ _ _ _ c t') by (done || lia). rewrite <- Hct, Ht.
  unfold text_value, append_value.
  erewrite bind_Some; [|apply (load_range_drop 0 _ x00 []); done].
  pose proof (from_chars_int_spec INT32_MIN INT32_MAX neg ds rest indeterminate_int
                Hds Hrest ltac:(done)) as Hfc.
  cbv zeta in Hfc. rewrite Hfc. rewrite decide_False by done.
  pose proof (decimal_value_bound ds Hds) as Hbound.
  assert (10 ^ Z.of_nat (length ds) ≤ 10 ^ 9) by (apply Z.pow_le_mono_r; lia).
  rewrite decide_True by (unfold INT32_MIN, INT32_MAX; destruct neg; lia).
  cbn [ec]. by rewrite decide_True by done.
Qed.



(** X13. The buffer after the extraction of one cell is the buffer before it
    exactly when the field is all white space or ends with a byte that is
    not white space; in every case the length of the buffer is kept. *)
Theorem cell_keeps_buffer_iff enc ty p n (buf : list byte) :
  0 ≤ p → 0 ≤ n → p + n < Z.of_nat (length buf) →
  let f := zslice p n buf in
  ∃ v buf', extract_cell enc ty p n buf = Some (v, buf')
    ∧ length buf' = length buf
    ∧ (buf' = buf ↔ Forall (λ c, isspace c = true) f
                    ∨ ∃ c, last f = Some c ∧ isspace c = false).
Proof.
  intros Hp Hn Hb f.
  destruct (extract_cell_spec double fast_float_from_chars indeterminate_double
              indeterminate_int iconv seconds_west enc ty p n buf Hp Hn Hb) as (v & Hv & _).
  cbv zeta in Hv. fold f in Hv.
  assert (Hlen : Z.of_nat (length f) = n) by (apply length_zslice; lia).
  pose proof (strip_length isspace f) as Hsl.
  pose proof (leading_le isspace f) as Hll.
  pose proof (strip_reaches_end isspace f) as Hend.
  eexists _, _. split; [exact Hv|].
  destruct (decide (p + Z.of_nat (leading isspace f) + Z.of_nat (length (strip isspace f))
                    = p + n)) as [Heq|Hne].
  - split; [done|]. split; [|done]. intros _. apply Hend. lia.
  - split; [apply length_insert|]. split.
    + intros Hsame. exfalso.
      set (i := (leading isspace f + length (strip isspace f))%nat) in *.
      assert (Hi : (i < length f)%nat) by lia.
      destruct (lookup_lt_is_Some_2 f i Hi) as [c Hc].
      pose proof (strip_next_is_space isspace f c Hc) as Hws.
      unfold f in Hc. rewrite lookup_zslice in Hc by lia.
      apply (f_equal (λ b, b !! (Z.to_nat p + i)%nat)) in Hsame.
      replace (Z.to_nat (p + Z.of_nat (leading isspace f)
                         + Z.of_nat (length (strip isspace f))))
        with (Z.to_nat p + i)%nat in Hsame by lia.
      rewrite list_lookup_insert_eq in Hsame by lia.
      rewrite Hc in Hsame. injection Hsame as <-. done.
    + intros H. apply Hend in H. lia.
Qed.

(** X14. [dbf_get_field_value] and the batch extractor agree on a Character
    field whose bytes are at most 127 and are neither vertical tab, form
    feed nor NUL: the cell holds the value, and is null when the value is
    empty. *)
Theorem field_value_agrees_with_cell enc (dbf : DBF) h fs (col row : Z) fd :
  header dbf = Some h → fields dbf = Some fs →
  0 ≤ col → fs !! Z.to_nat col = Some fd →
  0 ≤ row → 0 ≤ header_length h → 0 ≤ record_length h →
  header_length h + row * record_length h < 2 ^ 31 → 0 ≤ field_offset fd →
  let p := header_length h + row * record_length h + field_offset fd in
  let n := u8 (field_length fd) in
  p + n < Z.of_nat (length (mem_buffer dbf)) →
  Forall (λ c, (c ∉ [x0b; x0c; x00]) ∧ u8 c ≤ 127) (zslice p n (mem_buffer dbf)) →
  ∃ value, dbf_get_field_value dbf col row = Some value
    ∧ fst <$> extract_cell enc STRING p n (mem_buffer dbf)
      = Some (if decide (value = []) then Null else Utf8 value).
Proof.
  intros Hh Hfs Hcol Hfd Hrow Hhl Hrl Hint Hoff p n Hb Hall.
  set (f := zslice p n (mem_buffer dbf)) in *.
  pose proof (u8_range (field_length fd)) as Hn. fold n in Hn.
  assert (0 ≤ row * record_length h) by lia.
  assert (Hp : 0 ≤ p) by (unfold p; lia).
  exists (strip in_trim_set f). split.
  - rewrite dbf_get_field_value_strip, Hh, Hfs. simpl.
    rewrite option_guard_True by done. rewrite Hfd. simpl.
    assert (Hptr : to_size_t (to_int (header_length h + to_int (row * record_length h)))
                   + field_offset fd = p).
    { unfold p, to_size_t, to_int.
      rewrite (Z.mod_small (row * record_length h + 2 ^ 31)) by lia.
      replace (row * record_length h + 2 ^ 31 - 2 ^ 31) with (row * record_length h) by lia.
      rewrite (Z.mod_small (_ + 2 ^ 31)) by lia.
      rewrite Z.mod_small by lia. lia. }
    rewrite Hptr. fold n. rewrite load_range_Some by lia. done.
  - assert (Hsame : strip isspace f = strip in_trim_set f).
    { apply strip_ext. eapply Forall_impl; [exact Hall|]. intros c [Hc _].
      rewrite !elem_of_cons, elem_of_nil in Hc. destruct c; simpl; tauto. }
    rewrite <- Hsame.
    destruct (strip isspace f) as [|c t'] eqn:Ht.
    + destruct (extract_cell_spec double fast_float_from_chars indeterminate_double
                  indeterminate_int iconv seconds_west enc STRING p n (mem_buffer dbf)
                  Hp ltac:(lia) Hb) as (v & Hv & Hval).
      cbv zeta in Hval. fold f in Hval. rewrite Ht in Hval. rewrite Hv, Hval. done.
    + assert (Hstrip : Forall (λ c, (c ∉ [x0b; x0c; x00]) ∧ u8 c ≤ 127) (c :: t')).
      { rewrite <- Ht. by apply Forall_strip. }
      assert (Hc : c ≠ x00).
      { apply Forall_cons_1 in Hstrip as [[Hc _] _].
        rewrite !elem_of_cons in Hc. tauto. }
      rewrite (extract_cell_text enc STRING p n _ c t') by (done || lia).
      rewrite text_value_string.
      assert (is_ascii (c :: t') = true) as ->.
      { apply is_ascii_Forall. eapply Forall_impl; [exact Hstrip|]. by intros ? [_ ?]. }
      done.
Qed.

End CellProperties.

(** ** dbf_get_field_value *)

(** X15. The value that [dbf_get_field_value] returns is a contiguous part of
    the field: the bytes around it are space, tab, newline or carriage
    return, and it neither starts nor ends with one of these. *)
Theorem field_value_is_trimmed (dbf : DBF) (col row : Z) value :
  dbf_get_field_value dbf col row = Some value →
  ∃ h fs fd l r,
    header dbf = Some h ∧ fields dbf = Some fs ∧ 0 ≤ col ∧ fs !! Z.to_nat col = Some fd
    ∧ let record_offset :=
        to_size_t (to_int (header_length h + to_int (row * record_length h))) in
      zslice (record_offset + field_offset fd) (u8 (field_length fd)) (mem_buffer dbf)
      = l ++ value ++ r
      ∧ Forall (λ c, in_trim_set c = true) l ∧ Forall (λ c, in_trim_set c = true) r
      ∧ (∀ c, head value = Some c → in_trim_set c = false)
      ∧ (∀ c, last value = Some c → in_trim_set c = false).
Proof.
  rewrite dbf_get_field_value_strip.
  destruct (header dbf) as [h|]; [|done]. destruct (fields dbf) as [fs|]; [|done]. simpl.
  case_guard; [|done]. simpl.
  destruct (fs !! Z.to_nat col) as [fd|] eqn:Hfd; [|done]. simpl.
  unfold load_range. case_decide; [|done]. simpl. intros [= <-].
  exists h, fs, fd. eexists _, _. split; [done|]. split; [done|]. split; [done|].
  split; [done|]. cbv zeta. fold (zslice
    (to_size_t (to_int (header_length h + to_int (row * record_length h))) + field_offset fd)
    (u8 (field_length fd)) (mem_buffer dbf)).
  split; [apply strip_decompose|]. split; [apply takewhile_Forall|].
  split; [apply Forall_reverse, takewhile_Forall|]. split.
  - intros c Hc. destruct (strip in_trim_set _) as [|d t] eqn:E; [done|].
    injection Hc as ->. by apply strip_head in E.
  - intros c. apply strip_last.
Qed.

(** ** Tables that fit their buffer *)

Lemma table_fits_offset dbf h fs k fd :
  table_fits dbf h fs → fs !! k = Some fd →
  field_offset fd + u8 (field_length fd) ≤ record_length h ∧ 1 ≤ field_offset fd.
Proof.
  intros Hfits Hfd. split; [by eapply fits_record|]. revert fd Hfd.
  induction k as [|k IH]; intros fd Hfd.
  - by rewrite (fits_first _ _ _ Hfits fd Hfd).
  - destruct (lookup_lt_is_Some_2 fs k) as [fd0 Hfd0]; [apply lookup_lt_Some in Hfd; lia|].
    rewrite (fits_next _ _ _ Hfits k fd0 fd Hfd0 Hfd).
    pose proof (IH fd0 Hfd0). pose proof (u8_range (field_length fd0)). lia.
Qed.

Lemma table_fits_ordered dbf h fs k k' fd fd' :
  table_fits dbf h fs → (k < k')%nat → fs !! k = Some fd → fs !! k' = Some fd' →
  field_offset fd + u8 (field_length fd) ≤ field_offset fd'.
Proof.
  intros Hfits Hlt Hfd. revert fd'.
  induction k' as [|m IH]; intros fd' Hfd'; [lia|].
  destruct (lookup_lt_is_Some_2 fs m) as [fdm Hfdm]; [apply lookup_lt_Some in Hfd'; lia|].
  rewrite (fits_next _ _ _ Hfits m fdm fd' Hfdm Hfd').
  destruct (decide (k = m)) as [->|Hne].
  - rewrite Hfd in Hfdm. injection Hfdm as <-. lia.
  - pose proof (IH ltac:(lia) fdm Hfdm). pose proof (u8_range (field_length fdm)). lia.
Qed.

(** The rows of a batch. *)
Lemma actual_rows_min (records start_row num_rows : Z) :
  0 ≤ start_row ≤ records → records < 2 ^ 32 → 0 ≤ num_rows →
  start_row + num_rows < 2 ^ 31 →
  (if decide (to_u32 (to_int (start_row + num_rows)) > records)
   then to_u32 (records - start_row) else to_u32 num_rows)
  = Z.min num_rows (records - start_row).
Proof.
  intros Hs Hr Hn Hsum. unfold to_int, to_u32.
  rewrite (Z.mod_small (start_row + num_rows + 2 ^ 31)) by lia.
  replace (start_row + num_rows + 2 ^ 31 - 2 ^ 31) with (start_row + num_rows) by lia.
  rewrite (Z.mod_small (start_row + num_rows)) by lia.
  case_decide; rewrite Z.mod_small by lia; lia.
Qed.

(** The record pointers of a batch. *)
Lemma record_pointers_lookup (h : DB_HEADER) (start_row rows : Z) (i : nat) p :
  0 ≤ start_row → 0 ≤ record_length h →
  (start_row + rows) * record_length h < 2 ^ 31 → start_row + rows < 2 ^ 31 →
  ((λ i, header_length h + to_int (to_int (start_row + i) * record_length h))
     <$> seqZ 0 rows) !! i = Some p
  ↔ Z.of_nat i < rows ∧ p = header_length h + (start_row + Z.of_nat i) * record_length h.
Proof.
  intros Hs Hrl Hprod Hsum. rewrite list_lookup_fmap.
  destruct (decide (Z.of_nat i < rows)) as [Hi|Hi].
  - rewrite lookup_seqZ_lt by done. simpl.
    assert (0 ≤ (start_row + Z.of_nat i) * record_length h < 2 ^ 31) by nia.
    unfold to_int. rewrite (Z.mod_small (start_row + (0 + Z.of_nat i) + 2 ^ 31)) by lia.
    replace (start_row + (0 + Z.of_nat i) + 2 ^ 31 - 2 ^ 31) with (start_row + Z.of_nat i)
      by lia.
    rewrite Z.mod_small by lia.
    split; [intros [= <-]; split; [done|lia]|intros [_ ->]; f_equal; lia].
  - rewrite lookup_seqZ_ge by lia. simpl. split; [done|]. intros [? _]. lia.
Qed.

(** ** The cells of a batch *)

Lemma to_int_range (z : Z) : INT32_MIN ≤ to_int z ≤ INT32_MAX.
Proof.
  unfold to_int, INT32_MIN, INT32_MAX.
  pose proof (Z.mod_pos_bound (z + 2 ^ 31) (2 ^ 32) ltac:(done)). lia.
Qed.

Lemma from_chars_int_ok lo hi s value0 r value :
  from_chars_int lo hi s value0 = (r, value) → ec r = errc_ok → lo ≤ value ≤ hi.
Proof.
  unfold from_chars_int.
  destruct (match s with x2d :: s' => (true, s') | _ => (false, s) end) as [neg body].
  repeat case_decide; intros [= <- <-]; simpl; intros; (done || lia).
Qed.

Lemma zslice_agree p n (b b' : list byte) :
  0 ≤ p → length b' = length b →
  (∀ j : nat, p ≤ Z.of_nat j < p + n → b' !! j = b !! j) →
  zslice p n b' = zslice p n b.
Proof.
  intros Hp Hlen Hsame. apply list_eq. intros i.
  destruct (decide (i < Z.to_nat n)%nat) as [Hi|Hi].
  - rewrite !lookup_zslice by done. apply Hsame. lia.
  - unfold zslice. rewrite !lookup_take_ge by lia. done.
Qed.

Section BatchCells.

Variable double : Type.
Variable fast_float_from_chars : list byte → double → from_chars_result * double.
Variable indeterminate_double : double.
Variable indeterminate_int : Z.
Variable iconv_open : string → bool.
Variable iconv : string → list byte → option (list byte).
Variable seconds_west : tm → Z.

Local Abbreviation text_value :=
  (text_value double fast_float_from_chars indeterminate_double indeterminate_int iconv
     seconds_west).
Local Abbreviation extract_cell :=
  (extract_cell double fast_float_from_chars indeterminate_double indeterminate_int
     iconv seconds_west).
Local Abbreviation extract_column :=
  (extract_column double fast_float_from_chars indeterminate_double indeterminate_int
     iconv seconds_west).
Local Abbreviation extract_columns :=
  (extract_columns double fast_float_from_chars indeterminate_double indeterminate_int
     iconv seconds_west).
Local Abbreviation create_arrow_batch :=
  (create_arrow_batch double fast_float_from_chars indeterminate_double indeterminate_int
     iconv_open iconv seconds_west).
Local Abbreviation field_cell :=
  (field_cell double fast_float_from_chars indeterminate_double indeterminate_int iconv
     seconds_west).
Local Abbreviation cell_has_type := (cell_has_type double).
Local Abbreviation Null := (Null double).

Lemma text_value_typed enc ty t v :
  text_value enc ty t = Some v → cell_has_type ty v = true.
Proof.
  unfold text_value, append_value. destruct ty.
  - erewrite bind_Some; [|apply (load_range_drop 0 t x00 []); done].
    destruct (is_ascii t); intros [= <-]; done.
  - erewrite bind_Some; [|apply (load_range_drop 0 t x00 []); done].
    destruct (fast_float_from_chars _ _) as [r d].
    case_decide; intros [= <-]; done.
  - erewrite bind_Some; [|apply (load_range_drop 0 t x00 []); done].
    destruct (from_chars_int _ _ _ _) as [r value] eqn:E.
    case_decide; intros [= <-]; [|done].
    simpl. apply bool_decide_eq_true. by eapply from_chars_int_ok.
  - erewrite bind_Some; [|apply (load_range_drop 0 t x00 []); done].
    destruct (from_chars_int _ _ _ _) as [r value] eqn:E.
    case_decide; intros [= <-]; [|done].
    simpl. apply bool_decide_eq_true. by eapply from_chars_int_ok.
  - erewrite bind_Some; [|apply (load_cstr_drop 0 t []); done].
    repeat case_match; intros [= <-]; try done.
    unfold cell_has_type. apply bool_decide_eq_true, to_int_range.
  - destruct t as [|c t].
    + erewrite bind_Some; [|apply (load_drop 0 x00 []); done]. intros [= <-]. done.
    + erewrite bind_Some; [|apply (load_drop 0 c (t ++ [x00])); done]. intros [= <-]. done.
  - intros [= <-]. done.
Qed.

Lemma field_cell_typed enc ty f : cell_has_type ty (field_cell enc ty f) = true.
Proof.
  unfold field_cell. destruct (strip isspace f) as [|c t]; [done|].
  case_decide; [done|].
  destruct (text_value enc ty (c :: t)) as [v|] eqn:E; [|done].
  simpl. by eapply text_value_typed.
Qed.

(** One pass of the row loop: the cell is a function of the bytes of the
    field, and the buffer keeps its length and every byte outside the
    field. *)
Lemma extract_cell_local enc ty p n (buf buf' : list byte) v :
  0 ≤ n → extract_cell enc ty p n buf = Some (v, buf') →
  (0 ≤ p ∧ p + n < Z.of_nat (length buf))
  ∧ v = field_cell enc ty (zslice p n buf)
  ∧ length buf' = length buf
  ∧ (∀ j : nat, Z.of_nat j < p ∨ p + n ≤ Z.of_nat j → buf' !! j = buf !! j).
Proof.
  intros Hn Hrun.
  destruct (extract_cell_bounds double fast_float_from_chars indeterminate_double
              indeterminate_int iconv seconds_west enc ty p n buf Hn ltac:(by eexists))
    as [Hp Hb].
  destruct (extract_cell_spec double fast_float_from_chars indeterminate_double
              indeterminate_int iconv seconds_west enc ty p n buf Hp Hn Hb) as (v' & Hv & Hval).
  cbv zeta in Hv, Hval. rewrite Hrun in Hv. injection Hv as <- ->.
  set (f := zslice p n buf) in *.
  assert (Hlen : Z.of_nat (length f) = n) by (apply length_zslice; lia).
  pose proof (strip_length isspace f) as Hsl.
  pose proof (leading_le isspace f) as Hll.
  split; [done|]. split; [|split].
  - unfold field_cell. destruct (strip isspace f) as [|c t]; [done|].
    case_decide; [done|]. by rewrite Hval.
  - case_decide; [done|]. apply length_insert.
  - intros j Hj. case_decide; [done|]. apply list_lookup_insert_ne. lia.
Qed.

(** The row loop for one column: when the fields of the records are
    disjoint, every cell is that of the bytes its field had before the
    loop. *)
Lemma extract_column_cells enc ty off len ptrs (buf buf' : list byte) vs :
  0 ≤ len →
  extract_column enc ty off len ptrs buf = Some (vs, buf') →
  (∀ i j p q, (i < j)%nat → ptrs !! i = Some p → ptrs !! j = Some q → p + len ≤ q) →
  length buf' = length buf
  ∧ length vs = length ptrs
  ∧ (∀ i p, ptrs !! i = Some p →
            vs !! i = Some (field_cell enc ty (zslice (p + off) len buf))
            ∧ 0 ≤ p + off ∧ p + off + len < Z.of_nat (length buf))
  ∧ (∀ j : nat, (∀ p, p ∈ ptrs → Z.of_nat j < p + off ∨ p + off + len ≤ Z.of_nat j) →
                buf' !! j = buf !! j).
Proof.
  intros Hlen. revert buf vs.
  induction ptrs as [|p ptrs IH]; intros buf vs Hrun Hsep; simpl in Hrun.
  { injection Hrun as <- <-. repeat split; try done. }
  unfold mbind, M_bind, bind in Hrun.
  destruct (extract_cell enc ty (p + off) len buf) as [[v buf1]|] eqn:Hcell; [|done].
  destruct (extract_column enc ty off len ptrs buf1) as [[vs' buf2]|] eqn:Hrest; [|done].
  injection Hrun as <- <-.
  destruct (extract_cell_local _ _ _ _ _ _ _ Hlen Hcell) as (Hb & Hv & Hl1 & Hout1).
  destruct (IH buf1 vs' Hrest) as (Hl2 & Hlv & Hcells & Hout2).
  { intros i j q r Hij Hq Hr. apply (Hsep (S i) (S j) q r); [lia|done|done]. }
  split; [congruence|]. split; [simpl; congruence|]. split.
  - intros [|i] q Hq; simpl in Hq.
    + injection Hq as <-. simpl. by rewrite Hv.
    + destruct (Hcells i q Hq) as (Hvi & Hq0 & Hq1). simpl.
      split; [|lia]. rewrite Hvi. do 2 f_equal.
      apply zslice_agree; [done|done|]. intros j Hj. apply Hout1.
      pose proof (Hsep 0%nat (S i) p q ltac:(lia) eq_refl Hq). lia.
  - intros j Hj. rewrite Hout2.
    + apply Hout1. apply (Hj p). by left.
    + intros q Hq. apply Hj. by right.
Qed.

Lemma extract_cell_defined enc ty p n (buf : list byte) :
  0 ≤ p → 0 ≤ n → p + n < Z.of_nat (length buf) →
  is_Some (extract_cell enc ty p n buf).
Proof.
  intros Hp Hn Hb.
  destruct (extract_cell_spec double fast_float_from_chars indeterminate_double
              indeterminate_int iconv seconds_west enc ty p n buf Hp Hn Hb) as (v & Hv & _).
  cbv zeta in Hv. rewrite Hv. by eexists.
Qed.

Lemma extract_column_defined enc ty off len ptrs (buf : list byte) :
  0 ≤ len →
  (∀ p, p ∈ ptrs → 0 ≤ p + off ∧ p + off + len < Z.of_nat (length buf)) →
  is_Some (extract_column enc ty off len ptrs buf).
Proof.
  intros Hlen. revert buf. induction ptrs as [|p ptrs IH]; intros buf Hin; simpl.
  { by eexists. }
  destruct (extract_cell_defined enc ty (p + off) len buf) as [[v buf1] Hcell];
    [apply Hin; by left|done|apply Hin; by left|].
  destruct (extract_cell_local _ _ _ _ _ _ _ Hlen Hcell) as (_ & _ & Hl1 & _).
  destruct (IH buf1) as [[vs buf2] Hrest].
  { intros q Hq. rewrite Hl1. apply Hin. by right. }
  unfold mbind, M_bind, bind. rewrite Hcell, Hrest. by eexists.
Qed.

(** The column loop on a table whose records are [rl] apart and whose
    fields lie in the record, one after the other: every cell is that of
    the bytes its field had before the loop, and the bytes outside the
    fields are kept. *)
Lemma extract_columns_cells enc fs ptrs rl schema :
  0 ≤ rl →
  (∀ i j p q, (i < j)%nat → ptrs !! i = Some p → ptrs !! j = Some q → p + rl ≤ q) →
  (∀ k fd, fs !! k = Some fd →
           0 ≤ field_offset fd < 2 ^ 64
           ∧ field_offset fd + u8 (field_length fd) ≤ rl) →
  (∀ k k' fd fd', (k < k')%nat → fs !! k = Some fd → fs !! k' = Some fd' →
                  field_offset fd + u8 (field_length fd) ≤ field_offset fd') →
  ∀ col (buf buf' : list byte) cols,
  extract_columns enc (Some fs) ptrs col schema buf = Some (cols, buf') →
  length buf' = length buf
  ∧ length cols = length schema
  ∧ (∀ k fld, schema !! k = Some fld →
       ∃ fd column,
         fs !! (col + k)%nat = Some fd ∧ cols !! k = Some column
         ∧ length column = length ptrs
         ∧ ∀ i p, ptrs !! i = Some p →
             column !! i
             = Some (field_cell enc (type_id fld)
                       (zslice (p + field_offset fd) (u8 (field_length fd)) buf))
             ∧ 0 ≤ p + field_offset fd
             ∧ p + field_offset fd + u8 (field_length fd) < Z.of_nat (length buf))
  ∧ (∀ j : nat,
       (∀ k fd p, (col ≤ k < col + length schema)%nat → fs !! k = Some fd → p ∈ ptrs →
                  Z.of_nat j < p + field_offset fd
                  ∨ p + field_offset fd + u8 (field_length fd) ≤ Z.of_nat j) →
       buf' !! j = buf !! j).
Proof.
  intros Hrl Hrows Hfit Hord.
  induction schema as [|fld schema IH]; intros col buf buf' cols Hrun; simpl in Hrun.
  { injection Hrun as <- <-. repeat split; try done. }
  destruct (fs !! col) as [fd|] eqn:Hfd; simpl in Hrun; [|done].
  unfold mbind, M_bind, bind in Hrun.
  destruct (Hfit col fd Hfd) as [Hoff Hin].
  pose proof (u8_range (field_length fd)) as Hlen.
  unfold to_size_t in Hrun. rewrite Z.mod_small in Hrun by lia.
  destruct (extract_column enc (type_id fld) (field_offset fd) (u8 (field_length fd))
              ptrs buf) as [[array buf1]|] eqn:Hcol; [|done].
  destruct (extract_columns enc (Some fs) ptrs (S col) schema buf1)
    as [[columns buf2]|] eqn:Hrest; [|done].
  injection Hrun as <- <-.
  destruct (extract_column_cells enc (type_id fld) (field_offset fd)
              (u8 (field_length fd)) ptrs buf buf1 array ltac:(lia) Hcol)
    as (Hl1 & Hla & Hcells & Hout1).
  { intros i j p q Hij Hp Hq. pose proof (Hrows i j p q Hij Hp Hq). lia. }
  destruct (IH (S col) buf1 buf2 columns Hrest) as (Hl2 & Hlc & Hcols & Hout2).
  (* the field of a later column is disjoint from the fields of this column *)
  assert (Hsep : ∀ k' fd' p q (j : nat),
            (col < k')%nat → fs !! k' = Some fd' → p ∈ ptrs → q ∈ ptrs →
            p + field_offset fd' ≤ Z.of_nat j
                                   < p + field_offset fd' + u8 (field_length fd') →
            Z.of_nat j < q + field_offset fd
            ∨ q + field_offset fd + u8 (field_length fd) ≤ Z.of_nat j).
  { intros k' fd' p q j Hk Hfd' Hp Hq Hj.
    destruct (Hfit k' fd' Hfd') as [Hoff' Hin'].
    pose proof (Hord col k' fd fd' Hk Hfd Hfd') as Hcc.
    apply list_elem_of_lookup in Hp as [i Hi]. apply list_elem_of_lookup in Hq as [i' Hi'].
    destruct (Nat.lt_total i i') as [Hlt|[->|Hgt]].
    - pose proof (Hrows i i' p q Hlt Hi Hi'). lia.
    - rewrite Hi in Hi'. injection Hi' as <-. lia.
    - pose proof (Hrows i' i q p Hgt Hi' Hi). lia. }
  split; [congruence|]. split; [simpl; congruence|]. split.
  - intros [|k] fld' Hfld'; simpl in Hfld'.
    + injection Hfld' as <-. exists fd, array. rewrite Nat.add_0_r.
      split; [done|]. split; [done|]. split; [done|]. exact Hcells.
    + destruct (Hcols k fld' Hfld') as (fd' & column & Hfd' & Hcolumn & Hlcol & Hcell).
      exists fd', column.
      replace (col + S k)%nat with (S col + k)%nat by lia.
      split; [done|]. split; [done|]. split; [done|].
      intros i p Hp. destruct (Hcell i p Hp) as (Hv & Hp0 & Hp1).
      split; [|lia]. rewrite Hv. do 2 f_equal.
      apply zslice_agree; [done|done|]. intros j Hj. apply Hout1.
      intros q Hq. apply (Hsep (S col + k)%nat fd' p q j); try done; [lia|].
      by eapply list_elem_of_lookup_2.
  - intros j Hj. rewrite Hout2.
    + apply Hout1. intros p Hp. apply (Hj col fd p); [simpl; lia|done|done].
    + intros k fd' p Hk Hfd' Hp. apply (Hj k fd' p); [simpl; lia|done|done].
Qed.

Lemma extract_columns_defined enc fs ptrs schema :
  ∀ col (buf : list byte),
  (∀ k, (k < length schema)%nat →
        ∃ fd, fs !! (col + k)%nat = Some fd
              ∧ 0 ≤ field_offset fd < 2 ^ 64
              ∧ ∀ p, p ∈ ptrs →
                     0 ≤ p + field_offset fd
                     ∧ p + field_offset fd + u8 (field_length fd)
                       < Z.of_nat (length buf)) →
  is_Some (extract_columns enc (Some fs) ptrs col schema buf).
Proof.
  induction schema as [|fld schema IH]; intros col buf Hin; simpl.
  { by eexists. }
  destruct (Hin 0%nat ltac:(simpl; lia)) as (fd & Hfd & Hoff & Hb).
  rewrite Nat.add_0_r in Hfd. rewrite Hfd. simpl.
  pose proof (u8_range (field_length fd)) as Hlen.
  unfold to_size_t. rewrite Z.mod_small by lia.
  destruct (extract_column_defined enc (type_id fld) (field_offset fd)
              (u8 (field_length fd)) ptrs buf ltac:(lia) Hb) as [[array buf1] Hcol].
  destruct (extract_column_spec double fast_float_from_chars indeterminate_double
              indeterminate_int iconv seconds_west enc (type_id fld) (field_offset fd)
              (u8 (field_length fd)) ptrs buf buf1 array ltac:(lia) Hcol)
    as ([Hl1 _] & _).
  destruct (IH (S col) buf1) as [[columns buf2] Hrest].
  { intros k Hk. destruct (Hin (S k) ltac:(simpl; lia)) as (fd' & Hfd' & Hoff' & Hb').
    exists fd'. replace (S col + k)%nat with (col + S k)%nat by lia.
    split; [done|]. split; [done|]. by rewrite Hl1. }
  unfold mbind, M_bind, bind. rewrite Hcol, Hrest. by eexists.
Qed.

(** [create_arrow_batch] on a table that fits its buffer: the call has a
    result, the batch has the rows from [start_row] on that the table
    holds, at most [num_rows], every cell is that of the bytes of its
    field before the call, and the call keeps every byte outside the
    records of the batch. *)
Lemma create_arrow_batch_fits (dbf : DBF) h fs schema start_row num_rows :
  table_fits dbf h fs → (length schema ≤ length fs)%nat →
  0 ≤ start_row ≤ records h → 0 ≤ num_rows → start_row + num_rows < 2 ^ 31 →
  iconv_open (encoding dbf) = true →
  let rows := Z.min num_rows (records h - start_row) in
  ∃ columns dbf',
    create_arrow_batch dbf schema start_row num_rows
    = Some (RecordBatch double schema rows columns, dbf')
    ∧ table_fits dbf' h fs ∧ encoding dbf' = encoding dbf
    ∧ length (mem_buffer dbf') = length (mem_buffer dbf)
    ∧ length columns = length schema
    ∧ (∀ k fld, schema !! k = Some fld →
         ∃ fd column,
           fs !! k = Some fd ∧ columns !! k = Some column
           ∧ Z.of_nat (length column) = rows
           ∧ ∀ i : nat, Z.of_nat i < rows →
               column !! i
               = Some (field_cell (encoding dbf) (type_id fld)
                         (field_bytes h fd (start_row + Z.of_nat i) (mem_buffer dbf))))
    ∧ (∀ j : nat,
         ¬ (header_length h + start_row * record_length h ≤ Z.of_nat j
            < header_length h + (start_row + rows) * record_length h) →
         mem_buffer dbf' !! j = mem_buffer dbf !! j)
    ∧ (∀ row k fd, fs !! k = Some fd → 0 ≤ row →
         ¬ (start_row ≤ row < start_row + rows) →
         field_bytes h fd row (mem_buffer dbf') = field_bytes h fd row (mem_buffer dbf)).
Proof.
  intros Hfits Hschema Hstart Hnum Hsum Hopen rows.
  pose proof (fits_header _ _ _ Hfits) as Hh.
  pose proof (fits_fields _ _ _ Hfits) as Hfs.
  pose proof (fits_header_length _ _ _ Hfits) as Hhl.
  pose proof (fits_record_length _ _ _ Hfits) as Hrl.
  pose proof (fits_records _ _ _ Hfits) as Hrec.
  pose proof (fits_int _ _ _ Hfits) as Hint.
  pose proof (fits_buffer _ _ _ Hfits) as Hbuf.
  assert (Hrows : 0 ≤ rows ≤ records h - start_row) by (unfold rows; lia).
  assert (Hprod : (start_row + rows) * record_length h < 2 ^ 31) by nia.
  unfold create_arrow_batch. rewrite Hh. simpl.
  rewrite actual_rows_min by lia. fold rows. rewrite Hopen, Hfs.
  set (ptrs := (λ i, header_length h + to_int (to_int (start_row + i) * record_length h))
                 <$> seqZ 0 rows).
  assert (Hptrs : ∀ i p, ptrs !! i = Some p
            ↔ Z.of_nat i < rows
              ∧ p = header_length h + (start_row + Z.of_nat i) * record_length h).
  { intros i p. apply record_pointers_lookup; lia. }
  assert (Hlp : length ptrs = Z.to_nat rows).
  { unfold ptrs. by rewrite length_fmap, length_seqZ. }
  assert (Hin : ∀ p, p ∈ ptrs →
            header_length h + start_row * record_length h ≤ p
            ∧ p + record_length h ≤ header_length h + (start_row + rows) * record_length h).
  { intros p Hp. apply list_elem_of_lookup in Hp as [i Hi]. apply Hptrs in Hi as [Hi ->].
    nia. }
  destruct (extract_columns_defined (encoding dbf) fs ptrs schema 0 (mem_buffer dbf))
    as [[columns buf'] Hrun].
  { intros k Hk. destruct (lookup_lt_is_Some_2 fs k) as [fd Hfd]; [lia|].
    destruct (table_fits_offset dbf h fs k fd Hfits Hfd) as [Hrecord Hoff].
    pose proof (u8_range (field_length fd)).
    exists fd. split; [done|]. split; [lia|].
    intros p Hp. apply Hin in Hp. nia. }
  rewrite Hrun. simpl.
  destruct (extract_columns_cells (encoding dbf) fs ptrs (record_length h) schema
              ltac:(lia)) with (col := 0%nat) (buf := mem_buffer dbf) (buf' := buf')
              (cols := columns) as (Hlen & Hlc & Hcells & Hout); [| | |exact Hrun|].
  { intros i j p q Hij Hp Hq. apply Hptrs in Hp as [_ ->]. apply Hptrs in Hq as [_ ->]. nia. }
  { intros k fd Hfd. destruct (table_fits_offset dbf h fs k fd Hfits Hfd).
    pose proof (u8_range (field_length fd)). lia. }
  { intros k k' fd fd'. by apply (table_fits_ordered dbf h fs). }
  assert (Houtside : ∀ j : nat,
            ¬ (header_length h + start_row * record_length h ≤ Z.of_nat j
               < header_length h + (start_row + rows) * record_length h) →
            buf' !! j = mem_buffer dbf !! j).
  { intros j Hj. apply Hout. intros k fd p _ Hfd Hp.
    apply Hin in Hp.
    destruct (table_fits_offset dbf h fs k fd Hfits Hfd).
    pose proof (u8_range (field_length fd)). lia. }
  eexists _, _. split; [reflexivity|].
  split; [|split; [done|split; [done|split; [done|split; [|split]]]]].
  - destruct Hfits. constructor; simpl; try done. by rewrite Hlen.
  - intros k fld Hfld.
    destruct (Hcells k fld Hfld) as (fd & column & Hfd & Hcolumn & Hlcol & Hcell).
    exists fd, column. split; [done|]. split; [done|]. split; [lia|].
    intros i Hi. destruct (Hcell i _ (proj2 (Hptrs i _) (conj Hi eq_refl))) as [Hv _].
    exact Hv.
  - exact Houtside.
  - simpl. intros row k fd Hfd Hrow Hother. unfold field_bytes.
    destruct (table_fits_offset dbf h fs k fd Hfits Hfd) as [Hrecord Hoff].
    pose proof (u8_range (field_length fd)).
    apply zslice_agree; [nia|done|]. intros j Hj. apply Houtside.
    destruct (decide (row < start_row)).
    + assert ((row + 1) * record_length h ≤ start_row * record_length h)
        by (apply Z.mul_le_mono_nonneg_r; lia).
      lia.
    + assert ((start_row + rows) * record_length h ≤ row * record_length h)
        by (apply Z.mul_le_mono_nonneg_r; lia).
      lia.
Qed.

Lemma extract_column_typed enc ty off len ptrs (buf buf' : list byte) vs :
  0 ≤ len → extract_column enc ty off len ptrs buf = Some (vs, buf') →
  length vs = length ptrs ∧ Forall (λ v, cell_has_type ty v = true) vs.
Proof.
  intros Hlen. revert buf vs.
  induction ptrs as [|p ptrs IH]; intros buf vs Hrun; simpl in Hrun.
  { by injection Hrun as <- <-. }
  unfold mbind, M_bind, bind in Hrun.
  destruct (extract_cell enc ty (p + off) len buf) as [[v buf1]|] eqn:Hcell; [|done].
  destruct (extract_column enc ty off len ptrs buf1) as [[vs' buf2]|] eqn:Hrest; [|done].
  injection Hrun as <- <-.
  destruct (extract_cell_local _ _ _ _ _ _ _ Hlen Hcell) as (_ & -> & _).
  destruct (IH buf1 vs' Hrest) as [Hl Hty].
  split; [simpl; congruence|]. constructor; [apply field_cell_typed|done].
Qed.

Lemma extract_columns_typed enc fs ptrs schema :
  ∀ col (buf buf' : list byte) cols,
  extract_columns enc fs ptrs col schema buf = Some (cols, buf') →
  Forall2 (λ fld column, length column = length ptrs
                         ∧ Forall (λ v, cell_has_type (type_id fld) v = true) column)
    schema cols.
Proof.
  induction schema as [|fld schema IH]; intros col buf buf' cols Hrun; simpl in Hrun.
  { injection Hrun as <- <-. constructor. }
  destruct (fs ≫= (.!! col)) as [fd|]; [|done].
  unfold mbind, M_bind, bind in Hrun.
  destruct (extract_column enc (type_id fld) _ _ ptrs buf) as [[array buf1]|] eqn:Hcol;
    [|done].
  destruct (extract_columns enc fs ptrs (S col) schema buf1)
    as [[columns buf2]|] eqn:Hrest; [|done].
  injection Hrun as <- <-. constructor.
  - eapply extract_column_typed; [|exact Hcol]. pose proof (u8_range (field_length fd)). lia.
  - by eapply IH.
Qed.

(** X16. Every batch that [create_arrow_batch] returns is well formed: it has
    the schema of the call, one column for every field of the schema,
    every column has as many cells as the batch has rows, and every cell
    is null or a value of the type of its column, within the range of the
    type. When [iconv_open] fails the result is the error and the table
    is as before. *)
Theorem batch_is_well_formed (dbf dbf' : DBF) schema start_row num_rows result :
  create_arrow_batch dbf schema start_row num_rows = Some (result, dbf') →
  if iconv_open (encoding dbf) then
    ∃ rows columns,
      result = RecordBatch double schema rows columns
      ∧ 0 ≤ rows < 2 ^ 32
      ∧ Forall2 (λ fld column,
                   Z.of_nat (length column) = rows
                   ∧ Forall (λ v, cell_has_type (type_id fld) v = true) column)
          schema columns
  else
    result = Invalid double "Failed to initialize encoding conversion (iconv_open)."
    ∧ dbf' = dbf.
Proof.
  unfold create_arrow_batch. destruct (header dbf) as [h|]; [|done]. simpl.
  destruct (iconv_open (encoding dbf)).
  - match goal with
    | |- context [seqZ 0 ?n] => set (rows := n)
    end.
    assert (Hrows : 0 ≤ rows < 2 ^ 32).
    { unfold rows, to_u32. case_decide; apply Z.mod_pos_bound; done. }
    destruct (extract_columns _ _ _ _ _ _) as [[columns buf']|] eqn:Hrun; [|done].
    simpl. intros [= <- <-]. exists rows, columns. split; [done|]. split; [done|].
    apply extract_columns_typed in Hrun.
    eapply Forall2_impl; [exact Hrun|]. intros fld column [Hl Hty]. split; [|done].
    rewrite Hl, length_fmap, length_seqZ. lia.
  - by intros [= <- <-].
Qed.

(** X17. On a table that fits its buffer, [create_arrow_batch] has a result
    for every range of rows that starts inside the table: the batch holds
    the rows from [start_row] on, at most [num_rows] and at most those the
    table has, and the cell of every column and row is that of the bytes
    which the field of the record had before the call, whatever the
    extraction of the other cells has written. *)
Theorem batch_of_fitting_table (dbf : DBF) h fs schema start_row num_rows :
  table_fits dbf h fs → (length schema ≤ length fs)%nat →
  0 ≤ start_row ≤ records h → 0 ≤ num_rows → start_row + num_rows < 2 ^ 31 →
  iconv_open (encoding dbf) = true →
  let rows := Z.min num_rows (records h - start_row) in
  ∃ columns dbf',
    create_arrow_batch dbf schema start_row num_rows
    = Some (RecordBatch double schema rows columns, dbf')
    ∧ length columns = length schema
    ∧ ∀ k fld, schema !! k = Some fld →
        ∃ fd column,
          fs !! k = Some fd ∧ columns !! k = Some column
          ∧ Z.of_nat (length column) = rows
          ∧ ∀ i : nat, Z.of_nat i < rows →
              column !! i
              = Some (field_cell (encoding dbf) (type_id fld)
                        (field_bytes h fd (start_row + Z.of_nat i) (mem_buffer dbf))).
Proof.
  intros Hfits Hschema Hstart Hnum Hsum Hopen rows.
  destruct (create_arrow_batch_fits dbf h fs schema start_row num_rows
              Hfits Hschema Hstart Hnum Hsum Hopen)
    as (columns & dbf' & Hrun & _ & _ & _ & Hlen & Hcells & _ & _).
  by exists columns, dbf'.
Qed.

(** X18. On a table that fits its buffer, [create_arrow_batch] leaves a table
    that fits its buffer, with the same header, catalog and encoding, and
    it keeps every byte outside the records of the batch: the fields of
    all other records are as before. *)
Theorem batch_keeps_other_records (dbf dbf' : DBF) h fs schema start_row num_rows result :
  table_fits dbf h fs → (length schema ≤ length fs)%nat →
  0 ≤ start_row ≤ records h → 0 ≤ num_rows → start_row + num_rows < 2 ^ 31 →
  iconv_open (encoding dbf) = true →
  create_arrow_batch dbf schema start_row num_rows = Some (result, dbf') →
  let rows := Z.min num_rows (records h - start_row) in
  table_fits dbf' h fs ∧ encoding dbf' = encoding dbf
  ∧ (∀ j : nat,
       ¬ (header_length h + start_row * record_length h ≤ Z.of_nat j
          < header_length h + (start_row + rows) * record_length h) →
       mem_buffer dbf' !! j = mem_buffer dbf !! j)
  ∧ (∀ row k fd, fs !! k = Some fd → 0 ≤ row → ¬ (start_row ≤ row < start_row + rows) →
       field_bytes h fd row (mem_buffer dbf') = field_bytes h fd row (mem_buffer dbf)).
Proof.
  intros Hfits Hschema Hstart Hnum Hsum Hopen Hrun rows.
  destruct (create_arrow_batch_fits dbf h fs schema start_row num_rows
              Hfits Hschema Hstart Hnum Hsum Hopen)
    as (columns & dbf1 & Hrun1 & Hfits1 & Henc & _ & _ & _ & Hout & Hfields).
  rewrite Hrun in Hrun1. injection Hrun1 as -> ->. done.
Qed.

Lemma extract_column_bounds enc ty off len ptrs (buf buf' : list byte) vs :
  0 ≤ len → extract_column enc ty off len ptrs buf = Some (vs, buf') →
  ∀ p, p ∈ ptrs → 0 ≤ p + off ∧ p + off + len < Z.of_nat (length buf).
Proof.
  intros Hlen. revert buf vs.
  induction ptrs as [|p ptrs IH]; intros buf vs Hrun q Hq; simpl in Hrun.
  { by apply elem_of_nil in Hq. }
  unfold mbind, M_bind, bind in Hrun.
  destruct (extract_cell enc ty (p + off) len buf) as [[v buf1]|] eqn:Hcell; [|done].
  destruct (extract_column enc ty off len ptrs buf1) as [[vs' buf2]|] eqn:Hrest; [|done].
  injection Hrun as <- <-.
  destruct (extract_cell_local _ _ _ _ _ _ _ Hlen Hcell) as (Hb & _ & Hl1 & _).
  apply elem_of_cons in Hq as [->|Hq]; [done|].
  rewrite <- Hl1. by eapply IH.
Qed.

Lemma extract_columns_bounds enc fs ptrs schema :
  ∀ col (buf buf' : list byte) cols,
  extract_columns enc (Some fs) ptrs col schema buf = Some (cols, buf') →
  ∀ k fd p, (k < length schema)%nat → fs !! (col + k)%nat = Some fd → p ∈ ptrs →
    0 ≤ p + to_size_t (field_offset fd)
    ∧ p + to_size_t (field_offset fd) + u8 (field_length fd) < Z.of_nat (length buf).
Proof.
  induction schema as [|fld schema IH]; intros col buf buf' cols Hrun k fd p Hk Hfd Hp;
    simpl in *; [lia|].
  destruct (fs !! col) as [fd0|] eqn:Hfd0; simpl in Hrun; [|done].
  unfold mbind, M_bind, bind in Hrun.
  destruct (extract_column enc (type_id fld) _ _ ptrs buf) as [[array buf1]|] eqn:Hcol;
    [|done].
  destruct (extract_columns enc (Some fs) ptrs (S col) schema buf1)
    as [[columns buf2]|] eqn:Hrest; [|done].
  injection Hrun as <- <-.
  pose proof (u8_range (field_length fd0)) as Hlen0.
  destruct k as [|k].
  - rewrite Nat.add_0_r, Hfd0 in Hfd. injection Hfd as <-.
    by eapply extract_column_bounds; [|exact Hcol|]; [lia|].
  - destruct (extract_column_spec double fast_float_from_chars indeterminate_double
                indeterminate_int iconv seconds_west enc (type_id fld)
                (to_size_t (field_offset fd0)) (u8 (field_length fd0)) ptrs buf buf1 array
                ltac:(lia) Hcol) as ([Hl1 _] & _).
    rewrite <- Hl1. apply (IH (S col) buf1 buf2 columns Hrest k fd p); [lia| |done].
    by replace (S col + k)%nat with (col + S k)%nat by lia.
Qed.

(** X19. Every cell of a batch needs one byte after its field: whenever
    [create_arrow_batch] returns a batch, each field of each record of the
    batch lies inside the buffer together with the byte that follows it.
    For a buffer that ends with the last byte of a field, the extraction
    of that field has no defined result. *)
Theorem batch_needs_the_byte_after_a_field (dbf dbf' : DBF) schema start_row num_rows
    rows columns h fs (k : nat) fd (i : Z) :
  create_arrow_batch dbf schema start_row num_rows
  = Some (RecordBatch double schema rows columns, dbf') →
  header dbf = Some h → fields dbf = Some fs →
  (k < length schema)%nat → fs !! k = Some fd → 0 ≤ i < rows →
  let field_data := header_length h
                    + to_int (to_int (start_row + i) * record_length h)
                    + to_size_t (field_offset fd) in
  0 ≤ field_data
  ∧ field_data + u8 (field_length fd) < Z.of_nat (length (mem_buffer dbf)).
Proof.
  intros Hrun Hh Hfs Hk Hfd Hi. unfold create_arrow_batch in Hrun.
  rewrite Hh in Hrun. simpl in Hrun.
  destruct (iconv_open (encoding dbf)); [|done]. rewrite Hfs in Hrun.
  match type of Hrun with
  | context [seqZ 0 ?n] => set (actual_rows := n) in *
  end.
  destruct (extract_columns _ _ _ _ _ _) as [[cols buf']|] eqn:Hcols; [|done].
  simpl in Hrun. injection Hrun as <- <- <-.
  apply (extract_columns_bounds _ _ _ _ _ _ _ _ Hcols k fd); [done|done|].
  apply list_elem_of_lookup. exists (Z.to_nat i).
  rewrite list_lookup_fmap, lookup_seqZ_lt by lia. simpl.
  by replace (0 + Z.of_nat (Z.to_nat i)) with i by lia.
Qed.

End BatchCells.

(** ** The schema *)

Lemma create_schema_loop_spec n i fs sch :
  create_schema_loop n i fs = Some sch →
  length sch = n
  ∧ ∀ k fld, sch !! k = Some fld →
      ∃ f, fs !! (i + k)%nat = Some f
           ∧ x00 ∈ DB_FIELD_bytes f
           ∧ name fld = takewhile nonzero (DB_FIELD_bytes f)
           ∧ type_id fld = schema_type f.
Proof.
  revert i sch. induction n as [|n IH]; intros i sch; simpl.
  { intros [= <-]. split; [done|]. by intros [|k] fld. }
  destruct (fs !! i) as [f|] eqn:Hf; simpl; [|done].
  case_guard as Hnul; simpl; [|done].
  destruct (create_schema_loop n (S i) fs) as [rest|] eqn:Hrest; simpl; [|done].
  intros [= <-]. destruct (IH (S i) rest Hrest) as [Hlen Hrestk].
  split; [simpl; by rewrite Hlen|].
  intros [|k] fld; simpl.
  - intros [= <-]. exists f. rewrite Nat.add_0_r. done.
  - intros Hk. destruct (Hrestk k fld Hk) as (g & Hg & Hgs).
    exists g. replace (i + S k)%nat with (S i + k)%nat by lia. done.
Qed.

Lemma create_schema_length (dbf : DBF) fs schema :
  fields dbf = Some fs → create_schema dbf = Some schema →
  (length schema ≤ length fs)%nat.
Proof.
  intros Hfs. unfold create_schema.
  destruct (dbf_NumCols dbf) as [cols|]; simpl; [|done].
  case_decide; [intros [= <-]; simpl; lia|].
  rewrite Hfs. simpl. intros Hloop.
  destruct (create_schema_loop_spec _ _ _ _ Hloop) as [Hlen Hk].
  destruct schema as [|fld schema] using rev_ind; [simpl; lia|].
  destruct (Hk (length schema) fld) as (f & Hf & _).
  { by apply list_lookup_middle. }
  apply lookup_lt_Some in Hf. rewrite length_app. simpl in *. lia.
Qed.

Lemma takewhile_app_Forall p l r :
  Forall (λ c, p c = true) l → takewhile p (l ++ r) = l ++ takewhile p r.
Proof. induction 1 as [|c l Hc _ IH]; simpl; [done|]. by rewrite Hc, IH. Qed.

Lemma schema_type_not_OTHER f : schema_type f ≠ OTHER.
Proof. unfold schema_type. repeat case_match; done. Qed.

(** X20. The schema that [create_schema] builds has one field for every column
    that [dbf_NumCols] counts, in the order of the catalog. The type of a
    field is never outside the six types that [create_arrow_batch]
    converts, a field type other than C, N, D and L giving a string
    column. The name of a field is the name of the descriptor up to its
    first NUL; a name that fills all 11 bytes has no terminator, and the
    name of the field then runs on into the type byte of the descriptor. *)
Theorem schema_of_catalog (dbf : DBF) fs schema :
  fields dbf = Some fs → create_schema dbf = Some schema →
  dbf_NumCols dbf = Some (Z.of_nat (length schema))
  ∧ ∀ k fld, schema !! k = Some fld →
      ∃ f, fs !! k = Some f
           ∧ type_id fld = schema_type f ∧ type_id fld ≠ OTHER
           ∧ (field_type f ∉ bytes "CNDL" → type_id fld = STRING)
           ∧ (x00 ∈ field_name f → name fld = takewhile nonzero (field_name f))
           ∧ (x00 ∉ field_name f → field_type f ≠ x00 →
              ∃ more, name fld = field_name f ++ field_type f :: more).
Proof.
  intros Hfs. unfold create_schema.
  destruct (dbf_NumCols dbf) as [cols|] eqn:Hcols; simpl; [|done].
  assert (0 ≤ cols).
  { unfold dbf_NumCols in Hcols. destruct (header dbf); [|done]. simpl in Hcols.
    injection Hcols as <-. case_decide; [|done]. unfold to_u32. apply Z.mod_pos_bound. done. }
  case_decide as Hzero.
  { intros [= <-]. split; [by rewrite Hzero|]. by intros [|k] fld. }
  rewrite Hfs. simpl. intros Hloop.
  destruct (create_schema_loop_spec _ _ _ _ Hloop) as [Hlen Hk].
  split; [f_equal; lia|].
  intros k fld Hfld. destruct (Hk k fld Hfld) as (f & Hf & Hnul & Hname & Htype).
  exists f. split; [done|]. split; [done|].
  split; [rewrite Htype; apply schema_type_not_OTHER|]. split; [|split].
  - intros Hother. rewrite Htype. unfold schema_type.
    change (bytes "CNDL") with [x43; x4e; x44; x4c] in Hother.
    rewrite !elem_of_cons, elem_of_nil in Hother.
    destruct (field_type f); try done; tauto.
  - intros Hin. rewrite Hname. unfold DB_FIELD_bytes.
    apply list_elem_of_split in Hin as (l & r & ->). rewrite <- app_assoc. simpl.
    by rewrite !takewhile_app_stop.
  - intros Hnot Hty. rewrite Hname. unfold DB_FIELD_bytes.
    rewrite takewhile_app_Forall.
    + simpl. unfold nonzero at 1. rewrite bool_decide_eq_false_2 by done. simpl.
      by eexists.
    + apply Forall_forall. intros c Hc. unfold nonzero.
      apply negb_true_iff, bool_decide_eq_false. by intros ->.
Qed.

(** ** The writer *)

Lemma batches_count (d bs : Z) :
  1 ≤ bs → 0 < d →
  1 + (Z.max 0 (d - bs) + bs - 1) `div` bs = (Z.max 0 d + bs - 1) `div` bs.
Proof.
  intros Hbs Hd. destruct (decide (bs ≤ d)) as [Hle|Hlt].
  - rewrite !Z.max_r by lia.
    replace (d + bs - 1) with (d - bs + bs - 1 + 1 * bs) by lia.
    rewrite Z.div_add by lia. lia.
  - rewrite Z.max_l by lia. rewrite Z.max_r by lia.
    rewrite (Z.div_small (0 + bs - 1)) by lia.
    apply (Z.div_unique _ _ _ (d - 1)); lia.
Qed.

Lemma row_in_later_batch (r start bs : Z) :
  1 ≤ bs → start + bs ≤ r →
  (r - start) `div` bs = 1 + (r - (start + bs)) `div` bs
  ∧ (r - start) `mod` bs = (r - (start + bs)) `mod` bs
  ∧ 0 ≤ (r - (start + bs)) `div` bs.
Proof.
  intros Hbs Hr.
  replace (r - start) with (r - (start + bs) + 1 * bs) by lia.
  rewrite Z.div_add, Z.mod_add by lia.
  split; [lia|]. split; [done|]. apply Z.div_pos; lia.
Qed.

Section WriterProperties.

Variable double : Type.
Variable fast_float_from_chars : list byte → double → from_chars_result * double.
Variable indeterminate_double : double.
Variable indeterminate_int : Z.
Variable iconv_open : string → bool.
Variable iconv : string → list byte → option (list byte).
Variable seconds_west : tm → Z.
Variable sink : list (SinkOp double) → SinkOp double → Status.

Local Abbreviation create_arrow_batch :=
  (create_arrow_batch double fast_float_from_chars indeterminate_double indeterminate_int
     iconv_open iconv seconds_west).
Local Abbreviation field_cell :=
  (field_cell double fast_float_from_chars indeterminate_double indeterminate_int iconv
     seconds_west).
Local Abbreviation write_batches :=
  (write_batches double fast_float_from_chars indeterminate_double indeterminate_int
     iconv_open iconv seconds_west sink).
Local Abbreviation write_parquet :=
  (write_parquet double fast_float_from_chars indeterminate_double indeterminate_int
     iconv_open iconv seconds_west sink).
Local Abbreviation OpenFile := (OpenFile double).
Local Abbreviation OpenWriter := (OpenWriter double).
Local Abbreviation WriteRecordBatch := (WriteRecordBatch double).
Local Abbreviation CloseWriter := (CloseWriter double).
Local Abbreviation CloseFile := (CloseFile double).

(** The batch loop on a table that fits its buffer, with a sink that
    accepts every operation: from row [start] on, every row of the table
    goes into one batch, in order. *)
Lemma write_batches_fits h fs schema batch_size :
  (∀ ops op, sink ops op = OK) →
  1 ≤ batch_size → records h + batch_size < 2 ^ 31 →
  ∀ fuel (dbf : DBF) start ops,
  table_fits dbf h fs → (length schema ≤ length fs)%nat →
  iconv_open (encoding dbf) = true →
  0 ≤ start < 2 ^ 31 → Z.max 0 (records h - start) < Z.of_nat fuel →
  ∃ batches dbf',
    write_batches fuel dbf schema batch_size start ops = Some (OK, ops ++ batches, dbf')
    ∧ table_fits dbf' h fs ∧ encoding dbf' = encoding dbf
    ∧ Z.of_nat (length batches)
      = (Z.max 0 (records h - start) + batch_size - 1) `div` batch_size
    ∧ (∀ (j : nat) op, batches !! j = Some op →
         ∃ columns,
           op = WriteRecordBatch schema
                  (Z.min batch_size (records h - start - Z.of_nat j * batch_size)) columns
           ∧ length columns = length schema)
    ∧ (∀ r k fld fd, start ≤ r < records h → schema !! k = Some fld → fs !! k = Some fd →
         ∃ rows columns column,
           batches !! Z.to_nat ((r - start) `div` batch_size)
           = Some (WriteRecordBatch schema rows columns)
           ∧ columns !! k = Some column
           ∧ column !! Z.to_nat ((r - start) `mod` batch_size)
             = Some (field_cell (encoding dbf) (type_id fld)
                       (field_bytes h fd r (mem_buffer dbf)))).
Proof.
  intros Hsink Hbs Hint.
  induction fuel as [|fuel IH]; intros dbf start ops Hfits Hschema Hopen Hstart Hfuel;
    [lia|].
  pose proof (fits_header _ _ _ Hfits) as Hh.
  pose proof (fits_records _ _ _ Hfits) as Hrec.
  simpl. rewrite Hh. simpl.
  destruct (decide (start < records h)) as [Hlt|Hge].
  - unfold to_u32. rewrite Z.mod_small by lia. rewrite decide_True by done.
    destruct (create_arrow_batch_fits double fast_float_from_chars indeterminate_double
                indeterminate_int iconv_open iconv seconds_west dbf h fs schema start
                batch_size Hfits Hschema ltac:(lia) ltac:(lia) ltac:(lia) Hopen)
      as (columns & dbf1 & Hrun & Hfits1 & Henc & _ & Hlc & Hcells & _ & Hother).
    set (rows := Z.min batch_size (records h - start)) in *.
    rewrite Hrun. simpl. rewrite Hsink. simpl.
    rewrite decide_True by (unfold INT32_MIN, INT32_MAX; lia).
    destruct (IH dbf1 (start + batch_size) (ops ++ [WriteRecordBatch schema rows columns])
                Hfits1 Hschema ltac:(by rewrite Henc) ltac:(lia) ltac:(lia))
      as (batches & dbf' & Hloop & Hfits' & Henc' & Hlen & Hops & Hrest).
    exists (WriteRecordBatch schema rows columns :: batches), dbf'.
    split; [by rewrite Hloop, <- app_assoc|]. split; [done|]. split; [congruence|].
    split; [|split].
    + simpl length. rewrite Nat2Z.inj_succ, Hlen.
      replace (records h - (start + batch_size)) with (records h - start - batch_size)
        by lia.
      pose proof (batches_count (records h - start) batch_size Hbs ltac:(lia)). lia.
    + intros [|j] op; simpl.
      * intros [= <-]. exists columns. split; [|done]. f_equal. unfold rows. lia.
      * intros Hop. destruct (Hops j op Hop) as (cols & -> & Hl).
        exists cols. split; [|done]. f_equal. f_equal. lia.
    + intros r k fld fd Hr Hfld Hfd.
      destruct (decide (r < start + batch_size)) as [Hfirst|Hlater].
      * rewrite Z.div_small, Z.mod_small by lia. simpl.
        destruct (Hcells k fld Hfld) as (fd' & column & Hfd' & Hcolumn & _ & Hcell).
        rewrite Hfd in Hfd'. injection Hfd' as <-.
        exists rows, columns, column. split; [done|]. split; [done|].
        rewrite Hcell by (unfold rows; lia). do 3 f_equal. lia.
      * destruct (row_in_later_batch r start batch_size Hbs ltac:(lia))
          as (Hdiv & Hmod & Hpos).
        destruct (Hrest r k fld fd ltac:(lia) Hfld Hfd)
          as (rows' & columns' & column' & Hbatch & Hcolumn' & Hcell').
        exists rows', columns', column'. rewrite Hdiv, Hmod.
        replace (Z.to_nat (1 + (r - (start + batch_size)) `div` batch_size))
          with (S (Z.to_nat ((r - (start + batch_size)) `div` batch_size))) by lia.
        split; [done|]. split; [done|]. rewrite Hcell', Henc.
        do 2 f_equal. apply (Hother r k fd Hfd); unfold rows; lia.
  - unfold to_u32. rewrite Z.mod_small by lia. rewrite decide_False by done.
    exists [], dbf. rewrite app_nil_r. split; [done|]. split; [done|]. split; [done|].
    split; [|split].
    + rewrite Z.max_l by lia. simpl. symmetry. apply Z.div_small. lia.
    + by intros [|j] op.
    + intros r k fld fd Hr. lia.
Qed.

(** On such a table [write_parquet] returns OK, with the operations in
    their order. *)
Lemma write_parquet_ok (dbf : DBF) h fs schema path batch_size fuel :
  (∀ ops op, sink ops op = OK) →
  table_fits dbf h fs → create_schema dbf = Some schema →
  1 ≤ batch_size → records h + batch_size < 2 ^ 31 →
  iconv_open (encoding dbf) = true →
  records h < Z.of_nat fuel →
  ∃ batches dbf',
    write_parquet fuel dbf path batch_size
    = Some (OK, [OpenFile path; OpenWriter schema] ++ batches ++ [CloseWriter; CloseFile],
            dbf')
    ∧ Z.of_nat (length batches) = (records h + batch_size - 1) `div` batch_size.
Proof.
  intros Hsink Hfits Hschema Hbs Hint Hopen Hfuel.
  pose proof (fits_records _ _ _ Hfits) as Hrec.
  pose proof (create_schema_length dbf fs schema (fits_fields _ _ _ Hfits) Hschema) as Hlen.
  destruct (write_batches_fits h fs schema batch_size Hsink Hbs Hint fuel dbf 0
              [OpenFile path; OpenWriter schema] Hfits Hlen Hopen ltac:(lia) ltac:(lia))
    as (batches & dbf' & Hloop & _ & _ & Hcount & _).
  exists batches, dbf'. unfold write_parquet. rewrite Hschema. simpl.
  rewrite !Hsink. simpl. rewrite Hloop. simpl. rewrite !Hsink. simpl.
  split; [by rewrite <- !app_assoc|].
  rewrite Hcount. do 2 f_equal. lia.
Qed.

(** X21. On a table that fits its buffer, with a positive batch size, a
    converter that opens and a sink that accepts every operation,
    [write_parquet] returns OK once the fuel exceeds the record count. It
    opens the file and the writer, writes the batches and closes both.
    There are as many batches as [batch_size] rows go into the record
    count, rounded up, all of [batch_size] rows but the last, and row [r]
    of the table is row [r mod batch_size] of batch [r / batch_size]:
    its cells are those of the bytes which its fields had before the call. *)
Theorem write_parquet_writes_every_row (dbf : DBF) h fs schema path batch_size fuel :
  (∀ ops op, sink ops op = OK) →
  table_fits dbf h fs → create_schema dbf = Some schema →
  1 ≤ batch_size → records h + batch_size < 2 ^ 31 →
  iconv_open (encoding dbf) = true →
  records h < Z.of_nat fuel →
  ∃ batches dbf',
    write_parquet fuel dbf path batch_size
    = Some (OK, [OpenFile path; OpenWriter schema] ++ batches ++ [CloseWriter; CloseFile],
            dbf')
    ∧ Z.of_nat (length batches) = (records h + batch_size - 1) `div` batch_size
    ∧ (∀ (j : nat) op, batches !! j = Some op →
         ∃ columns,
           op = WriteRecordBatch schema
                  (Z.min batch_size (records h - Z.of_nat j * batch_size)) columns
           ∧ length columns = length schema)
    ∧ (∀ r k fld fd, 0 ≤ r < records h → schema !! k = Some fld → fs !! k = Some fd →
         ∃ rows columns column,
           batches !! Z.to_nat (r `div` batch_size)
           = Some (WriteRecordBatch schema rows columns)
           ∧ columns !! k = Some column
           ∧ column !! Z.to_nat (r `mod` batch_size)
             = Some (field_cell (encoding dbf) (type_id fld)
                       (field_bytes h fd r (mem_buffer dbf)))).
Proof.
  intros Hsink Hfits Hschema Hbs Hint Hopen Hfuel.
  pose proof (fits_records _ _ _ Hfits) as Hrec.
  pose proof (create_schema_length dbf fs schema (fits_fields _ _ _ Hfits) Hschema) as Hlen.
  destruct (write_batches_fits h fs schema batch_size Hsink Hbs Hint fuel dbf 0
              [OpenFile path; OpenWriter schema] Hfits Hlen Hopen ltac:(lia) ltac:(lia))
    as (batches & dbf' & Hloop & _ & _ & Hcount & Hops & Hcells).
  exists batches, dbf'. unfold write_parquet. rewrite Hschema. simpl.
  rewrite !Hsink. simpl. rewrite Hloop. simpl. rewrite !Hsink. simpl.
  split; [by rewrite <- !app_assoc|]. split; [|split].
  - rewrite Hcount. do 2 f_equal. lia.
  - intros j op Hop. destruct (Hops j op Hop) as (columns & -> & Hl).
    exists columns. split; [|done]. do 2 f_equal. lia.
  - intros r k fld fd Hr Hfld Hfd.
    destruct (Hcells r k fld fd Hr Hfld Hfd) as (rows & columns & column & H).
    exists rows, columns, column. by rewrite Z.sub_0_r in H.
Qed.

(** The batch loop with any sink: it appends batches of the schema to the
    operations, it fails with the status of the last operation or with
    the error of [create_arrow_batch], and it changes the table only by
    NUL bytes in place of white space. *)
Lemma write_batches_trace schema batch_size :
  ∀ fuel (dbf dbf' : DBF) start ops ops' st,
  write_batches fuel dbf schema batch_size start ops = Some (st, ops', dbf') →
  (∃ ws, ops' = ops ++ ws
         ∧ Forall (λ op, ∃ rows columns, op = WriteRecordBatch schema rows columns) ws)
  ∧ (ok st = false →
     st = Failed "Failed to initialize encoding conversion (iconv_open)."
     ∨ ∃ init op, ops' = init ++ [op] ∧ st = sink init op)
  ∧ nul_for_space (mem_buffer dbf) (mem_buffer dbf')
  ∧ header dbf' = header dbf ∧ fields dbf' = fields dbf
  ∧ columns dbf' = columns dbf ∧ encoding dbf' = encoding dbf.
Proof.
  induction fuel as [|fuel IH]; intros dbf dbf' start ops ops' st; simpl; [done|].
  destruct (header dbf) as [h|] eqn:Hh; simpl; [|done].
  case_decide.
  2: { intros [= <- <- <-]. split; [exists []; by rewrite app_nil_r|].
       split; [done|]. split; [apply nul_for_space_refl|done]. }
  destruct (create_arrow_batch dbf schema start batch_size) as [[result dbf1]|] eqn:Hbatch;
    simpl; [|done].
  destruct (create_arrow_batch_frame double fast_float_from_chars indeterminate_double
              indeterminate_int iconv_open iconv seconds_west dbf dbf1 schema start batch_size
              result Hbatch) as (Hb1 & Hh1 & Hf1 & Hc1 & He1).
  rewrite Hh in Hh1.
  destruct result as [sch rows cols|msg].
  - assert (sch = schema) as ->.
    { unfold create_arrow_batch in Hbatch. rewrite Hh in Hbatch. simpl in Hbatch.
      destruct (iconv_open (encoding dbf)); [|done].
      destruct (extract_columns _ _ _ _ _ _ _ _ _ _ _ _) as [[? ?]|]; [|done].
      simpl in Hbatch. by injection Hbatch as <- _ _. }
    destruct (ok (sink ops (WriteRecordBatch schema rows cols))) eqn:Hok.
    + case_decide; [|done]. intros Hloop.
      destruct (IH _ _ _ _ _ _ Hloop) as ((ws & -> & Hws) & Hfail & Hb & Hh' & Hf' & Hc' & He').
      split; [|split; [done|split; [by eapply nul_for_space_trans|]]].
      * exists (WriteRecordBatch schema rows cols :: ws). rewrite <- app_assoc.
        split; [done|]. constructor; [by eexists _, _|done].
      * repeat split; congruence.
    + intros [= <- <- <-].
      split; [|split; [|exact (conj Hb1 (conj Hh1 (conj Hf1 (conj Hc1 He1))))]].
      * exists [WriteRecordBatch schema rows cols]. split; [done|].
        constructor; [by eexists _, _|done].
      * intros _. right. by eexists _, _.
  - intros [= <- <- <-]. split; [exists []; by rewrite app_nil_r|].
    split; [|exact (conj Hb1 (conj Hh1 (conj Hf1 (conj Hc1 He1))))]. intros _. left.
    unfold create_arrow_batch in Hbatch. rewrite Hh in Hbatch. simpl in Hbatch.
    destruct (iconv_open (encoding dbf)).
    + destruct (extract_columns _ _ _ _ _ _ _ _ _ _ _ _) as [[? ?]|]; done.
    + by injection Hbatch as <- _.
Qed.

(** X22. [write_parquet] with any sink and any table. It returns OK only when
    it has opened the file and the writer, written batches of the schema
    of the table and closed the writer and the file. When it fails, it
    has stopped at the operation that failed, which is the last of its
    operations and whose status it returns, or it returns the error of
    [create_arrow_batch]. In every case the header, the catalog and the
    encoding of the table are as before, and the buffer differs only by
    NUL bytes in place of white space. *)
Theorem write_parquet_stops_at_failure (dbf dbf' : DBF) path batch_size fuel st ops :
  write_parquet fuel dbf path batch_size = Some (st, ops, dbf') →
  (∃ schema ws,
     create_schema dbf = Some schema
     ∧ Forall (λ op, ∃ rows columns, op = WriteRecordBatch schema rows columns) ws
     ∧ (ok st = true →
        ops = [OpenFile path; OpenWriter schema] ++ ws ++ [CloseWriter; CloseFile])
     ∧ (ok st = false →
        st = Failed "Failed to initialize encoding conversion (iconv_open)."
        ∨ ∃ init op, ops = init ++ [op] ∧ st = sink init op))
  ∧ nul_for_space (mem_buffer dbf) (mem_buffer dbf')
  ∧ header dbf' = header dbf ∧ fields dbf' = fields dbf
  ∧ columns dbf' = columns dbf ∧ encoding dbf' = encoding dbf.
Proof.
  unfold write_parquet.
  destruct (create_schema dbf) as [schema|]; simpl; [|done].
  destruct (ok (sink [] (OpenFile path))) eqn:Hopen; simpl.
  2: { intros [= <- <- <-]. split; [|split; [apply nul_for_space_refl|done]].
       exists schema, []. split; [done|]. split; [done|].
       split; [intros Hok; congruence|]. intros _. right. by exists [], (OpenFile path). }
  destruct (ok (sink [OpenFile path] (OpenWriter schema))) eqn:Hwriter; simpl.
  2: { intros [= <- <- <-]. split; [|split; [apply nul_for_space_refl|done]].
       exists schema, []. split; [done|]. split; [done|].
       split; [intros Hok; congruence|]. intros _. right.
       by exists [OpenFile path], (OpenWriter schema). }
  destruct (write_batches fuel dbf schema batch_size 0 _) as [[[st1 ops1] dbf1]|] eqn:Hloop;
    simpl; [|done].
  destruct (write_batches_trace _ _ _ _ _ _ _ _ _ Hloop)
    as ((ws & -> & Hws) & Hfail & Hframe).
  destruct (ok st1) eqn:Hst1; simpl.
  2: { intros [= <- <- <-]. split; [|done]. exists schema, ws. split; [done|].
       split; [done|]. split; [intros Hok; congruence|]. intros _. by apply Hfail. }
  destruct (ok (sink _ CloseWriter)) eqn:Hcw; simpl.
  2: { intros [= <- <- <-]. split; [|done]. exists schema, ws. split; [done|].
       split; [done|]. split; [intros Hok; congruence|]. intros _. right.
       by exists (OpenFile path :: OpenWriter schema :: ws), CloseWriter. }
  destruct (ok (sink _ CloseFile)) eqn:Hcf; simpl.
  2: { intros [= <- <- <-]. split; [|done]. exists schema, ws. split; [done|].
       split; [done|]. split; [intros Hok; congruence|]. intros _. right.
       by exists (OpenFile path :: OpenWriter schema :: ws ++ [CloseWriter]), CloseFile. }
  intros [= <- <- <-]. split; [|done]. exists schema, ws. split; [done|].
  split; [done|]. split; [|done]. intros _. by rewrite <- !app_assoc.
Qed.

(** X23. A table without records is written as a file that has the schema and
    no batch, whatever the batch size: the converter is not opened, so
    its encoding need not be known, and the table is not touched. *)
Theorem empty_table_is_written (dbf : DBF) h schema path batch_size fuel :
  (∀ ops op, sink ops op = OK) →
  header dbf = Some h → records h = 0 → create_schema dbf = Some schema →
  (0 < fuel)%nat →
  write_parquet fuel dbf path batch_size
  = Some (OK, [OpenFile path; OpenWriter schema; CloseWriter; CloseFile], dbf).
Proof.
  intros Hsink Hh Hrec Hschema Hfuel. unfold write_parquet. rewrite Hschema. simpl.
  rewrite !Hsink. simpl. destruct fuel as [|fuel]; [lia|]. simpl.
  rewrite Hh. simpl. rewrite Hrec.
  rewrite decide_False by (unfold to_u32; pose proof (Z.mod_pos_bound 0 (2 ^ 32)); lia).
  simpl. by rewrite !Hsink.
Qed.

(** X24. With a batch size of 0 and a table that has a record, the loop of
    [write_parquet] writes one empty batch after the other and never
    advances: the call has no result, whatever the fuel. *)
Theorem zero_batch_size_never_returns (dbf : DBF) h fs schema path fuel :
  (∀ ops op, sink ops op = OK) →
  table_fits dbf h fs → create_schema dbf = Some schema →
  0 < records h → iconv_open (encoding dbf) = true →
  write_parquet fuel dbf path 0 = None.
Proof.
  intros Hsink Hfits Hschema Hrec Hopen.
  pose proof (create_schema_length dbf fs schema (fits_fields _ _ _ Hfits) Hschema) as Hlen.
  pose proof (fits_records _ _ _ Hfits) as Hrange.
  assert (Hloop : ∀ fuel0 (dbf0 : DBF) ops,
            table_fits dbf0 h fs → iconv_open (encoding dbf0) = true →
            write_batches fuel0 dbf0 schema 0 0 ops = None).
  { induction fuel0 as [|n IH]; intros dbf0 ops Hfits0 Hopen0; simpl; [done|].
    rewrite (fits_header _ _ _ Hfits0). simpl.
    rewrite decide_True by (unfold to_u32; rewrite Z.mod_small by lia; lia).
    destruct (create_arrow_batch_fits double fast_float_from_chars indeterminate_double
                indeterminate_int iconv_open iconv seconds_west dbf0 h fs schema 0 0 Hfits0
                Hlen ltac:(lia) ltac:(lia) ltac:(lia) Hopen0)
      as (columns & dbf1 & Hrun & Hfits1 & Henc & _).
    rewrite Hrun. simpl. rewrite Hsink. simpl.
    apply IH; [done|by rewrite Henc]. }
  unfold write_parquet. rewrite Hschema. simpl. rewrite !Hsink. simpl.
  by rewrite Hloop.
Qed.

End WriterProperties.

(** ** The output file name *)

Lemma find_last_of_rev_absent c r i : c ∉ r → find_last_of_rev c r i = npos.
Proof.
  revert i. induction r as [|x r IH]; intros i Hc; simpl; [done|].
  apply not_elem_of_cons in Hc as [Hx Hr]. rewrite decide_False by done. by apply IH.
Qed.

Lemma find_last_of_rev_found c l r i :
  c ∉ l → find_last_of_rev c (l ++ c :: r) i = i - Z.of_nat (length l).
Proof.
  revert i. induction l as [|x l IH]; intros i Hc; simpl.
  - rewrite decide_True by done. lia.
  - apply not_elem_of_cons in Hc as [Hx Hl]. rewrite decide_False by done.
    rewrite IH by done. lia.
Qed.

(** [generate_output_filename] keeps what comes before the last dot of
    the name, or the whole name when it has no dot, and appends
    ".parquet". *)
Lemma generate_output_filename_spec (s : list byte) :
  Z.of_nat (length s) < npos →
  (x2e ∉ s → generate_output_filename s = Some (s ++ bytes ".parquet"))
  ∧ (∀ stem ext, s = stem ++ x2e :: ext → x2e ∉ ext →
       generate_output_filename s = Some (stem ++ bytes ".parquet")).
Proof.
  intros Hlen. unfold generate_output_filename, find_last_of. split.
  - intros Hno. rewrite find_last_of_rev_absent by (by rewrite elem_of_reverse).
    by rewrite decide_False by (intros H; by apply H).
  - intros stem ext -> Hext.
    rewrite reverse_app, reverse_cons, <- app_assoc. simpl.
    rewrite find_last_of_rev_found by (by rewrite elem_of_reverse).
    rewrite length_app, length_reverse in *. simpl length in *.
    rewrite decide_True by (unfold npos in *; lia).
    unfold substr. rewrite decide_False by (rewrite length_app; simpl; lia). simpl.
    rewrite drop_0, length_app. simpl length.
    replace (Z.to_nat _) with (length stem) by lia.
    by rewrite take_app_length.
Qed.

(** X25. The output name is the input name with what follows its last dot
    replaced by "parquet"; a name without a dot gets ".parquet" appended.
    The last dot is that of the whole path: with a dot in a directory and
    none in the file name, the name is cut inside the directory. *)
Theorem output_name_replaces_extension (s : list byte) :
  Z.of_nat (length s) < npos →
  (x2e ∉ s → generate_output_filename s = Some (s ++ bytes ".parquet"))
  ∧ (∀ stem ext, s = stem ++ x2e :: ext → x2e ∉ ext →
       generate_output_filename s = Some (stem ++ bytes ".parquet")).
Proof. apply generate_output_filename_spec. Qed.

(** X26. [generate_output_filename] returns its own results unchanged: the
    name of a Parquet file is the output name of itself. *)
Theorem output_name_is_stable (s out : list byte) :
  Z.of_nat (length s) + 8 < npos →
  generate_output_filename s = Some out →
  generate_output_filename out = Some out.
Proof.
  intros Hlen Hout.
  destruct (generate_output_filename_spec s ltac:(lia)) as [Hno Hdot].
  assert (∃ stem, out = stem ++ bytes ".parquet" ∧ (length stem ≤ length s)%nat)
    as (stem & -> & Hstem).
  { destruct (decide (x2e ∈ s)) as [Hin|Hnot].
    - apply list_elem_of_split_r in Hin as (l & r & -> & Hr).
      rewrite (Hdot l r eq_refl Hr) in Hout. injection Hout as <-.
      exists l. split; [done|]. rewrite length_app. lia.
    - rewrite (Hno Hnot) in Hout. injection Hout as <-. by exists s. }
  destruct (generate_output_filename_spec (stem ++ bytes ".parquet")) as [_ Hdot'].
  { rewrite length_app. change (length (bytes ".parquet")) with 8%nat. lia. }
  apply (Hdot' stem (bytes "parquet")); [done|].
  change (bytes "parquet") with [x70; x61; x72; x71; x75; x65; x74].
  rewrite !elem_of_cons, elem_of_nil.
  intros [?|[?|[?|[?|[?|[?|[?|[]]]]]]]]; discriminate.
Qed.

(** ** The callbacks of the decompressor *)

(** X27. A consumer that calls [in_from_file] until it delivers nothing, and
    hands every chunk to [out_to_memory], receives the bytes of the file
    from the position of the stream to its end, in order, appended to the
    vector; no chunk has more than 4096 bytes, and the stream ends at the
    end of the file. *)
Theorem callbacks_copy_the_rest (fuel : nat) (input : FILE) (vec : list byte) :
  0 ≤ position input ≤ Z.of_nat (length (content input)) →
  Z.of_nat (length (content input)) - position input ≤ 4096 * (Z.of_nat fuel - 1) →
  copy_through fuel input vec
  = Some (vec ++ drop (Z.to_nat (position input)) (content input),
          mkFILE (content input) (Z.of_nat (length (content input))) (seekable input))
  ∧ Z.of_nat (length (snd (fst (in_from_file input)))) ≤ 4096.
Proof.
  intros Hpos Hfuel. split.
  - revert input vec Hpos Hfuel.
    induction fuel as [|fuel IH]; intros [content0 pos seek] vec; simpl; intros Hpos Hfuel;
      [lia|].
    unfold in_from_file, fread. cbn [position content seekable].
    set (avail := drop (Z.to_nat pos) content0).
    assert (Havail : Z.of_nat (length avail) = Z.of_nat (length content0) - pos).
    { unfold avail. rewrite length_drop. lia. }
    rewrite Z.div_1_r. change (1 * 4096) with 4096.
    set (n := Z.min 4096 (Z.of_nat (length avail))).
    assert (Hn : 0 ≤ n ≤ 4096) by lia.
    assert (Hgot : length (take (Z.to_nat n) avail) = Z.to_nat n)
      by (rewrite length_take; lia).
    unfold to_u32. rewrite Z.mod_small by lia. rewrite Hgot.
    destruct (decide (n = 0)) as [Hzero|Hmore].
    + assert (avail = []) as -> by (apply nil_length_inv; lia).
      rewrite app_nil_r. do 3 f_equal. simpl in Havail. lia.
    + rewrite IH; cbn [position content seekable]; [|lia|lia].
      do 2 f_equal. rewrite <- app_assoc. f_equal.
      replace (Z.to_nat (pos + Z.of_nat (Z.to_nat n))) with (Z.to_nat pos + Z.to_nat n)%nat
        by lia.
      rewrite <- drop_drop. apply take_drop.
  - unfold in_from_file, fread. cbn [fst snd]. rewrite length_take. lia.
Qed.

(** ** The entry point *)

Lemma is_prefix_spec (needle s : list byte) :
  is_prefix needle s = true ↔ ∃ r, s = needle ++ r.
Proof.
  revert s. induction needle as [|a needle IH]; intros s; simpl.
  - split; [by exists s|done].
  - destruct s as [|b s].
    + split; [done|]. by intros [r Hr].
    + rewrite andb_true_iff, bool_decide_eq_true, IH. split.
      * intros [-> [r ->]]. by exists r.
      * intros [r [= -> ->]]. split; [done|]. by exists r.
Qed.

(** [strstr] finds the needle anywhere in the string. *)
Lemma strstr_spec (haystack needle : list byte) :
  strstr haystack needle ≠ None ↔ ∃ l r, haystack = l ++ needle ++ r.
Proof.
  induction haystack as [|c h IH]; simpl.
  - destruct (is_prefix needle []) eqn:E.
    + apply is_prefix_spec in E as [r Hr]. split; [|done]. intros _. by exists [], r.
    + split; [done|]. intros (l & r & Hlr). exfalso.
      destruct l; [|done]. simpl in Hlr.
      assert (is_prefix needle [] = true) by (apply is_prefix_spec; by exists r).
      congruence.
  - destruct (is_prefix needle (c :: h)) eqn:E.
    + apply is_prefix_spec in E as [r Hr]. split; [|done]. intros _. by exists [], r.
    + destruct (strstr h needle) as [i|] eqn:Hs; simpl.
      * split; [|done]. intros _. destruct (proj1 IH ltac:(done)) as (l & r & ->).
        by exists (c :: l), r.
      * split; [done|]. intros (l & r & Hlr). exfalso.
        destruct l as [|c' l]; simpl in Hlr.
        -- assert (is_prefix needle (c :: h) = true) by (apply is_prefix_spec; by exists r).
           congruence.
        -- injection Hlr as -> ->. apply (proj2 IH); [by exists l, r|done].
Qed.

Lemma message_not_empty (c : Ascii.ascii) (s : string) (l : list byte) :
  bytes (String c s) ++ l ≠ [].
Proof. done. Qed.

Lemma ok_true (st : Status) : ok st = true → st = OK.
Proof. by destruct st. Qed.

Section MainProperties.

Variable double : Type.
Variable fast_float_from_chars : list byte → double → from_chars_result * double.
Variable indeterminate_double : double.
Variable indeterminate_int : Z.
Variable iconv_open : string → bool.
Variable iconv : string → list byte → option (list byte).
Variable seconds_west : tm → Z.
Variable sink : list (SinkOp double) → SinkOp double → Status.
Variable fopen : list byte → option FILE.
Variable blast : list byte → Z * list byte.

Local Abbreviation write_parquet :=
  (write_parquet double fast_float_from_chars indeterminate_double indeterminate_int
     iconv_open iconv seconds_west sink).
Local Abbreviation main :=
  (main double fast_float_from_chars indeterminate_double indeterminate_int
     iconv_open iconv seconds_west sink fopen blast).
Local Abbreviation OpenFile := (OpenFile double).
Local Abbreviation OpenWriter := (OpenWriter double).
Local Abbreviation CloseWriter := (CloseWriter double).
Local Abbreviation CloseFile := (CloseFile double).

(** The part of [main] that follows the check of the arguments. *)
Lemma main_run fuel (input_file output_file : list byte) code err ops :
  match fopen input_file with
  | None => Some (-1, bytes "Error opening input file: " ++ input_file ++ [x0a], [])
  | Some input =>
      '(loaded, dbf) ← dbc_load_dbf blast input empty_dbf;
      if negb loaded then Some (-1, bytes "Error loading DBC data" ++ [x0a], [])
      else
        '(status, ops, _) ← write_parquet fuel dbf output_file 10000;
        if negb (ok status)
        then Some (-1, bytes "Error: Failed to write Parquet file" ++ [x0a], ops)
        else Some (0, [], ops)
  end = Some (code, err, ops) →
  (code = 0 ∧ err = []
   ∧ ∃ input dbf dbf',
       fopen input_file = Some input
       ∧ dbc_load_dbf blast input empty_dbf = Some (true, dbf)
       ∧ write_parquet fuel dbf output_file 10000 = Some (OK, ops, dbf'))
  ∨ (code = -1 ∧ ∃ rest, err = x45 :: rest).
Proof.
  destruct (fopen input_file) as [input|] eqn:Hopen;
    [|intros [= <- <- <-]; right; split; [done|by eexists]].
  destruct (dbc_load_dbf blast input _) as [[[] dbf]|] eqn:Hload; simpl;
    [|intros [= <- <- <-]; right; split; [done|by eexists]|done].
  destruct (write_parquet fuel dbf output_file 10000) as [[[st ops'] dbf']|] eqn:Hwrite;
    simpl; [|done].
  destruct (ok st) eqn:Hst; simpl; intros [= <- <- <-];
    [|right; split; [done|by eexists]].
  left. split; [done|]. split; [done|]. apply ok_true in Hst as ->.
  by exists input, dbf, dbf'.
Qed.

(** When the part of [main] that follows the check of the arguments
    returns 0, and when it has no result. *)
Lemma main_run_cases fuel (input_file output_file : list byte) :
  let result :=
    match fopen input_file with
    | None => Some (-1, bytes "Error opening input file: " ++ input_file ++ [x0a], [])
    | Some input =>
        '(loaded, dbf) ← dbc_load_dbf blast input empty_dbf;
        if negb loaded then Some (-1, bytes "Error loading DBC data" ++ [x0a], [])
        else
          '(status, ops, _) ← write_parquet fuel dbf output_file 10000;
          if negb (ok status)
          then Some (-1, bytes "Error: Failed to write Parquet file" ++ [x0a], ops)
          else Some (0, [], ops)
    end in
  (∀ ops,
     result = Some (0, [], ops)
     ↔ ∃ input dbf dbf',
         fopen input_file = Some input
         ∧ dbc_load_dbf blast input empty_dbf = Some (true, dbf)
         ∧ write_parquet fuel dbf output_file 10000 = Some (OK, ops, dbf'))
  ∧ (result = None
     ↔ ∃ input,
         fopen input_file = Some input
         ∧ (dbc_load_dbf blast input empty_dbf = None
            ∨ ∃ dbf, dbc_load_dbf blast input empty_dbf = Some (true, dbf)
                     ∧ write_parquet fuel dbf output_file 10000 = None)).
Proof.
  intros result. unfold result. clear result.
  destruct (fopen input_file) as [input|] eqn:Hopen.
  2: { split; [intros ops|]; (split; [done|]).
       - by intros (i & d & d' & H & _).
       - by intros (i & H & _). }
  destruct (dbc_load_dbf blast input empty_dbf) as [[[] dbf]|] eqn:Hload; simpl.
  - destruct (write_parquet fuel dbf output_file 10000) as [[[st ops'] dbf']|] eqn:Hwrite;
      simpl.
    + destruct st as [|msg]; simpl; (split; [intros ops; split|split]).
      * intros [= <-]. by exists input, dbf, dbf'.
      * intros (i & d & d' & ? & ? & ?). simplify_eq. done.
      * done.
      * intros (i & ? & [?|(d & ? & ?)]); simplify_eq.
      * done.
      * intros (i & d & d' & ? & ? & ?). simplify_eq.
      * done.
      * intros (i & ? & [?|(d & ? & ?)]); simplify_eq.
    + split; [intros ops; split|split].
      * done.
      * intros (i & d & d' & ? & ? & ?). simplify_eq.
      * intros _. exists input. split; [done|]. right. by exists dbf.
      * done.
  - split; [intros ops; split|split].
    + done.
    + intros (i & d & d' & ? & ? & ?). simplify_eq.
    + done.
    + intros (i & ? & [?|(d & ? & ?)]); simplify_eq.
  - split; [intros ops; split|split].
    + done.
    + intros (i & d & d' & ? & ? & ?). simplify_eq.
    + intros _. exists input. split; [done|]. by left.
    + done.
Qed.

(** X28. [main] returns 0 or -1 whenever it returns, and 0 exactly when it
    writes nothing to [std::cerr]. It returns 0 exactly when it was
    called with one or two arguments that pass the check, the input file
    could be opened, [dbc_load_dbf] returned true and [write_parquet]
    returned OK for the table loaded into an empty handle, with the
    default batch size of 10000 rows; with one argument the output name
    is that of [generate_output_filename]. It has no result exactly when
    the arguments pass, the file is opened, and the load or the writer
    has none. And it does return 0 for every file that loads as a table
    which fits its buffer, when the converter opens, the sink accepts
    every operation and the fuel exceeds the record count. *)
Theorem main_returns_zero fuel argv :
  let checked program input_file output_file :=
    argv = [program; input_file]
    ∧ generate_output_filename input_file = Some output_file
    ∨ argv = [program; input_file; output_file]
      ∧ strstr input_file (bytes ".dbc") ≠ None
      ∧ strstr output_file (bytes ".parquet") ≠ None in
  (∀ ops,
     main fuel argv = Some (0, [], ops)
     ↔ ∃ program input_file output_file input dbf dbf',
         checked program input_file output_file
         ∧ fopen input_file = Some input
         ∧ dbc_load_dbf blast input empty_dbf = Some (true, dbf)
         ∧ write_parquet fuel dbf output_file 10000 = Some (OK, ops, dbf'))
  ∧ (∀ code err ops,
       main fuel argv = Some (code, err, ops) →
       code = 0 ∧ err = [] ∨ code = -1 ∧ err ≠ [])
  ∧ (main fuel argv = None
     ↔ argv = []
       ∨ (∃ program input_file,
            argv = [program; input_file] ∧ generate_output_filename input_file = None)
       ∨ ∃ program input_file output_file input,
           checked program input_file output_file
           ∧ fopen input_file = Some input
           ∧ (dbc_load_dbf blast input empty_dbf = None
              ∨ ∃ dbf, dbc_load_dbf blast input empty_dbf = Some (true, dbf)
                       ∧ write_parquet fuel dbf output_file 10000 = None))
  ∧ (∀ program input_file output_file input dbf h fs schema,
       checked program input_file output_file →
       fopen input_file = Some input →
       dbc_load_dbf blast input empty_dbf = Some (true, dbf) →
       table_fits dbf h fs → create_schema dbf = Some schema →
       iconv_open (encoding dbf) = true →
       (∀ ops op, sink ops op = OK) →
       records h + 10000 < 2 ^ 31 → records h < Z.of_nat fuel →
       ∃ batches,
         main fuel argv
         = Some (0, [], [OpenFile output_file; OpenWriter schema] ++ batches
                          ++ [CloseWriter; CloseFile])
         ∧ Z.of_nat (length batches) = (records h + 9999) `div` 10000).
Proof.
  intros checked.
  assert (Hzero : ∀ ops,
     main fuel argv = Some (0, [], ops)
     ↔ ∃ program input_file output_file input dbf dbf',
         checked program input_file output_file
         ∧ fopen input_file = Some input
         ∧ dbc_load_dbf blast input empty_dbf = Some (true, dbf)
         ∧ write_parquet fuel dbf output_file 10000 = Some (OK, ops, dbf')).
  { intros ops. unfold checked, main.
    destruct argv as [|program [|a [|b [|c rest]]]]; simpl.
    - split; [done|]. by intros (? & ? & ? & ? & ? & ? & [[? _]|[? _]] & _).
    - split; [done|]. by intros (? & ? & ? & ? & ? & ? & [[? _]|[? _]] & _).
    - destruct (generate_output_filename a) as [output_name|] eqn:Hname; simpl.
      + destruct (main_run_cases fuel a output_name) as [Hrun _].
        rewrite (Hrun ops). split.
        * intros (input & dbf & dbf' & Hrest). exists program, a, output_name, input, dbf, dbf'.
          split; [by left|done].
        * intros (p' & a' & o' & input & dbf & dbf' & [[[= <- <-] Ho]|[? _]] & Hrest); [|done].
          rewrite Hname in Ho. injection Ho as <-. by exists input, dbf, dbf'.
      + split; [done|].
        intros (p' & a' & o' & input & dbf & dbf' & [[[= <- <-] Ho]|[? _]] & Hrest); [|done].
        by rewrite Hname in Ho.
    - destruct (bool_decide (strstr a (bytes ".dbc") = None)) eqn:Ha; simpl.
      { apply bool_decide_eq_true in Ha. split; [done|].
        by intros (p' & a' & o' & ? & ? & ? & [[? _]|([= <- <- <-] & ? & _)] & _). }
      destruct (bool_decide (strstr b (bytes ".parquet") = None)) eqn:Hb; simpl.
      { apply bool_decide_eq_true in Hb. split; [done|].
        by intros (p' & a' & o' & ? & ? & ? & [[? _]|([= <- <- <-] & _ & ?)] & _). }
      apply bool_decide_eq_false in Ha, Hb.
      destruct (main_run_cases fuel a b) as [Hrun _].
      rewrite (Hrun ops). split.
      * intros (input & dbf & dbf' & Hrest). exists program, a, b, input, dbf, dbf'.
        split; [by right|done].
      * intros (p' & a' & o' & input & dbf & dbf' & [[? _]|([= <- <- <-] & _)] & Hrest); [done|].
        by exists input, dbf, dbf'.
    - rewrite decide_False by lia. rewrite decide_False by lia. split; [done|].
      by intros (? & ? & ? & ? & ? & ? & [[? _]|[? _]] & _). }
  split; [exact Hzero|]. split; [|split].
  - intros code err ops. unfold main.
    destruct argv as [|program [|a [|b [|c rest]]]]; simpl; [done|..].
    + intros [= <- <- <-]. by right.
    + destruct (generate_output_filename a) as [output_name|]; simpl; [|done].
      intros Hrun. apply main_run in Hrun as [(-> & -> & _)|(-> & r & ->)];
        [by left|by right].
    + destruct (bool_decide _ || bool_decide _); simpl; [intros [= <- <- <-]; by right|].
      intros Hrun. apply main_run in Hrun as [(-> & -> & _)|(-> & r & ->)];
        [by left|by right].
    + rewrite decide_False by lia. rewrite decide_False by lia.
      intros [= <- <- <-]. by right.
  - unfold checked, main.
    destruct argv as [|program [|a [|b [|c rest]]]]; simpl.
    + split; [by left|done].
    + split; [done|].
      by intros [?|[(? & ? & ? & _)|(? & ? & ? & ? & [[? _]|[? _]] & _)]].
    + destruct (generate_output_filename a) as [output_name|] eqn:Hname; simpl.
      * destruct (main_run_cases fuel a output_name) as [_ Hrun].
        rewrite Hrun. split.
        -- intros (input & Hrest). right. right. exists program, a, output_name, input.
           split; [by left|done].
        -- intros [?|[(p' & a' & [= <- <-] & Ho)|(p' & a' & o' & input
                       & [[[= <- <-] Ho]|[? _]] & Hrest)]]; [done|congruence| |done].
           rewrite Hname in Ho. injection Ho as <-. by exists input.
      * split; [|done]. intros _. right. left. by exists program, a.
    + destruct (bool_decide (strstr a (bytes ".dbc") = None)) eqn:Ha; simpl.
      { apply bool_decide_eq_true in Ha. split; [done|].
        by intros [?|[(? & ? & ? & _)|(p' & a' & o' & ?
                     & [[? _]|([= <- <- <-] & ? & _)] & _)]]. }
      destruct (bool_decide (strstr b (bytes ".parquet") = None)) eqn:Hb; simpl.
      { apply bool_decide_eq_true in Hb. split; [done|].
        by intros [?|[(? & ? & ? & _)|(p' & a' & o' & ?
                     & [[? _]|([= <- <- <-] & _ & ?)] & _)]]. }
      apply bool_decide_eq_false in Ha, Hb.
      destruct (main_run_cases fuel a b) as [_ Hrun].
      rewrite Hrun. split.
      * intros (input & Hrest). right. right. exists program, a, b, input.
        split; [by right|done].
      * intros [?|[(? & ? & ? & _)|(p' & a' & o' & input
                   & [[? _]|([= <- <- <-] & _)] & Hrest)]]; [done..|].
        by exists input.
    + rewrite decide_False by lia. rewrite decide_False by lia. split; [done|].
      by intros [?|[(? & ? & ? & _)|(? & ? & ? & ? & [[? _]|[? _]] & _)]].
  - intros program input_file output_file input dbf h fs schema Hargs Hopen Hload
      Hfits Hschema Hconv Hsink Hint Hfuel.
    destruct (write_parquet_ok double fast_float_from_chars indeterminate_double
                indeterminate_int iconv_open iconv seconds_west sink dbf h fs schema
                output_file 10000 fuel Hsink Hfits Hschema ltac:(lia) Hint Hconv Hfuel)
      as (batches & dbf' & Hwrite & Hcount).
    exists batches. split; [|rewrite Hcount; f_equal; lia].
    apply Hzero. by exists program, input_file, output_file, input, dbf, dbf'.
Qed.

(** X29. With two arguments [main] rejects the call, with the usage text and
    before any file is opened, exactly when the first does not contain
    ".dbc" or the second does not contain ".parquet": the texts may stand
    anywhere in the names, not only at their ends. *)
Theorem main_checks_names_by_substring fuel (program a b : list byte) :
  main fuel [program; a; b]
  = Some (-1, bytes "Usage: " ++ program ++ bytes " input.dbc output.parquet" ++ [x0a], [])
  ↔ ¬ (∃ l r, a = l ++ bytes ".dbc" ++ r) ∨ ¬ (∃ l r, b = l ++ bytes ".parquet" ++ r).
Proof.
  rewrite <- !strstr_spec. unfold main. simpl.
  destruct (bool_decide (strstr a (bytes ".dbc") = None)) eqn:Ha; simpl.
  { apply bool_decide_eq_true in Ha. split; [|done]. intros _. left. by intros H. }
  destruct (bool_decide (strstr b (bytes ".parquet") = None)) eqn:Hb; simpl.
  { apply bool_decide_eq_true in Hb. split; [|done]. intros _. right. by intros H. }
  apply bool_decide_eq_false in Ha, Hb. split; [|tauto].
  intros Hrun. apply main_run in Hrun as [(? & _)|(_ & r & Hr)]; [done|].
  discriminate Hr.
Qed.

End MainProperties.

(** ** Instances of the further properties *)

(** The example table of two fields and two records fits its buffer. *)
Lemma people_table_fits : table_fits people_handle people_header people_fields.
Proof.
  constructor; try reflexivity; try (vm_compute; split; congruence);
    try (vm_compute; congruence).
  - intros fd [= <-]. reflexivity.
  - intros [|[|k]] fd fd'; try done. intros [= <-] [= <-]. reflexivity.
  - intros [|[|k]] fd; try done; intros [= <-]; vm_compute; congruence.
Qed.

Lemma dbc_load_dbf_defined_witness :
  is_Some (dbc_load_dbf (blast_yielding []) (name_file [x00; x00; x00; x00] []) empty_dbf).
Proof.
  apply dbc_load_dbf_defined. intros b0 b1 H8 H9.
  injection H8 as <-. injection H9 as <-. right. vm_compute. congruence.
Defined.

Lemma rotate_returns_its_argument_witness :
  rotate4b 4660 = 4660 ∧ rotate2b 4660 = 4660.
Proof.
  destruct (rotate_returns_its_argument 4660) as [H4 H2]; [lia|].
  split; [exact H4|apply H2; lia].
Defined.

Lemma header_parse_witness :
  ∃ h, header (snd (dbf_ReadHeaderInfo (with_mem_buffer people_table empty_dbf))) = Some h
       ∧ records h = 2 ∧ header_length h = 97 ∧ record_length h = 12.
Proof.
  destruct (header_parse (with_mem_buffer people_table empty_dbf)) as [_ Hlong].
  destruct Hlong as (_ & _ & _ & _ & h & Hh & _ & Hrecords & Hhl & Hrl);
    [vm_compute; congruence|].
  exists h. split; [exact Hh|]. split; [exact Hrecords|]. split; [exact Hhl|exact Hrl].
Defined.

Lemma column_and_row_counts_witness :
  dbf_NumRows people_handle = Some 2 ∧ dbf_NumCols people_handle = Some 2.
Proof.
  destruct (column_and_row_counts people_handle
              (default (DB_HEADER_of_bytes []) (header people_handle)))
    as (Hrows & _ & Hcols); [reflexivity|vm_compute; split; congruence|vm_compute; congruence|].
  split; [exact Hrows|].
  apply (Hcols 2); [vm_compute; congruence|vm_compute; split; congruence].
Defined.

Lemma field_info_outcomes_witness :
  ∃ dbf', dbf_ReadFieldInfo numeric_parsed = Some (0, dbf')
          ∧ columns dbf' = 3 ∧ (Z.of_nat ∘ length) <$> fields dbf' = Some 3
          ∧ mem_buffer dbf' = mem_buffer numeric_parsed
          ∧ header dbf' = header numeric_parsed
          ∧ encoding dbf' = encoding numeric_parsed.
Proof.
  destruct (field_info_outcomes numeric_parsed numeric_header) as (_ & Hok & _);
    [reflexivity|vm_compute; split; congruence|].
  apply Hok; vm_compute; congruence.
Defined.

Lemma catalog_entries_witness :
  ∃ f, (fields numeric_handle ≫= (.!! 2%nat)) = Some f
       ∧ field_name f = bytes "PRICE" ++ replicate 6 x00
       ∧ field_type f = "N"%byte
       ∧ u8 (field_length f) = 8 ∧ u8 (field_decimals f) = 2.
Proof.
  exists (default (DB_FIELD_of_bytes []) (fields numeric_handle ≫= (.!! 2%nat))).
  split; [reflexivity|].
  destruct (catalog_entries numeric_parsed numeric_handle numeric_header 2
              (default [] (fields numeric_handle))
              (default (DB_FIELD_of_bytes []) (fields numeric_handle ≫= (.!! 2%nat))))
    as (_ & Hname & Htype & Hlen & Hdec);
    [reflexivity|vm_compute; split; congruence|reflexivity|reflexivity|reflexivity|].
  split; [exact Hname|]. split; [exact Htype|].
  split; [rewrite Hlen|rewrite Hdec]; reflexivity.
Defined.

Lemma load_success_witness :
  ∃ dbf', dbc_load_dbf (blast_yielding (drop 65 name_table))
            (name_file [x00; x00; x00; x00] []) empty_dbf = Some (true, dbf')
          ∧ mem_buffer dbf' = name_table ∧ columns dbf' = 1.
Proof.
  exists name_handle. split; [reflexivity|].
  destruct (load_success (blast_yielding (drop 65 name_table))
              (name_file [x00; x00; x00; x00] []) empty_dbf name_handle eq_refl)
    as (b0 & b1 & out & hd & fs & _ & H8 & H9 & _ & Hblast & Hbuf & _).
  injection H8 as <-. injection H9 as <-. injection Hblast as <-.
  split; [exact Hbuf|reflexivity].
Defined.

Lemma skipped_bytes_are_not_read_witness :
  dbc_load_dbf (blast_yielding (drop 65 name_table))
    (name_file [x00; x00; x00; x00] []) empty_dbf
  = dbc_load_dbf (blast_yielding (drop 65 name_table))
      (name_file [xde; xad; xbe; xef] []) empty_dbf.
Proof.
  apply (skipped_bytes_are_not_read (blast_yielding (drop 65 name_table))
           (take 65 name_table) [x00; x00; x00; x00] [xde; xad; xbe; xef] []
           empty_dbf x41 x00); reflexivity.
Defined.

(** " y " is true, "F  " is false, and a field that holds a NUL and "T"
    is null. *)
Lemma logical_cell_witness :
  fst <$> extract_cell Z no_float 0 0 no_iconv (zone_west 0) "CP850" BOOL 1 3
            (bytes "* y *")
  = Some (Boolean Z true)
  ∧ fst <$> extract_cell Z no_float 0 0 no_iconv (zone_west 0) "CP850" BOOL 1 3
              (bytes "*F  *")
    = Some (Boolean Z false)
  ∧ fst <$> extract_cell Z no_float 0 0 no_iconv (zone_west 0) "CP850" BOOL 1 2
              [x2a; x00; x54; x2a]
    = Some (Null Z).
Proof.
  split; [|split].
  - rewrite (logical_cell Z no_float 0 0 no_iconv (zone_west 0) "CP850" 1 3 (bytes "* y *"));
      [reflexivity|lia|lia|simpl; lia].
  - rewrite (logical_cell Z no_float 0 0 no_iconv (zone_west 0) "CP850" 1 3 (bytes "*F  *"));
      [reflexivity|lia|lia|simpl; lia].
  - rewrite (logical_cell Z no_float 0 0 no_iconv (zone_west 0) "CP850" 1 2
               [x2a; x00; x54; x2a]);
      [reflexivity|lia|lia|simpl; lia].
Defined.

(** " Ab " is "Ab"; "A" and the byte 0x82 give the empty string with a
    converter that fails; and a field that holds a space, a NUL and "A"
    is null. *)
Lemma character_cell_witness :
  fst <$> extract_cell Z no_float 0 0 no_iconv (zone_west 0) "CP850" STRING 1 4
            (bytes "* Ab *")
  = Some (Utf8 Z (bytes "Ab"))
  ∧ fst <$> extract_cell Z no_float 0 0 no_iconv (zone_west 0) "CP850" STRING 1 2
              [x2a; x41; x82; x2a]
    = Some (Utf8 Z [])
  ∧ fst <$> extract_cell Z no_float 0 0 no_iconv (zone_west 0) "CP850" STRING 1 3
              [x2a; x20; x00; x41; x2a]
    = Some (Null Z).
Proof.
  split; [|split].
  - rewrite (character_cell Z no_float 0 0 no_iconv (zone_west 0) "CP850" 1 4
               (bytes "* Ab *"));
      [reflexivity|lia|lia|simpl; lia].
  - rewrite (character_cell Z no_float 0 0 no_iconv (zone_west 0) "CP850" 1 2
               [x2a; x41; x82; x2a]);
      [reflexivity|lia|lia|simpl; lia].
  - rewrite (character_cell Z no_float 0 0 no_iconv (zone_west 0) "CP850" 1 3
               [x2a; x20; x00; x41; x2a]);
      [reflexivity|lia|lia|simpl; lia].
Defined.

Lemma int32_cell_in_range_witness :
  fst <$> extract_cell Z no_float 0 0 no_iconv (zone_west 0) "CP850" INT32 1 9 (bytes "*999999999*")
  = Some (Int32 Z 999999999)
  ∧ fst <$> extract_cell Z no_float 0 0 no_iconv (zone_west 0) "CP850" INT32 1 5 (bytes "* -7kg*")
    = Some (Int32 Z (-7)).
Proof.
  split.
  - apply (int32_cell_in_range Z no_float 0 0 no_iconv (zone_west 0) "CP850" 1 9 (bytes "*999999999*")
             false (bytes "999999999") []);
      [lia|lia|simpl; lia|reflexivity|discriminate|by repeat constructor|discriminate].
  - apply (int32_cell_in_range Z no_float 0 0 no_iconv (zone_west 0) "CP850" 1 5 (bytes "* -7kg*")
             true (bytes "7") (bytes "kg"));
      [lia|lia|simpl; lia|reflexivity|discriminate|by repeat constructor|].
    intros c [= <-]. reflexivity.
Defined.


Lemma cell_keeps_buffer_iff_witness :
  ∃ v buf',
    extract_cell Z no_float 0 0 no_iconv (zone_west 0) "CP850" STRING 1 3 (bytes "*AB *") = Some (v, buf')
    ∧ length buf' = length (bytes "*AB *")
    ∧ (buf' = bytes "*AB *"
       ↔ Forall (λ c, isspace c = true) (zslice 1 3 (bytes "*AB *"))
         ∨ ∃ c, last (zslice 1 3 (bytes "*AB *")) = Some c ∧ isspace c = false).
Proof.
  apply (cell_keeps_buffer_iff Z no_float 0 0 no_iconv (zone_west 0) "CP850" STRING 1 3 (bytes "*AB *"));
    [lia|lia|simpl; lia].
Defined.

Lemma field_value_agrees_with_cell_witness :
  ∃ value,
    dbf_get_field_value people_handle 0 0 = Some value
    ∧ fst <$> extract_cell Z no_float 0 0 no_iconv (zone_west 0) "CP852" STRING 98 3
                (mem_buffer people_handle)
      = Some (if decide (value = []) then Null Z else Utf8 Z value).
Proof.
  set (h := default (DB_HEADER_of_bytes []) (header people_handle)).
  set (fd := default (DB_FIELD_of_bytes []) (fields people_handle ≫= (.!! 0%nat))).
  change 98 with (header_length h + 0 * record_length h + field_offset fd).
  change 3 with (u8 (field_length fd)).
  apply (field_value_agrees_with_cell Z no_float 0 0 no_iconv (zone_west 0) "CP852" people_handle
           h (default [] (fields people_handle)) 0 0 fd);
    [reflexivity|reflexivity|lia|reflexivity|lia|vm_compute; congruence
    |vm_compute; congruence|vm_compute; congruence|vm_compute; congruence
    |vm_compute; congruence|].
  change (zslice _ _ _) with [x41; x20; x20].
  repeat (apply Forall_cons; split;
          [split; [rewrite !elem_of_cons, elem_of_nil; intros [?|[?|[?|[]]]]; discriminate
                  |vm_compute; congruence]|]).
  constructor.
Defined.

Lemma field_value_is_trimmed_witness :
  ∃ l r, zslice 98 3 (mem_buffer people_handle) = l ++ bytes "A" ++ r
         ∧ Forall (λ c, in_trim_set c = true) l ∧ Forall (λ c, in_trim_set c = true) r.
Proof.
  destruct (field_value_is_trimmed people_handle 0 0 (bytes "A") eq_refl)
    as (h & fs & fd & l & r & Hh & Hfs & _ & Hfd & Hfield & Hl & Hr & _).
  injection Hh as <-. injection Hfs as <-. injection Hfd as <-.
  exists l, r. split; [exact Hfield|]. split; [exact Hl|exact Hr].
Defined.

Lemma batch_is_well_formed_witness :
  match create_arrow_batch Z no_float 0 0 iconv_opens no_iconv (zone_west 10800)
          people_handle people_schema 0 10000 with
  | Some (result, _) =>
      ∃ rows columns,
        result = RecordBatch Z people_schema rows columns
        ∧ 0 ≤ rows < 2 ^ 32
        ∧ Forall2 (λ fld column,
                     Z.of_nat (length column) = rows
                     ∧ Forall (λ v, cell_has_type Z (type_id fld) v = true) column)
            people_schema columns
  | None => False
  end.
Proof.
  destruct (create_arrow_batch Z no_float 0 0 iconv_opens no_iconv (zone_west 10800)
              people_handle people_schema 0 10000) as [[result dbf']|] eqn:Hrun.
  - exact (batch_is_well_formed Z no_float 0 0 iconv_opens no_iconv (zone_west 10800)
             people_handle dbf' people_schema 0 10000 result Hrun).
  - vm_compute in Hrun. discriminate Hrun.
Defined.

Lemma batch_of_fitting_table_witness :
  ∃ columns dbf',
    create_arrow_batch Z no_float 0 0 iconv_opens no_iconv (zone_west 10800)
      people_handle people_schema 1 10000
    = Some (RecordBatch Z people_schema 1 columns, dbf')
    ∧ length columns = length people_schema
    ∧ ∀ k fld, people_schema !! k = Some fld →
        ∃ fd column,
          people_fields !! k = Some fd ∧ columns !! k = Some column
          ∧ Z.of_nat (length column) = 1
          ∧ ∀ i : nat, Z.of_nat i < 1 →
              column !! i
              = Some (field_cell Z no_float 0 0 no_iconv (zone_west 10800) (encoding people_handle)
                        (type_id fld)
                        (field_bytes people_header fd (1 + Z.of_nat i)
                           (mem_buffer people_handle))).
Proof.
  apply (batch_of_fitting_table Z no_float 0 0 iconv_opens no_iconv (zone_west 10800)
           people_handle people_header people_fields people_schema 1 10000
           people_table_fits);
    [vm_compute; lia|vm_compute; split; congruence|lia|lia|reflexivity].
Defined.

Lemma batch_keeps_other_records_witness :
  match create_arrow_batch Z no_float 0 0 iconv_opens no_iconv (zone_west 10800)
          people_handle people_schema 1 10000 with
  | Some (_, dbf') =>
      table_fits dbf' people_header people_fields
      ∧ ∀ k fd, people_fields !! k = Some fd →
          field_bytes people_header fd 0 (mem_buffer dbf')
          = field_bytes people_header fd 0 (mem_buffer people_handle)
  | None => False
  end.
Proof.
  destruct (create_arrow_batch Z no_float 0 0 iconv_opens no_iconv (zone_west 10800)
              people_handle people_schema 1 10000) as [[result dbf']|] eqn:Hrun.
  - destruct (batch_keeps_other_records Z no_float 0 0 iconv_opens no_iconv (zone_west 10800)
                people_handle dbf' people_header people_fields people_schema 1 10000
                result people_table_fits) as (Hfits & _ & _ & Hfields);
      [vm_compute; lia|vm_compute; split; congruence|lia|lia|reflexivity|exact Hrun|].
    split; [exact Hfits|]. intros k fd Hfd. apply (Hfields 0 k fd Hfd); [lia|].
    vm_compute. intros [H _]. by apply H.
  - vm_compute in Hrun. discriminate Hrun.
Defined.

Lemma batch_needs_the_byte_after_a_field_witness :
  0 ≤ 113 ∧ 113 + 8 < Z.of_nat (length (mem_buffer people_handle)).
Proof.
  set (fd := default (DB_FIELD_of_bytes []) (people_fields !! 1%nat)).
  change 113 with (header_length people_header
                   + to_int (to_int (0 + 1) * record_length people_header)
                   + to_size_t (field_offset fd)).
  change 8 with (u8 (field_length fd)).
  apply (batch_needs_the_byte_after_a_field Z no_float 0 0 iconv_opens no_iconv (zone_west 10800)
           people_handle
           (snd (default (Invalid Z "no batch", empty_dbf)
                   (create_arrow_batch Z no_float 0 0 iconv_opens no_iconv (zone_west 10800)
                      people_handle people_schema 0 10000)))
           people_schema 0 10000 2
           [[Utf8 Z (bytes "A"); Null Z]; [Date32 Z 19782; Null Z]]
           people_header people_fields 1 fd 1);
    [vm_compute; reflexivity|reflexivity|reflexivity|vm_compute; lia|reflexivity|lia].
Defined.

Lemma schema_of_catalog_witness :
  dbf_NumCols numeric_handle = Some 3
  ∧ ∃ fld, numeric_schema !! 2%nat = Some fld
           ∧ type_id fld = DOUBLE ∧ name fld = bytes "PRICE".
Proof.
  destruct (schema_of_catalog numeric_handle (default [] (fields numeric_handle))
              numeric_schema eq_refl eq_refl) as [Hcols Hfields].
  split; [exact Hcols|].
  destruct (Hfields 2%nat (mkField (bytes "PRICE") DOUBLE) eq_refl)
    as (f & Hf & Htype & _ & _ & Hname & _).
  injection Hf as <-.
  exists (mkField (bytes "PRICE") DOUBLE). split; [reflexivity|]. split; [exact Htype|].
  apply Hname. apply (list_elem_of_lookup_2 _ 5%nat). reflexivity.
Defined.

Lemma write_parquet_writes_every_row_witness :
  ∃ batches dbf',
    write_parquet Z no_float 0 0 iconv_opens no_iconv (zone_west 10800) sink_ok 3 people_handle
      (bytes "people.parquet") 1
    = Some (OK, [OpenFile Z (bytes "people.parquet"); OpenWriter Z people_schema]
                ++ batches ++ [CloseWriter Z; CloseFile Z], dbf')
    ∧ Z.of_nat (length batches) = 2
    ∧ ∃ rows columns column,
        batches !! 0%nat = Some (WriteRecordBatch Z people_schema rows columns)
        ∧ columns !! 1%nat = Some column
        ∧ column !! 0%nat = Some (Date32 Z 19782).
Proof.
  destruct (write_parquet_writes_every_row Z no_float 0 0 iconv_opens no_iconv (zone_west 10800)
              sink_ok people_handle people_header people_fields people_schema
              (bytes "people.parquet") 1 3 (λ _ _, eq_refl) people_table_fits eq_refl)
    as (batches & dbf' & Hrun & Hcount & _ & Hcells);
    [lia|vm_compute; congruence|reflexivity|vm_compute; congruence|].
  exists batches, dbf'. split; [exact Hrun|]. split; [exact Hcount|].
  destruct (Hcells 0 1%nat (mkField (bytes "BORN") DATE32)
              (default (DB_FIELD_of_bytes []) (people_fields !! 1%nat)))
    as (rows & columns & column & Hbatch & Hcolumn & Hcell);
    [vm_compute; split; congruence|reflexivity|reflexivity|].
  exists rows, columns, column. split; [exact Hbatch|]. split; [exact Hcolumn|exact Hcell].
Defined.

Lemma write_parquet_stops_at_failure_witness :
  write_parquet Z no_float 0 0 iconv_opens no_iconv (zone_west 10800) sink_without_writer 3
    people_handle (bytes "people.parquet") 1
  = Some (Failed "no writer",
          [OpenFile Z (bytes "people.parquet"); OpenWriter Z people_schema], people_handle)
  ∧ nul_for_space (mem_buffer people_handle) (mem_buffer people_handle)
  ∧ header people_handle = header people_handle.
Proof.
  split; [reflexivity|].
  destruct (write_parquet_stops_at_failure Z no_float 0 0 iconv_opens no_iconv (zone_west 10800)
              sink_without_writer people_handle people_handle (bytes "people.parquet") 1 3
              (Failed "no writer")
              [OpenFile Z (bytes "people.parquet"); OpenWriter Z people_schema] eq_refl)
    as (_ & Hbuf & Hheader & _).
  split; [exact Hbuf|exact Hheader].
Defined.

Lemma empty_table_is_written_witness :
  write_parquet Z no_float 0 0 (λ _, false) no_iconv (zone_west 10800) sink_ok 1 numeric_handle
    (bytes "numeric.parquet") 0
  = Some (OK, [OpenFile Z (bytes "numeric.parquet"); OpenWriter Z numeric_schema;
               CloseWriter Z; CloseFile Z], numeric_handle).
Proof.
  apply (empty_table_is_written Z no_float 0 0 (λ _, false) no_iconv (zone_west 10800) sink_ok
           numeric_handle numeric_header numeric_schema (bytes "numeric.parquet") 0 1
           (λ _ _, eq_refl)); [reflexivity|reflexivity|reflexivity|lia].
Defined.

Lemma zero_batch_size_never_returns_witness :
  write_parquet Z no_float 0 0 iconv_opens no_iconv (zone_west 10800) sink_ok 1000 people_handle
    (bytes "people.parquet") 0
  = None.
Proof.
  apply (zero_batch_size_never_returns Z no_float 0 0 iconv_opens no_iconv (zone_west 10800) sink_ok
           people_handle people_header people_fields people_schema (bytes "people.parquet")
           1000 (λ _ _, eq_refl) people_table_fits);
    [reflexivity|vm_compute; congruence|reflexivity].
Defined.

Lemma output_name_replaces_extension_witness :
  generate_output_filename (bytes "data/DENGBR24.dbc") = Some (bytes "data/DENGBR24.parquet")
  ∧ generate_output_filename (bytes "v1.2/table") = Some (bytes "v1.parquet").
Proof.
  split.
  - destruct (output_name_replaces_extension (bytes "data/DENGBR24.dbc")) as [_ Hdot];
      [vm_compute; congruence|].
    apply (Hdot (bytes "data/DENGBR24") (bytes "dbc")); [reflexivity|].
    change (bytes "dbc") with [x64; x62; x63]. rewrite !elem_of_cons, elem_of_nil.
    intros [?|[?|[?|[]]]]; discriminate.
  - destruct (output_name_replaces_extension (bytes "v1.2/table")) as [_ Hdot];
      [vm_compute; congruence|].
    apply (Hdot (bytes "v1") (bytes "2/table")); [reflexivity|].
    change (bytes "2/table") with [x32; x2f; x74; x61; x62; x6c; x65].
    rewrite !elem_of_cons, elem_of_nil.
    intros [?|[?|[?|[?|[?|[?|[?|[]]]]]]]]; discriminate.
Defined.

Lemma output_name_is_stable_witness :
  generate_output_filename (bytes "out.parquet") = Some (bytes "out.parquet").
Proof.
  apply (output_name_is_stable (bytes "out.dbc") (bytes "out.parquet"));
    [vm_compute; congruence|reflexivity].
Defined.

Lemma callbacks_copy_the_rest_witness :
  copy_through 3 (mkFILE (replicate 5000 x41) 4 true) [x2a]
  = Some ([x2a] ++ replicate 4996 x41, mkFILE (replicate 5000 x41) 5000 true).
Proof.
  destruct (callbacks_copy_the_rest 3 (mkFILE (replicate 5000 x41) 4 true) [x2a])
    as [Hcopy _]; [cbn [position content]; rewrite length_replicate; lia
                  |cbn [position content]; rewrite length_replicate; lia|].
  rewrite Hcopy. cbn [position content seekable]. rewrite length_replicate. reflexivity.
Defined.

(** Called with "people.dbc" alone, [main] writes the two records of the
    table as one batch to "people.parquet" and returns 0. *)
Lemma main_returns_zero_witness :
  ∃ batches,
    main Z no_float 0 0 iconv_opens no_iconv (zone_west 10800) sink_ok fopen_people
      (blast_yielding (drop 97 people_table)) 3 [bytes "dbc2parquet"; bytes "people.dbc"]
    = Some (0, [], [OpenFile Z (bytes "people.parquet"); OpenWriter Z people_schema]
                     ++ batches ++ [CloseWriter Z; CloseFile Z])
    ∧ Z.of_nat (length batches) = 1.
Proof.
  destruct (main_returns_zero Z no_float 0 0 iconv_opens no_iconv (zone_west 10800) sink_ok
              fopen_people (blast_yielding (drop 97 people_table)) 3
              [bytes "dbc2parquet"; bytes "people.dbc"]) as (_ & _ & _ & Hrun).
  apply (Hrun (bytes "dbc2parquet") (bytes "people.dbc") (bytes "people.parquet")
           people_file people_handle people_header people_fields people_schema).
  - left. split; reflexivity.
  - reflexivity.
  - vm_compute. reflexivity.
  - exact people_table_fits.
  - reflexivity.
  - reflexivity.
  - intros ops op. reflexivity.
  - vm_compute. congruence.
  - vm_compute. congruence.
Defined.

(** "table.dbc.bak" and "out.parquet.tmp" pass the check of the names;
    with no such file, [main] then fails to open the input. *)
Lemma main_checks_names_by_substring_witness :
  main Z no_float 0 0 iconv_opens no_iconv (zone_west 10800) sink_ok fopen_name (blast_yielding []) 2
    [bytes "dbc2parquet"; bytes "table.txt"; bytes "out.parquet"]
  = Some (-1, bytes "Usage: " ++ bytes "dbc2parquet"
              ++ bytes " input.dbc output.parquet" ++ [x0a], [])
  ∧ main Z no_float 0 0 iconv_opens no_iconv (zone_west 10800) sink_ok fopen_name (blast_yielding []) 2
      [bytes "dbc2parquet"; bytes "table.dbc.bak"; bytes "out.parquet.tmp"]
    = Some (-1, bytes "Error opening input file: " ++ bytes "table.dbc.bak" ++ [x0a], []).
Proof.
  split; [|reflexivity].
  apply (proj2 (main_checks_names_by_substring Z no_float 0 0 iconv_opens no_iconv (zone_west 10800)
                  sink_ok fopen_name (blast_yielding []) 2 (bytes "dbc2parquet")
                  (bytes "table.txt") (bytes "out.parquet"))).
  left. intros Hin. apply strstr_spec in Hin. by apply Hin.
Defined.
